(** * Dozer Duty: the puzzle rules of the level component

    A shallow embedding of the rules engine of the game: the level model
    and its validator ([level.model.ts]), the two sprites the rules read
    and write ([BulldozerSprite], [CrateSprite]) and the methods of
    [LevelComponent] that decide a move, undo it and detect completion.

    Conventions of the embedding.
    - The component and its sprites are mutable objects; here every method
      takes the component and returns the updated one.
    - Canvas, textures, particles and easing are left out: no rule reads
      them.  Of the animation only what the rules read is kept: the
      [isMoving] flag, the start and end cell of a move, and the frame that
      completes a move.
    - Grid coordinates are integers ([Z]); [Math_round] is the identity on
      them. *)

From Stdlib Require Import ZArith String OrderedTypeEx.
From stdpp Require Import base tactics option list sorting strings.

Local Open Scope string_scope.
Local Open Scope Z_scope.

(** ** Models *)

(** Modelled from the spec: [position.model.ts] is not among the sources;
    the spec gives a position as an integer pair (x, y), 0-based. *)
Module Position.
Record t := mk { x : Z; y : Z }.

(** [a.x === b.x && a.y === b.y] *)
Definition eqb (a b : t) : bool := (x a =? x b) && (y a =? y b).

(** [{ x: p.x + deltaX, y: p.y + deltaY }] *)
Definition shift (p : t) (deltaX deltaY : Z) : t :=
  {| x := x p + deltaX; y := y p + deltaY |}.
End Position.

(** [Math.round] on a coordinate that is an integer. *)
Definition Math_round (v : Z) : Z := v.

(** The grid cell of a sprite position:
    [{ x: Math.round(p.x), y: Math.round(p.y) }]. *)
Definition roundPos (p : Position.t) : Position.t :=
  {| Position.x := Math_round (Position.x p);
     Position.y := Math_round (Position.y p) |}.

Module Crate.
(** [color] is [string | null]: [None] is the neutral crate. *)
Record t := mk { position : Position.t; color : option string }.
End Crate.

Module EndPosition.
Record t := mk { position : Position.t; color : string }.
End EndPosition.

Module Level.
Record t := mk {
  number : Z;
  width : Z;
  height : Z;
  walls : list Position.t;
  crates : list Crate.t;
  playerStartPosition : Position.t;
  endPositions : list EndPosition.t
}.
End Level.

(** ** Sprites *)

Inductive Direction := Up | Right | Down | Left.

(** The enum values: the rotation of the sprite in degrees. *)
Definition degrees (d : Direction) : Z :=
  match d with Up => 0 | Right => 90 | Down => 180 | Left => 270 end.

Module BulldozerSprite.
Record t := mk {
  position : Position.t;
  direction : Direction;
  isMoving : bool;
  moveStartPos : Position.t;
  moveEndPos : Position.t
}.

(** [constructor(position, direction)] *)
Definition new (p : Position.t) (d : Direction) : t :=
  {| position := p; direction := d; isMoving := false;
     moveStartPos := p; moveEndPos := p |}.

Definition setDirection (d : Direction) (b : t) : t :=
  {| position := position b; direction := d; isMoving := isMoving b;
     moveStartPos := moveStartPos b; moveEndPos := moveEndPos b |}.

Definition getDirection (b : t) : Direction := direction b.

(** Assignment to the public field [position]. *)
Definition setPosition (p : Position.t) (b : t) : t :=
  {| position := p; direction := direction b; isMoving := isMoving b;
     moveStartPos := moveStartPos b; moveEndPos := moveEndPos b |}.

Definition startMoveTo (target : Position.t) (b : t) : t :=
  if isMoving b then b
  else {| position := position b; direction := direction b;
          isMoving := true;
          moveStartPos := position b; moveEndPos := target |}.

Definition isAnimating (b : t) : bool := isMoving b.

(** [update(deltaTime)] at the frame in which [moveProgress] reaches 1:
    the move ends and the sprite sits on [moveEndPos].  The earlier
    frames of a move only interpolate the drawn position. *)
Definition update (b : t) : t :=
  if isMoving b then
    {| position := moveEndPos b; direction := direction b;
       isMoving := false;
       moveStartPos := moveStartPos b; moveEndPos := moveEndPos b |}
  else b.

(** Modelled from the spec: [startPushAttempt] is called by
    [handleMovement] on every blocked move but its body is not among the
    sources.  The spec gives a blocked move as one where no state changed
    besides the actor's facing: the push attempt is a drawn nudge only and
    leaves position, facing and the move animation as they are. *)
Definition startPushAttempt (deltaX deltaY : Z) (b : t) : t := b.
End BulldozerSprite.

Module CrateSprite.
Record t := mk {
  position : Position.t;
  color : option string;
  isMoving : bool;
  moveStartPos : Position.t;
  moveEndPos : Position.t
}.

(** [constructor(position, color)] *)
Definition new (p : Position.t) (c : option string) : t :=
  {| position := p; color := c; isMoving := false;
     moveStartPos := p; moveEndPos := p |}.

Definition getColor (c : t) : option string := color c.

(** Assignment to the public field [position]. *)
Definition setPosition (p : Position.t) (c : t) : t :=
  {| position := p; color := color c; isMoving := isMoving c;
     moveStartPos := moveStartPos c; moveEndPos := moveEndPos c |}.

Definition startMoveTo (target : Position.t) (c : t) : t :=
  if isMoving c then c
  else {| position := position c; color := color c;
          isMoving := true;
          moveStartPos := position c; moveEndPos := target |}.

Definition isAnimating (c : t) : bool := isMoving c.

(** [update(deltaTime)] at the frame that completes a move, as for the
    bulldozer. *)
Definition update (c : t) : t :=
  if isMoving c then
    {| position := moveEndPos c; color := color c;
       isMoving := false;
       moveStartPos := moveStartPos c; moveEndPos := moveEndPos c |}
  else c.

(** The cell the crate is on. *)
Definition cell (c : t) : Position.t := roundPos (position c).

(** [Math.round(crate.position.x) === p.x &&
     Math.round(crate.position.y) === p.y] *)
Definition isAt (p : Position.t) (c : t) : bool :=
  Position.eqb (cell c) p.
End CrateSprite.

(** ** Arrays *)

(** [Array.prototype.find] with the index of the element found: the first
    element, from index [k] on, that satisfies [p].  The index stands for
    the identity of the object ([crate !== crateAtTarget], [indexOf]). *)
Fixpoint findFrom {A} (p : nat -> A -> bool) (k : nat) (l : list A)
  : option (nat * A) :=
  match l with
  | [] => None
  | a :: l' => if p k a then Some (k, a) else findFrom p (S k) l'
  end.

Definition find {A} (p : nat -> A -> bool) (l : list A) : option (nat * A) :=
  findFrom p 0 l.

(** [Array.prototype.some] *)
Definition some {A} (p : A -> bool) (l : list A) : bool := existsb p l.

(** [Array.prototype.every] *)
Definition every {A} (p : A -> bool) (l : list A) : bool := forallb p l.

(** ** The level component *)

(** The single retained undo record, [lastMove]. *)
Module LastMove.
Record t := mk {
  bulldozerPos : Position.t;
  bulldozerDirection : Direction;
  cratePos : option Position.t;
  crateIndex : option nat
}.
End LastMove.

Record LevelComponent := mkLevelComponent {
  level : option Level.t;
  currentLevelNumber : Z;
  bulldozerSprite : option BulldozerSprite.t;
  crateSprites : list CrateSprite.t;
  isLevelComplete : bool;
  moveCount : Z;
  lastMove : option LastMove.t
}.

(** The component as its field initialisers leave it. *)
Definition newLevelComponent : LevelComponent :=
  {| level := None; currentLevelNumber := 1; bulldozerSprite := None;
     crateSprites := []; isLevelComplete := false; moveCount := 0;
     lastMove := None |}.

Definition set_bulldozerSprite (b : BulldozerSprite.t) (s : LevelComponent) :=
  {| level := level s; currentLevelNumber := currentLevelNumber s;
     bulldozerSprite := Some b; crateSprites := crateSprites s;
     isLevelComplete := isLevelComplete s; moveCount := moveCount s;
     lastMove := lastMove s |}.

Definition set_isLevelComplete (b : bool) (s : LevelComponent) :=
  {| level := level s; currentLevelNumber := currentLevelNumber s;
     bulldozerSprite := bulldozerSprite s; crateSprites := crateSprites s;
     isLevelComplete := b; moveCount := moveCount s;
     lastMove := lastMove s |}.

(** [initializeLevel()] *)
Definition initializeLevel (s : LevelComponent) : LevelComponent :=
  match level s with
  | None => s
  | Some lvl =>
      {| level := level s; currentLevelNumber := currentLevelNumber s;
         bulldozerSprite :=
           Some (BulldozerSprite.new (Level.playerStartPosition lvl) Down);
         crateSprites :=
           (fun crate =>
              CrateSprite.new (Crate.position crate) (Crate.color crate))
             <$> Level.crates lvl;
         isLevelComplete := false;
         moveCount := 0;
         lastMove := lastMove s |}
  end.

(** [loadLevel(levelNumber?)], the part that runs when the level store
    answers: the [next] callback receives the level record as it was
    parsed, stores it and initialises the sprites.  [levelNumber] is
    [None] on a reload. *)
Definition loadLevel (levelNumber : option Z) (received : Level.t)
    (s : LevelComponent) : LevelComponent :=
  let n := match levelNumber with
           | Some n => n
           | None => currentLevelNumber s
           end in
  initializeLevel
    {| level := Some received; currentLevelNumber := n;
       bulldozerSprite := bulldozerSprite s; crateSprites := crateSprites s;
       isLevelComplete := isLevelComplete s; moveCount := moveCount s;
       lastMove := lastMove s |}.

(** [x < 0 || x >= width || y < 0 || y >= height] *)
Definition outOfBounds (lvl : Level.t) (p : Position.t) : bool :=
  (Position.x p <? 0) || (Position.x p >=? Level.width lvl) ||
  (Position.y p <? 0) || (Position.y p >=? Level.height lvl).

(** [isWall(position)], with the level at hand. *)
Definition isWall (lvl : Level.t) (p : Position.t) : bool :=
  some (fun wall => Position.eqb wall p) (Level.walls lvl).

(** The [switch] on the key: the facing and the unit step it stands for,
    [None] for the [default] branch. *)
Definition keyStep (key : string) : option (Direction * Z * Z) :=
  if String.eqb key "ArrowUp" then Some (Up, 0, -1)
  else if String.eqb key "ArrowDown" then Some (Down, 0, 1)
  else if String.eqb key "ArrowLeft" then Some (Left, -1, 0)
  else if String.eqb key "ArrowRight" then Some (Right, 1, 0)
  else None.

(** The way [handleMovement] returned.  The method is [void]; the outcome
    names the [return] that was taken: [Ignored] for the returns before the
    facing is touched (no level, completed level, running animation, a key
    that is no arrow), [Blocked] for the returns after
    [startPushAttempt], [Moved] for the end of the method. *)
Inductive Outcome := Ignored | Blocked | Moved.

(** [handleMovement(key)].  An accepted move ends with
    [setTimeout(() => this.checkLevelCompletion(), 250)]: the delayed call
    is a step of its own, see [checkLevelCompletion]. *)
Definition handleMovement (key : string) (s : LevelComponent)
  : Outcome * LevelComponent :=
  match bulldozerSprite s, level s with
  | Some bulldozer, Some lvl =>
    if isLevelComplete s then (Ignored, s)
    else if BulldozerSprite.isAnimating bulldozer then (Ignored, s)
    else if some CrateSprite.isAnimating (crateSprites s) then (Ignored, s)
    else
      match keyStep key with
      | None => (Ignored, s)
      | Some (direction, deltaX, deltaY) =>
        let bulldozer := BulldozerSprite.setDirection direction bulldozer in
        let currentPos := roundPos (BulldozerSprite.position bulldozer) in
        let targetPos := Position.shift currentPos deltaX deltaY in
        let blocked :=
          (Blocked,
           set_bulldozerSprite
             (BulldozerSprite.startPushAttempt deltaX deltaY bulldozer) s) in
        if outOfBounds lvl targetPos then blocked
        else if isWall lvl targetPos then blocked
        else
          let previousBulldozerPos := currentPos in
          let previousBulldozerDirection :=
            BulldozerSprite.getDirection bulldozer in
          match find (fun _ crate => CrateSprite.isAt targetPos crate)
                     (crateSprites s) with
          | Some (crateIndex, crateAtTarget) =>
            let crateTargetPos := Position.shift targetPos deltaX deltaY in
            if outOfBounds lvl crateTargetPos then blocked
            else if isWall lvl crateTargetPos then blocked
            else
              match find (fun j crate =>
                            negb (j =? crateIndex)%nat &&
                            CrateSprite.isAt crateTargetPos crate)
                         (crateSprites s) with
              | Some _ => blocked
              | None =>
                let previousCratePos := CrateSprite.cell crateAtTarget in
                (Moved,
                 {| level := level s;
                    currentLevelNumber := currentLevelNumber s;
                    bulldozerSprite :=
                      Some (BulldozerSprite.startMoveTo targetPos bulldozer);
                    crateSprites :=
                      <[crateIndex :=
                          CrateSprite.startMoveTo crateTargetPos crateAtTarget]>
                        (crateSprites s);
                    isLevelComplete := isLevelComplete s;
                    moveCount := moveCount s + 1;
                    lastMove :=
                      Some {| LastMove.bulldozerPos := previousBulldozerPos;
                              LastMove.bulldozerDirection :=
                                previousBulldozerDirection;
                              LastMove.cratePos := Some previousCratePos;
                              LastMove.crateIndex := Some crateIndex |} |})
              end
          | None =>
            (Moved,
             {| level := level s;
                currentLevelNumber := currentLevelNumber s;
                bulldozerSprite :=
                  Some (BulldozerSprite.startMoveTo targetPos bulldozer);
                crateSprites := crateSprites s;
                isLevelComplete := isLevelComplete s;
                moveCount := moveCount s + 1;
                lastMove :=
                  Some {| LastMove.bulldozerPos := previousBulldozerPos;
                          LastMove.bulldozerDirection :=
                            previousBulldozerDirection;
                          LastMove.cratePos := None;
                          LastMove.crateIndex := None |} |})
          end
      end
  | _, _ => (Ignored, s)
  end.

(** [undoLastMove()] *)
Definition undoLastMove (s : LevelComponent) : LevelComponent :=
  match lastMove s, bulldozerSprite s with
  | Some last, Some bulldozer =>
    if BulldozerSprite.isAnimating bulldozer then s
    else if some CrateSprite.isAnimating (crateSprites s) then s
    else
      let bulldozer :=
        BulldozerSprite.setDirection (LastMove.bulldozerDirection last)
          (BulldozerSprite.setPosition (LastMove.bulldozerPos last)
             bulldozer) in
      let crates :=
        match LastMove.cratePos last, LastMove.crateIndex last with
        | Some cratePos, Some crateIndex =>
          match crateSprites s !! crateIndex with
          | Some crate =>
            <[crateIndex := CrateSprite.setPosition cratePos crate]>
              (crateSprites s)
          | None => crateSprites s
          end
        | _, _ => crateSprites s
        end in
      {| level := level s; currentLevelNumber := currentLevelNumber s;
         bulldozerSprite := Some bulldozer;
         crateSprites := crates;
         isLevelComplete := isLevelComplete s;
         moveCount :=
           if moveCount s >? 0 then moveCount s - 1 else moveCount s;
         lastMove := None |}
  | _, _ => s
  end.

(** [update(deltaTime)] of the game loop, at the frame that completes the
    running moves: every sprite is updated with the same [deltaTime], and
    every move lasts the same [moveDuration]. *)
Definition update (s : LevelComponent) : LevelComponent :=
  {| level := level s; currentLevelNumber := currentLevelNumber s;
     bulldozerSprite := BulldozerSprite.update <$> bulldozerSprite s;
     crateSprites := CrateSprite.update <$> crateSprites s;
     isLevelComplete := isLevelComplete s; moveCount := moveCount s;
     lastMove := lastMove s |}.

(** [crateAtPosition.getColor() === endPos.color]: [null] equals no
    string. *)
Definition colorMatches (c : option string) (goal : string) : bool :=
  match c with
  | Some c => String.eqb c goal
  | None => false
  end.

(** The callback of [endPositions.every] in [checkLevelCompletion]. *)
Definition endPositionFilled (sprites : list CrateSprite.t)
    (endPos : EndPosition.t) : bool :=
  match find (fun _ sprite =>
                CrateSprite.isAt (EndPosition.position endPos) sprite)
             sprites with
  | None => false
  | Some (_, crateAtPosition) =>
      colorMatches (CrateSprite.getColor crateAtPosition)
                   (EndPosition.color endPos)
  end.

(** [allEndPositionsFilled] of [checkLevelCompletion]: the result of the
    completion check. *)
Definition allEndPositionsFilled (lvl : Level.t)
    (sprites : list CrateSprite.t) : bool :=
  every (endPositionFilled sprites) (Level.endPositions lvl).

(** [checkLevelCompletion()]; [onLevelComplete] only creates the overlay
    sprite. *)
Definition checkLevelCompletion (s : LevelComponent) : LevelComponent :=
  match level s with
  | None => s
  | Some lvl =>
    if isLevelComplete s then s
    else if allEndPositionsFilled lvl (crateSprites s)
         then set_isLevelComplete true s
         else s
  end.

(** ** The level validator *)

(** JavaScript's default [sort] orders strings by their UTF-16 code units;
    here by the bytes of the string, [String.leb].  The two orders are the
    same on ASCII strings such as the color codes of the levels.  On other
    strings the two lists that [EndPositionColors] carries may come in
    another order than in the message of the source; whether the level is
    accepted depends on the lists up to their order only. *)
Definition strLe (a b : string) : Prop := String.leb a b = true.

#[global] Instance strLe_dec : RelDecision strLe.
Proof. intros a b. unfold strLe. apply _. Defined.

Definition sort (l : list string) : list string := merge_sort strLe l.

(** The [name] argument of [validatePosition]. *)
Inductive PositionName :=
| PlayerStart
| WallAt (i : nat)
| CrateAt (i : nat)
| EndPositionAt (i : nat).

(** What [validateLevel] throws.  The source builds a message; the
    constructors keep the invariant it names and the values it prints. *)
Inductive InvalidLevel :=
| InvalidWidth (width : Z)
| InvalidHeight (height : Z)
| EndPositionCount (number : Z) (endPositions coloredCrates : nat)
| EndPositionColors (number : Z) (crateColors endPositionColors : list string)
| InvalidPosition (name : PositionName) (pos : Position.t) (number : Z).

(** A call that returns or throws. *)
Inductive Result (A : Type) :=
| Return (a : A)
| Throw (e : InvalidLevel).
Arguments Return {A} a.
Arguments Throw {A} e.

Definition andThen {A B} (r : Result A) (k : A -> Result B) : Result B :=
  match r with
  | Return a => k a
  | Throw e => Throw e
  end.

(** [r; k]: statement [r], then the rest [k] unless [r] threw. *)
Notation "r >>; k" := (andThen r (fun _ => k))
  (at level 100, right associativity).

(** [Array.prototype.forEach] with a callback that may throw: the first
    throw ends the loop. *)
Fixpoint forEachFrom {A} (f : A -> nat -> Result unit) (k : nat) (l : list A)
  : Result unit :=
  match l with
  | [] => Return tt
  | a :: l' => f a k >>; forEachFrom f (S k) l'
  end.

Definition forEach {A} (f : A -> nat -> Result unit) (l : list A)
  : Result unit :=
  forEachFrom f 0%nat l.

(** [crate.color !== null] *)
Definition isColored (crate : Crate.t) : bool :=
  match Crate.color crate with
  | Some _ => true
  | None => false
  end.

(** The local function [validatePosition(pos, name)] of [validateLevel]. *)
Definition validatePosition (level : Level.t) (pos : Position.t)
    (name : PositionName) : Result unit :=
  if outOfBounds level pos
  then Throw (InvalidPosition name pos (Level.number level))
  else Return tt.

(** [validateLevel(level)] *)
Definition validateLevel (level : Level.t) : Result bool :=
  if (Level.width level <? 1) || (Level.width level >? 32)
  then Throw (InvalidWidth (Level.width level))
  else if (Level.height level <? 1) || (Level.height level >? 32)
  then Throw (InvalidHeight (Level.height level))
  else
    let coloredCrates := List.filter isColored (Level.crates level) in
    if negb (length (Level.endPositions level) =? length coloredCrates)%nat
    then Throw (EndPositionCount (Level.number level)
                  (length (Level.endPositions level)) (length coloredCrates))
    else
      let crateColors := sort (omap Crate.color coloredCrates) in
      let endPositionColors :=
        sort (EndPosition.color <$> Level.endPositions level) in
      if bool_decide (crateColors = endPositionColors)
      then
        validatePosition level (Level.playerStartPosition level) PlayerStart >>;
        forEach (fun wall i => validatePosition level wall (WallAt i))
                (Level.walls level) >>;
        forEach (fun crate i =>
                   validatePosition level (Crate.position crate) (CrateAt i))
                (Level.crates level) >>;
        forEach (fun e i =>
                   validatePosition level (EndPosition.position e)
                     (EndPositionAt i))
                (Level.endPositions level) >>;
        Return true
      else Throw (EndPositionColors (Level.number level)
                    crateColors endPositionColors).

(** * The vocabulary of the properties *)

(** ** Cells, walls and crates *)

(** A position is on the field: [0 <= x < width] and [0 <= y < height]. *)
Definition inBounds (lvl : Level.t) (p : Position.t) : Prop :=
  0 <= Position.x p < Level.width lvl /\ 0 <= Position.y p < Level.height lvl.

(** The first crate on a cell: the crate [find] picks for that cell. *)
Definition firstAt (crates : list CrateSprite.t) (p : Position.t)
    (i : nat) (c : CrateSprite.t) : Prop :=
  crates !! i = Some c /\ CrateSprite.cell c = p /\
  forall j c', (j < i)%nat -> crates !! j = Some c' -> CrateSprite.cell c' <> p.

(** Another crate than crate [i] stands on cell [p]. *)
Definition otherCrateAt (crates : list CrateSprite.t) (i : nat)
    (p : Position.t) : Prop :=
  exists j c, j <> i /\ crates !! j = Some c /\ CrateSprite.cell c = p.

(** ** The outcomes of a move *)

(** No sprite is in the middle of a move. *)
Definition settled (s : LevelComponent) : Prop :=
  from_option (fun b => BulldozerSprite.isMoving b = false) True
    (bulldozerSprite s) /\
  Forall (fun c => CrateSprite.isMoving c = false) (crateSprites s).

(** The cell in front of the actor and the cell behind that one. *)
Definition targetOf (b : BulldozerSprite.t) (deltaX deltaY : Z) : Position.t :=
  Position.shift (roundPos (BulldozerSprite.position b)) deltaX deltaY.

Definition crateTargetOf (b : BulldozerSprite.t) (deltaX deltaY : Z)
  : Position.t :=
  Position.shift (targetOf b deltaX deltaY) deltaX deltaY.

(** The conditions under which a move is blocked: the target is off the
    field or a wall, or the crate on the target cannot be pushed on. *)
Definition moveBlocked (lvl : Level.t) (crates : list CrateSprite.t)
    (b : BulldozerSprite.t) (deltaX deltaY : Z) : Prop :=
  let target := targetOf b deltaX deltaY in
  let crateTarget := crateTargetOf b deltaX deltaY in
  ~ inBounds lvl target \/
  target ∈ Level.walls lvl \/
  exists i c, firstAt crates target i c /\
    (~ inBounds lvl crateTarget \/
     crateTarget ∈ Level.walls lvl \/
     otherCrateAt crates i crateTarget).

(** The component after a blocked move: the bulldozer has turned. *)
Definition turned (d : Direction) (b : BulldozerSprite.t) (s : LevelComponent)
  : LevelComponent :=
  set_bulldozerSprite (BulldozerSprite.setDirection d b) s.

(** The component right after an accepted move, before the frame that
    completes it. *)
Definition moving (d : Direction) (b : BulldozerSprite.t) (dx dy : Z)
    (crates : list CrateSprite.t) (cratePos : option Position.t)
    (crateIndex : option nat) (s : LevelComponent) : LevelComponent :=
  {| level := level s;
     currentLevelNumber := currentLevelNumber s;
     bulldozerSprite :=
       Some (BulldozerSprite.startMoveTo (targetOf b dx dy)
               (BulldozerSprite.setDirection d b));
     crateSprites := crates;
     isLevelComplete := isLevelComplete s;
     moveCount := moveCount s + 1;
     lastMove :=
       Some {| LastMove.bulldozerPos := roundPos (BulldozerSprite.position b);
               LastMove.bulldozerDirection := d;
               LastMove.cratePos := cratePos;
               LastMove.crateIndex := crateIndex |} |}.

(** The gates of [handleMovement] are open: level [lvl] is being played
    with bulldozer [b], it is not complete, and no sprite is moving. *)
Definition accepts (s : LevelComponent) (lvl : Level.t)
    (b : BulldozerSprite.t) : Prop :=
  level s = Some lvl /\ bulldozerSprite s = Some b /\
  isLevelComplete s = false /\ settled s.

(** The four ways [handleMovement] ends. *)
Inductive Resolved (key : string) (s : LevelComponent)
  : Outcome -> LevelComponent -> Prop :=
| ResIgnored : Resolved key s Ignored s
| ResBlocked lvl b d dx dy :
    accepts s lvl b -> keyStep key = Some (d, dx, dy) ->
    moveBlocked lvl (crateSprites s) b dx dy ->
    Resolved key s Blocked (turned d b s)
| ResFree lvl b d dx dy :
    accepts s lvl b -> keyStep key = Some (d, dx, dy) ->
    inBounds lvl (targetOf b dx dy) ->
    targetOf b dx dy ∉ Level.walls lvl ->
    (forall j c, crateSprites s !! j = Some c ->
                 CrateSprite.cell c <> targetOf b dx dy) ->
    Resolved key s Moved (moving d b dx dy (crateSprites s) None None s)
| ResPush lvl b d dx dy i c :
    accepts s lvl b -> keyStep key = Some (d, dx, dy) ->
    inBounds lvl (targetOf b dx dy) ->
    targetOf b dx dy ∉ Level.walls lvl ->
    firstAt (crateSprites s) (targetOf b dx dy) i c ->
    inBounds lvl (crateTargetOf b dx dy) ->
    crateTargetOf b dx dy ∉ Level.walls lvl ->
    ~ otherCrateAt (crateSprites s) i (crateTargetOf b dx dy) ->
    Resolved key s Moved
      (moving d b dx dy
         (<[i := CrateSprite.startMoveTo (crateTargetOf b dx dy) c]>
            (crateSprites s))
         (Some (CrateSprite.cell c)) (Some i) s).

(** ** Undo *)

(** The component after an undo that passed the gates. *)
Definition undone (last : LastMove.t) (b : BulldozerSprite.t)
    (s : LevelComponent) : LevelComponent :=
  {| level := level s; currentLevelNumber := currentLevelNumber s;
     bulldozerSprite :=
       Some (BulldozerSprite.setDirection (LastMove.bulldozerDirection last)
               (BulldozerSprite.setPosition (LastMove.bulldozerPos last) b));
     crateSprites :=
       match LastMove.cratePos last, LastMove.crateIndex last with
       | Some cratePos, Some crateIndex =>
           match crateSprites s !! crateIndex with
           | Some crate =>
               <[crateIndex := CrateSprite.setPosition cratePos crate]>
                 (crateSprites s)
           | None => crateSprites s
           end
       | _, _ => crateSprites s
       end;
     isLevelComplete := isLevelComplete s;
     moveCount := if moveCount s >? 0 then moveCount s - 1 else moveCount s;
     lastMove := None |}.

(** ** The scenarios of the specification *)

Definition red : string := "#FF0000".

(** A field of width 4 and height 4 with the given wall cells, one red
    crate on (2,1), the red goal on (3,1) and the bulldozer starting on
    (1,1). *)
Definition scenarioLevel (walls : list Position.t) : Level.t :=
  {| Level.number := 1; Level.width := 4; Level.height := 4;
     Level.walls := walls;
     Level.crates :=
       [ {| Crate.position := Position.mk 2 1; Crate.color := Some red |} ];
     Level.playerStartPosition := Position.mk 1 1;
     Level.endPositions :=
       [ {| EndPosition.position := Position.mk 3 1;
            EndPosition.color := red |} ] |}.

(** The component after the first load of the scenario level: the
    bulldozer faces [Down]. *)
Definition scenarioStart (walls : list Position.t) : LevelComponent :=
  loadLevel None (scenarioLevel walls) newLevelComponent.

(** The border cells of the 4 x 4 field itself: the perimeter walls as the
    level generator of the repository lays them, [createPerimeterWalls]. *)
Definition borderCells : list Position.t :=
  List.filter
    (fun p => (Position.x p =? 0) || (Position.x p =? 3) ||
              (Position.y p =? 0) || (Position.y p =? 3))
    (flat_map (fun x => map (fun y => Position.mk x y) [0; 1; 2; 3])
              [0; 1; 2; 3]).

(** ** Goals *)

(** Crate [c] satisfies goal [g]: it stands on the goal's cell and has the
    goal's color. *)
Definition satisfies (c : CrateSprite.t) (g : EndPosition.t) : Prop :=
  CrateSprite.cell c = EndPosition.position g /\
  CrateSprite.color c = Some (EndPosition.color g).

(** Every goal of the level has a crate that satisfies it. *)
Definition everyGoalSatisfied (lvl : Level.t) (crates : list CrateSprite.t)
  : Prop :=
  forall g, g ∈ Level.endPositions lvl -> exists c, c ∈ crates /\ satisfies c g.

(** [c] with another color. *)
Definition recolor (col : option string) (c : CrateSprite.t) : CrateSprite.t :=
  {| CrateSprite.position := CrateSprite.position c;
     CrateSprite.color := col;
     CrateSprite.isMoving := CrateSprite.isMoving c;
     CrateSprite.moveStartPos := CrateSprite.moveStartPos c;
     CrateSprite.moveEndPos := CrateSprite.moveEndPos c |}.

(** ** Well-formed levels *)

(** The invariants of a level: sizes from 1 to 32, the colors of the
    colored crates are those of the goals, each as often, and every
    position lies on the field. *)
Definition wellFormed (lvl : Level.t) : Prop :=
  1 <= Level.width lvl <= 32 /\
  1 <= Level.height lvl <= 32 /\
  omap Crate.color (Level.crates lvl)
    ≡ₚ EndPosition.color <$> Level.endPositions lvl /\
  inBounds lvl (Level.playerStartPosition lvl) /\
  Forall (inBounds lvl) (Level.walls lvl) /\
  Forall (fun c => inBounds lvl (Crate.position c)) (Level.crates lvl) /\
  Forall (fun e => inBounds lvl (EndPosition.position e))
    (Level.endPositions lvl).

(** The position a name refers to. *)
Definition named (lvl : Level.t) (name : PositionName) : option Position.t :=
  match name with
  | PlayerStart => Some (Level.playerStartPosition lvl)
  | WallAt i => Level.walls lvl !! i
  | CrateAt i => Crate.position <$> Level.crates lvl !! i
  | EndPositionAt i => EndPosition.position <$> Level.endPositions lvl !! i
  end.

(** The error names an invariant that the level breaks and carries the
    values that break it. *)
Definition describes (lvl : Level.t) (e : InvalidLevel) : Prop :=
  match e with
  | InvalidWidth w => w = Level.width lvl /\ ~ 1 <= w <= 32
  | InvalidHeight h => h = Level.height lvl /\ ~ 1 <= h <= 32
  | EndPositionCount n a b =>
      n = Level.number lvl /\
      a = length (Level.endPositions lvl) /\
      b = length (omap Crate.color (Level.crates lvl)) /\
      a <> b
  | EndPositionColors n cs es =>
      n = Level.number lvl /\
      cs = sort (omap Crate.color (Level.crates lvl)) /\
      es = sort (EndPosition.color <$> Level.endPositions lvl) /\
      cs <> es
  | InvalidPosition name pos n =>
      n = Level.number lvl /\ named lvl name = Some pos /\ ~ inBounds lvl pos
  end.

(** A level that is three columns too wide for the validator. *)
Definition oversizedLevel : Level.t :=
  {| Level.number := 1; Level.width := 33; Level.height := 4;
     Level.walls := []; Level.crates := [];
     Level.playerStartPosition := Position.mk 1 1;
     Level.endPositions := [] |}.

(** ** Play as a sequence of events *)

(** What happens to a component during play: an arrow key (or any other
    key handed to [handleMovement]), the undo key, the frame that completes
    the running moves, and the delayed completion check. *)
Inductive Event :=
| KeyDown (key : string)
| UndoKey
| Frame
| CompletionCheck.

Definition step (s : LevelComponent) (e : Event) : LevelComponent :=
  match e with
  | KeyDown key => (handleMovement key s).2
  | UndoKey => undoLastMove s
  | Frame => update s
  | CompletionCheck => checkLevelCompletion s
  end.

Definition run (s : LevelComponent) (events : list Event) : LevelComponent :=
  foldl step s events.

(** The elements of a list differ pairwise under [f], by index. *)
Definition distinctOn {A B} (f : A -> B) (l : list A) : Prop :=
  forall i j a b, l !! i = Some a -> l !! j = Some b -> f a = f b -> i = j.

(** The cell a crate is on once its running move, if any, has completed. *)
Definition restCell (c : CrateSprite.t) : Position.t :=
  CrateSprite.cell (CrateSprite.update c).

(** The cell an undo would put a crate back on is free of other crates. *)
Definition undoSafe (s : LevelComponent) : Prop :=
  forall last p i,
    lastMove s = Some last ->
    LastMove.cratePos last = Some p -> LastMove.crateIndex last = Some i ->
    forall j c, j <> i -> crateSprites s !! j = Some c ->
                CrateSprite.cell c <> p /\ restCell c <> p.

(** The invariant of play. *)
Definition exclusive (s : LevelComponent) : Prop :=
  distinctOn CrateSprite.cell (crateSprites s) /\
  distinctOn restCell (crateSprites s) /\
  undoSafe s.

(** The scenario with a wall behind the crate: the bulldozer on (1,1),
    the crate on (2,1), a wall on (3,1). *)
Definition walledStart : LevelComponent := scenarioStart [Position.mk 3 1].

(** The scenario level once the crate has been pushed onto the goal and
    the completion check has run. *)
Definition completedScenario : LevelComponent :=
  checkLevelCompletion
    (update (handleMovement "ArrowRight" (scenarioStart [])).2).

(** Two crates in a line on an open field: the bulldozer on (1,1), crate A
    on (2,1), crate B on (3,1). *)
Definition lineLevel : Level.t :=
  {| Level.number := 2; Level.width := 6; Level.height := 4;
     Level.walls := [];
     Level.crates :=
       [ {| Crate.position := Position.mk 2 1; Crate.color := Some red |};
         {| Crate.position := Position.mk 3 1; Crate.color := None |} ];
     Level.playerStartPosition := Position.mk 1 1;
     Level.endPositions :=
       [ {| EndPosition.position := Position.mk 4 2;
            EndPosition.color := red |} ] |}.

Definition lineStart : LevelComponent :=
  loadLevel None lineLevel newLevelComponent.

(** A level to follow the scenario level: a red crate on (0,3), a neutral
    crate on (2,1), the red goal on (3,3), the bulldozer starting on
    (0,0). *)
Definition nextLevel : Level.t :=
  {| Level.number := 2; Level.width := 4; Level.height := 4;
     Level.walls := [];
     Level.crates :=
       [ {| Crate.position := Position.mk 0 3; Crate.color := Some red |};
         {| Crate.position := Position.mk 2 1; Crate.color := None |} ];
     Level.playerStartPosition := Position.mk 0 0;
     Level.endPositions :=
       [ {| EndPosition.position := Position.mk 3 3;
            EndPosition.color := red |} ] |}.

(** * The rest of the component, its first version and the level tools *)

(** ** Sizing the canvas *)

(** [initializeLevel()], the lines that choose the cell size from the larger
    dimension of the level.  [cellSize] and the canvas signals are not
    fields of [LevelComponent] above: no rule reads them. *)
Definition cellSizeFor (lvl : Level.t) : Z :=
  let maxDimension := Z.max (Level.width lvl) (Level.height lvl) in
  if maxDimension <=? 8 then 120
  else if maxDimension >=? 17 then 30
  else 60.

(** [this.level.width * this.cellSize], the value given to [canvasWidth]. *)
Definition canvasWidthFor (lvl : Level.t) : Z :=
  Level.width lvl * cellSizeFor lvl.

(** [this.level.height * this.cellSize], the value given to
    [canvasHeight]. *)
Definition canvasHeightFor (lvl : Level.t) : Z :=
  Level.height lvl * cellSizeFor lvl.

(** ** Asking for a level and getting an answer *)

(** [loadLevel(levelNumber?)] up to the request: the level number is
    stored in the component, written to [localStorage] and asked of the
    level store as [/levels/level-<n>.json].  The number returned is the one
    written and asked for. *)
Definition loadLevelRequest (levelNumber : option Z) (s : LevelComponent)
  : LevelComponent * Z :=
  let n := match levelNumber with
           | Some n => n
           | None => currentLevelNumber s
           end in
  ({| level := level s; currentLevelNumber := n;
      bulldozerSprite := bulldozerSprite s; crateSprites := crateSprites s;
      isLevelComplete := isLevelComplete s; moveCount := moveCount s;
      lastMove := lastMove s |}, n).

(** The subscriber of the request: [next(level)] stores the level and
    initialises play, [error(error)] only logs.  [None] stands for the
    error. *)
Definition loadLevelAnswer (answer : option Level.t) (s : LevelComponent)
  : LevelComponent :=
  match answer with
  | Some received =>
      initializeLevel
        {| level := Some received; currentLevelNumber := currentLevelNumber s;
           bulldozerSprite := bulldozerSprite s;
           crateSprites := crateSprites s;
           isLevelComplete := isLevelComplete s; moveCount := moveCount s;
           lastMove := lastMove s |}
  | None => s
  end.

(** [reloadLevel()] *)
Definition reloadLevel (s : LevelComponent) : LevelComponent * Z :=
  loadLevelRequest None s.

(** [loadNextLevel()] *)
Definition loadNextLevel (s : LevelComponent) : LevelComponent * Z :=
  loadLevelRequest (Some (currentLevelNumber s + 1)) s.

(** ** Keys *)

Module KeyboardEvent.
Record t := mk { key : string; ctrlKey : bool }.
End KeyboardEvent.

(** What [handleKeyDown] leaves behind: the component, whether
    [event.preventDefault()] was called, and the level numbers asked of the
    level store, in order. *)
Record KeyHandled := mkKeyHandled {
  component : LevelComponent;
  defaultPrevented : bool;
  requested : list Z
}.

(** [key === 'ArrowUp' || ...], the test [[...].includes(event.key)]. *)
Definition isArrowKey (key : string) : bool :=
  some (String.eqb key) ["ArrowUp"; "ArrowDown"; "ArrowLeft"; "ArrowRight"].

(** [handleKeyDown(event)]: four [if]s in a row, each on the component the
    previous one left. *)
Definition handleKeyDown (event : KeyboardEvent.t) (s : LevelComponent)
  : KeyHandled :=
  let key := KeyboardEvent.key event in
  let arrow := isArrowKey key in
  let s1 := if arrow then (handleMovement key s).2 else s in
  let reload := String.eqb key "r" || String.eqb key "R" in
  let r2 := if reload then reloadLevel s1 else (s1, 0) in
  let s2 := r2.1 in
  let next := (String.eqb key "n" || String.eqb key "N")
              && isLevelComplete s2 in
  let r3 := if next then loadNextLevel s2 else (s2, 0) in
  let s3 := r3.1 in
  let undo := KeyboardEvent.ctrlKey event && String.eqb key "z" in
  let s4 := if undo then undoLastMove s3 else s3 in
  {| component := s4;
     defaultPrevented := arrow || reload || next || undo;
     requested := (if reload then [r2.2] else [])
                  ++ (if next then [r3.2] else []) |}.

(** ** The first version of the component *)

(** The earlier [level.component.ts]: no move counter, no undo record, no
    level numbers, and [handleMovement] has neither the completion gate nor
    the push attempt.  Its [checkLevelCompletion], [isWall] and sprites are
    those above; the fields it does not have are carried along untouched. *)
Module FirstVersion.
(** [handleMovement(key)] *)
Definition handleMovement (key : string) (s : LevelComponent)
  : Outcome * LevelComponent :=
  match bulldozerSprite s, level s with
  | Some bulldozer, Some lvl =>
    if BulldozerSprite.isAnimating bulldozer then (Ignored, s)
    else if some CrateSprite.isAnimating (crateSprites s) then (Ignored, s)
    else
      match keyStep key with
      | None => (Ignored, s)
      | Some (direction, deltaX, deltaY) =>
        let bulldozer := BulldozerSprite.setDirection direction bulldozer in
        let currentPos := roundPos (BulldozerSprite.position bulldozer) in
        let targetPos := Position.shift currentPos deltaX deltaY in
        let blocked := (Blocked, set_bulldozerSprite bulldozer s) in
        if outOfBounds lvl targetPos then blocked
        else if isWall lvl targetPos then blocked
        else
          match find (fun _ crate => CrateSprite.isAt targetPos crate)
                     (crateSprites s) with
          | Some (crateIndex, crateAtTarget) =>
            let crateTargetPos := Position.shift targetPos deltaX deltaY in
            if outOfBounds lvl crateTargetPos then blocked
            else if isWall lvl crateTargetPos then blocked
            else
              match find (fun j crate =>
                            negb (j =? crateIndex)%nat &&
                            CrateSprite.isAt crateTargetPos crate)
                         (crateSprites s) with
              | Some _ => blocked
              | None =>
                (Moved,
                 {| level := level s;
                    currentLevelNumber := currentLevelNumber s;
                    bulldozerSprite :=
                      Some (BulldozerSprite.startMoveTo targetPos bulldozer);
                    crateSprites :=
                      <[crateIndex :=
                          CrateSprite.startMoveTo crateTargetPos crateAtTarget]>
                        (crateSprites s);
                    isLevelComplete := isLevelComplete s;
                    moveCount := moveCount s;
                    lastMove := lastMove s |})
              end
          | None =>
            (Moved,
             {| level := level s;
                currentLevelNumber := currentLevelNumber s;
                bulldozerSprite :=
                  Some (BulldozerSprite.startMoveTo targetPos bulldozer);
                crateSprites := crateSprites s;
                isLevelComplete := isLevelComplete s;
                moveCount := moveCount s;
                lastMove := lastMove s |})
          end
      end
  | _, _ => (Ignored, s)
  end.
End FirstVersion.

(** ** The random source of the scripts *)

(** [Math.floor(Math.random() * n)]: the [k]-th such call of a run of a
    script returns [rnd k n]. *)
Definition Random : Type := nat -> Z -> Z.

(** [Math.random()] is at least 0 and below 1. *)
Definition fair (rnd : Random) : Prop :=
  forall k n, 0 < n -> 0 <= rnd k n < n.

(** A script that draws random numbers: it is run from the number of the
    next random call and returns its result and the number of the random
    call after it, or [None] when a loop has not ended within its fuel. *)
Module Gen.
Definition t (A : Type) : Type := nat -> option (A * nat).

Definition ret {A} (a : A) : t A := fun k => Some (a, k).

Definition bind {A B} (m : t A) (f : A -> t B) : t B :=
  fun k =>
    match m k with
    | Some (a, k') => f a k'
    | None => None
    end.

(** [Math.floor(Math.random() * n)] *)
Definition random (rnd : Random) (n : Z) : t Z :=
  fun k => Some (rnd k n, S k).

(** Out of fuel. *)
Definition loops {A} : t A := fun _ => None.
End Gen.

Notation "x <~ m ; k" := (Gen.bind m (fun x => k))
  (at level 20, m at level 100, k at level 200, only parsing).

(** [[...new Set(l)]]: the values of [l] without repetition, in the order of
    their first occurrence. *)
Definition setOf (l : list string) : list string :=
  foldl (fun seen c =>
           if bool_decide (c ∈ seen) then seen else (seen ++ [c])%list)
        [] l.

(** [[a[i], a[j]] = [a[j], a[i]]] for indices inside the array. *)
Definition swap {A} (i j : nat) (a : list A) : list A :=
  match a !! i, a !! j with
  | Some ai, Some aj => <[j := ai]> (<[i := aj]> a)
  | _, _ => a
  end.

(** [for (const a of l) { const r = f(a); if (r) return r; }] *)
Fixpoint firstOf {A B} (f : A -> option B) (l : list A) : option B :=
  match l with
  | [] => None
  | a :: l' =>
      match f a with
      | Some b => Some b
      | None => firstOf f l'
      end
  end.

(** ** The script that repairs level files *)

Module FixLevels.
(** [isWall(x, y, walls)] *)
Definition isWall (x y : Z) (walls : list Position.t) : bool :=
  some (fun w => (Position.x w =? x) && (Position.y w =? y)) walls.

(** [isCrateStuck(cratePos, walls, width, height)] *)
Definition isCrateStuck (cratePos : Position.t) (walls : list Position.t)
    (width height : Z) : bool :=
  let x := Position.x cratePos in
  let y := Position.y cratePos in
  let hasWallLeft := (x =? 0) || isWall (x - 1) y walls in
  let hasWallRight := (x =? width - 1) || isWall (x + 1) y walls in
  let hasWallUp := (y =? 0) || isWall x (y - 1) walls in
  let hasWallDown := (y =? height - 1) || isWall x (y + 1) walls in
  if (hasWallLeft || hasWallRight) && (hasWallUp || hasWallDown) then
    if (hasWallLeft && hasWallUp) || (hasWallLeft && hasWallDown) ||
       (hasWallRight && hasWallUp) || (hasWallRight && hasWallDown)
    then true
    else false
  else false.

(** The attempts of [findSafePosition] from attempt number [attempt] on,
    [remaining] of them left; [k] is the number of the first random call
    of the function. *)
Fixpoint findSafePosition_attempts (rnd : Random) (k : nat)
    (remaining attempt : nat) (width height : Z) (walls : list Position.t)
    (occupiedPositions : list Position.t) (minDistFromWall : Z)
  : option Position.t :=
  match remaining with
  | O => None
  | S remaining' =>
    let continue :=
      findSafePosition_attempts rnd k remaining' (S attempt) width height
        walls occupiedPositions minDistFromWall in
    let x := minDistFromWall
             + rnd (k + 2 * attempt)%nat (width - 2 * minDistFromWall) in
    let y := minDistFromWall
             + rnd (k + 2 * attempt + 1)%nat (height - 2 * minDistFromWall) in
    if isWall x y walls then continue
    else if some (fun p => (Position.x p =? x) && (Position.y p =? y))
                 occupiedPositions then continue
    else if isCrateStuck (Position.mk x y) walls width height then continue
    else Some (Position.mk x y)
  end.

(** The fallback of [findSafePosition]: the two nested [for] loops. *)
Definition findSafePosition_fallback (width height : Z)
    (walls : list Position.t) (occupiedPositions : list Position.t)
  : option Position.t :=
  firstOf (fun y =>
    firstOf (fun x =>
      if negb (isWall x y walls) &&
         negb (some (fun p => (Position.x p =? x) && (Position.y p =? y))
                    occupiedPositions) &&
         negb (isCrateStuck (Position.mk x y) walls width height)
      then Some (Position.mk x y)
      else None)
      (seqZ 2 (width - 4)))
    (seqZ 2 (height - 4)).

(** [findSafePosition(width, height, walls, occupiedPositions,
    minDistFromWall = 2)]; [None] is [null]. *)
Definition findSafePosition (rnd : Random) (k : nat) (width height : Z)
    (walls : list Position.t) (occupiedPositions : list Position.t)
    (minDistFromWall : Z) : option Position.t :=
  let maxAttempts := 100%nat in
  match findSafePosition_attempts rnd k maxAttempts 0 width height walls
          occupiedPositions minDistFromWall with
  | Some p => Some p
  | None => findSafePosition_fallback width height walls occupiedPositions
  end.
End FixLevels.

(** What the three tests of [findSafePosition] leave: a cell that is no
    wall, not occupied and not stuck. *)
Definition safeCell (width height : Z) (walls occupied : list Position.t)
    (p : Position.t) : Prop :=
  (p ∉ walls) /\ (p ∉ occupied) /\
  FixLevels.isCrateStuck p walls width height = false.

(** ** The script that generates level files *)

Module GenerateLevels.
(** [createPerimeterWalls(width, height)]: the two [for] loops, in their
    order of [push]. *)
Definition createPerimeterWalls (width height : Z) : list Position.t :=
  flat_map (fun x => [Position.mk x 0; Position.mk x (height - 1)])
           (seqZ 0 width)
  ++ flat_map (fun y => [Position.mk 0 y; Position.mk (width - 1) y])
              (seqZ 1 (height - 2)).

(** The palette [colors]. *)
Definition colors : list string :=
  ["#FF0000"; "#00FF00"; "#0000FF"; "#FFFF00"; "#FF00FF"; "#00FFFF";
   "#FFA500"; "#800080"].

(** [colors[i]].  Every index the script uses is inside the palette: it is
    below [numColors], which is at most 8. *)
Definition colorAt (i : Z) : string := nth (Z.to_nat i) colors "".

(** [isOccupied(x, y, walls, crates, player, endPos)] *)
Definition isOccupied (x y : Z) (walls : list Position.t)
    (crates : list Crate.t) (player : Position.t)
    (endPos : list EndPosition.t) : bool :=
  if some (fun w => (Position.x w =? x) && (Position.y w =? y)) walls
  then true
  else if some (fun c => (Position.x (Crate.position c) =? x)
                         && (Position.y (Crate.position c) =? y)) crates
  then true
  else if (Position.x player =? x) && (Position.y player =? y) then true
  else if some (fun e => (Position.x (EndPosition.position e) =? x)
                         && (Position.y (EndPosition.position e) =? y)) endPos
  then true
  else false.

(** What the script chooses for a level before it places anything. *)
Record Parameters := mkParameters {
  width : Z;
  height : Z;
  numCrates : Z;
  numColors : Z;
  hasObstacles : bool
}.

(** The progressive difficulty and the minimum playable area.
    [Math.floor(a / b)] is [a / b] and [a % b] is [Z.rem a b]. *)
Definition parameters (rnd : Random) (levelNum : Z) : Gen.t Parameters :=
  q <~ (if levelNum <=? 10 then
          Gen.ret (6 + levelNum / 3, 6 + levelNum / 3, 1 + levelNum / 6,
                   1 + levelNum / 6, levelNum >? 5)
        else if levelNum <=? 30 then
          Gen.ret (8 + (levelNum - 10) / 3, 8 + (levelNum - 10) / 3,
                   2 + (levelNum - 10) / 5, 2 + (levelNum - 10) / 8, true)
        else if levelNum <=? 60 then
          Gen.ret (12 + (levelNum - 30) / 5, 12 + (levelNum - 30) / 5,
                   4 + (levelNum - 30) / 6, 3 + (levelNum - 30) / 10, true)
        else if levelNum <=? 80 then
          whc <~ (if Z.rem levelNum 3 =? 0 then
                    rw <~ Gen.random rnd 3;
                    rh <~ Gen.random rnd 3;
                    rc <~ Gen.random rnd 3;
                    Gen.ret (7 + rw, 7 + rh, 4 + rc)
                  else
                    Gen.ret (14 + (levelNum - 60) / 4,
                             14 + (levelNum - 60) / 4,
                             5 + (levelNum - 60) / 5));
          Gen.ret (whc.1.1, whc.1.2, whc.2, 4 + (levelNum - 60) / 8, true)
        else
          whc <~ (if Z.rem levelNum 2 =? 0 then
                    rw <~ Gen.random rnd 4;
                    rh <~ Gen.random rnd 4;
                    rc <~ Gen.random rnd 4;
                    Gen.ret (8 + rw, 8 + rh, 5 + rc)
                  else
                    Gen.ret (16 + (levelNum - 80) / 3,
                             16 + (levelNum - 80) / 3,
                             6 + (levelNum - 80) / 4));
          Gen.ret (whc.1.1, whc.1.2, whc.2,
                   Z.min (5 + (levelNum - 80) / 5) 8, true));
  let '(width, height, numCrates, numColors, hasObstacles) := q in
  let width := Z.max 6 (Z.min width 24) in
  let height := Z.max 6 (Z.min height 24) in
  let numCrates := Z.min numCrates ((width - 2) * (height - 2) / 8) in
  let numColors := Z.min (Z.min numColors numCrates) 8 in
  Gen.ret {| width := width; height := height; numCrates := numCrates;
             numColors := numColors; hasObstacles := hasObstacles |}.

(** [for (let d = 0; d < 2 + Math.floor(Math.random() * 3); d++)
    if (test(d)) walls.push(cell(d))], from [d] on: the bound is drawn anew
    before every round. *)
Fixpoint segment (rnd : Random) (fuel : nat) (test : Z -> bool)
    (cell : Z -> Position.t) (d : Z) (walls : list Position.t)
  : Gen.t (list Position.t) :=
  match fuel with
  | O => Gen.loops
  | S fuel' =>
      r <~ Gen.random rnd 3;
      if d <? 2 + r
      then segment rnd fuel' test cell (d + 1)
             (if test d then (walls ++ [cell d])%list else walls)
      else Gen.ret walls
  end.

(** The body of the loop over the obstacles. *)
Definition obstacle (rnd : Random) (fuel : nat) (width height : Z)
    (walls : list Position.t) : Gen.t (list Position.t) :=
  obsType <~ Gen.random rnd 3;
  rx <~ Gen.random rnd (width - 4);
  ry <~ Gen.random rnd (height - 4);
  let cx := 2 + rx in
  let cy := 2 + ry in
  if obsType =? 0 then
    segment rnd fuel (fun dy => cy + dy <? height - 1)
            (fun dy => Position.mk cx (cy + dy)) 0 walls
  else if obsType =? 1 then
    segment rnd fuel (fun dx => cx + dx <? width - 1)
            (fun dx => Position.mk (cx + dx) cy) 0 walls
  else Gen.ret (walls ++ [Position.mk cx cy])%list.

(** [for (let i = 0; i < numObstacles; i++)], [remaining] rounds left. *)
Fixpoint obstacles (rnd : Random) (fuel : nat) (width height : Z)
    (remaining : nat) (walls : list Position.t) : Gen.t (list Position.t) :=
  match remaining with
  | O => Gen.ret walls
  | S remaining' =>
      walls <~ obstacle rnd fuel width height walls;
      obstacles rnd fuel width height remaining' walls
  end.

(** [do { x = 1 + Math.floor(Math.random() * (width - 2));
          y = 1 + Math.floor(Math.random() * (height - 2)); }
    while (isOccupied(x, y, ...))] *)
Fixpoint place (rnd : Random) (fuel : nat) (width height : Z)
    (occupied : Z -> Z -> bool) : Gen.t Position.t :=
  match fuel with
  | O => Gen.loops
  | S fuel' =>
      rx <~ Gen.random rnd (width - 2);
      ry <~ Gen.random rnd (height - 2);
      let x := 1 + rx in
      let y := 1 + ry in
      if occupied x y then place rnd fuel' width height occupied
      else Gen.ret (Position.mk x y)
  end.

(** [levelNum % 7 === 0 && numCrates >= 3] *)
Definition sameColor (levelNum numCrates : Z) : bool :=
  (Z.rem levelNum 7 =? 0) && (numCrates >=? 3).

(** The colors of the crates before they are shuffled; [None] is [null].
    [Math.floor(numCrates * 0.2)] is [numCrates / 5]. *)
Definition chooseColors (rnd : Random) (levelNum numCrates numColors : Z)
  : Gen.t (list (option string)) :=
  if sameColor levelNum numCrates then
    i <~ Gen.random rnd (Z.min numColors (Z.of_nat (length colors)));
    let color := colorAt i in
    Gen.ret (replicate (Z.to_nat numCrates) (Some color))
  else
    let numNeutral := numCrates / 5 in
    Gen.ret (((fun i => Some (colorAt (Z.rem i numColors)))
                <$> seqZ 0 (numCrates - numNeutral))
             ++ replicate (Z.to_nat numNeutral) None)%list.

(** [for (let i = ...; i > 0; i--) { const j = Math.floor(Math.random() *
    (i + 1)); [a[i], a[j]] = [a[j], a[i]]; }] from [i] down. *)
Fixpoint shuffleFrom {A} (rnd : Random) (i : nat) (a : list A)
  : Gen.t (list A) :=
  match i with
  | O => Gen.ret a
  | S i' =>
      j <~ Gen.random rnd (Z.of_nat i + 1);
      shuffleFrom rnd i' (swap i (Z.to_nat j) a)
  end.

Definition shuffle {A} (rnd : Random) (a : list A) : Gen.t (list A) :=
  shuffleFrom rnd (length a - 1) a.

(** The loop that places the crates, from the crate with the first of
    [crateColors] on.  [crateColors] has [numCrates] entries, one for each
    round of the loop. *)
Fixpoint placeCrates (rnd : Random) (fuel : nat) (width height : Z)
    (walls : list Position.t) (playerStart : Position.t)
    (crateColors : list (option string)) (crates : list Crate.t)
  : Gen.t (list Crate.t) :=
  match crateColors with
  | [] => Gen.ret crates
  | color :: crateColors' =>
      p <~ place rnd fuel width height
             (fun x y => isOccupied x y walls crates playerStart []);
      placeCrates rnd fuel width height walls playerStart crateColors'
        (crates ++ [ {| Crate.position := p; Crate.color := color |} ])%list
  end.

(** [for (const color of uniqueColors)] *)
Fixpoint placeEndPositions (rnd : Random) (fuel : nat) (width height : Z)
    (walls : list Position.t) (crates : list Crate.t)
    (playerStart : Position.t) (uniqueColors : list string)
    (endPositions : list EndPosition.t) : Gen.t (list EndPosition.t) :=
  match uniqueColors with
  | [] => Gen.ret endPositions
  | color :: uniqueColors' =>
      p <~ place rnd fuel width height
             (fun x y => isOccupied x y walls crates playerStart endPositions);
      placeEndPositions rnd fuel width height walls crates playerStart
        uniqueColors'
        (endPositions
           ++ [ {| EndPosition.position := p;
                   EndPosition.color := color |} ])%list
  end.

(** One round of the loop over the level numbers: the level written to
    [level-<levelNum>.json]. *)
Definition generateLevel (rnd : Random) (fuel : nat) (levelNum : Z)
  : Gen.t Level.t :=
  p <~ parameters rnd levelNum;
  walls <~ (if hasObstacles p then
              r <~ Gen.random rnd 3;
              let numObstacles := levelNum / 15 + r in
              obstacles rnd fuel (width p) (height p)
                (Z.to_nat numObstacles)
                (createPerimeterWalls (width p) (height p))
            else Gen.ret (createPerimeterWalls (width p) (height p)));
  playerStart <~ place rnd fuel (width p) (height p)
                   (fun x y => isOccupied x y walls []
                                 (Position.mk (-1) (-1)) []);
  crateColors <~ chooseColors rnd levelNum (numCrates p) (numColors p);
  crateColors <~ shuffle rnd crateColors;
  crates <~ placeCrates rnd fuel (width p) (height p) walls playerStart
              crateColors [];
  let coloredCrates := omap id crateColors in
  let uniqueColors := setOf coloredCrates in
  endPositions <~ placeEndPositions rnd fuel (width p) (height p) walls
                    crates playerStart uniqueColors [];
  Gen.ret {| Level.number := levelNum;
             Level.width := width p; Level.height := height p;
             Level.walls := walls; Level.crates := crates;
             Level.playerStartPosition := playerStart;
             Level.endPositions := endPositions |}.
End GenerateLevels.

(** A source of numbers for examples: a linear congruential generator. *)
Definition lcg : Random :=
  fun k n => ((Z.of_nat k * 1103515245 + 12345) / 65536) mod n.

(** A cell inside the perimeter of a field. *)
Definition innerCell (width height : Z) (p : Position.t) : Prop :=
  1 <= Position.x p <= width - 2 /\ 1 <= Position.y p <= height - 2.

(** The colors of the colored crates as [chooseColors] lists them. *)
Definition chosenColors (rnd : Random) (levelNum numCrates numColors : Z)
    (k : nat) : list string :=
  if GenerateLevels.sameColor levelNum numCrates
  then replicate (Z.to_nat numCrates)
         (GenerateLevels.colorAt
            (rnd k (Z.min numColors
                          (Z.of_nat (length GenerateLevels.colors)))))
  else (fun i => GenerateLevels.colorAt (Z.rem i numColors))
         <$> seqZ 0 (numCrates - numCrates / 5).

(** ** Where the sprites are *)

(** The cell the bulldozer is on, and the cell it is on once its running
    move, if any, has completed. *)
Definition bulldozerCell (b : BulldozerSprite.t) : Position.t :=
  roundPos (BulldozerSprite.position b).

Definition bulldozerRestCell (b : BulldozerSprite.t) : Position.t :=
  bulldozerCell (BulldozerSprite.update b).

(** A cell of the field that is no wall. *)
Definition floorCell (lvl : Level.t) (p : Position.t) : Prop :=
  inBounds lvl p /\ p ∉ Level.walls lvl.

(** Every sprite stands on a cell with property [P], now and when its move
    has completed, and so does every position of the undo record. *)
Definition spritesOn (P : Position.t -> Prop) (s : LevelComponent) : Prop :=
  (forall b, bulldozerSprite s = Some b ->
             P (bulldozerCell b) /\ P (bulldozerRestCell b)) /\
  (forall i c, crateSprites s !! i = Some c ->
               P (CrateSprite.cell c) /\ P (restCell c)) /\
  (forall last, lastMove s = Some last ->
     P (LastMove.bulldozerPos last) /\
     forall p, LastMove.cratePos last = Some p -> P p).

(** The undo record that the component holds, if it holds one, names only
    cells with property [P]. *)
Definition recordOn (P : Position.t -> Prop) (s : LevelComponent) : Prop :=
  forall last, lastMove s = Some last ->
    P (LastMove.bulldozerPos last) /\
    forall p, LastMove.cratePos last = Some p -> P p.

(** No crate is on the bulldozer's cell, now or when the running moves have
    completed, and an undo would not put the two on one cell either. *)
Definition apart (s : LevelComponent) : Prop :=
  (forall b i c, bulldozerSprite s = Some b -> crateSprites s !! i = Some c ->
     CrateSprite.cell c <> bulldozerCell b /\
     restCell c <> bulldozerRestCell b) /\
  (forall last, lastMove s = Some last ->
     (forall p, LastMove.cratePos last = Some p ->
                p <> LastMove.bulldozerPos last) /\
     (forall j c, crateSprites s !! j = Some c ->
        (LastMove.crateIndex last = Some j /\
         is_Some (LastMove.cratePos last)) \/
        (CrateSprite.cell c <> LastMove.bulldozerPos last /\
         restCell c <> LastMove.bulldozerPos last))).

(** The number of key presses among the events. *)
Definition keyPresses (events : list Event) : Z :=
  Z.of_nat (length (List.filter
                      (fun e => match e with KeyDown _ => true | _ => false end)
                      events)).

(** The order in which [validateLevel] visits the positions: the player
    start, the walls, the crates, the end positions, each list by index. *)
Definition visitedBefore (a b : PositionName) : Prop :=
  match a, b with
  | PlayerStart, PlayerStart => False
  | PlayerStart, _ => True
  | WallAt i, WallAt j => (i < j)%nat
  | WallAt _, (CrateAt _ | EndPositionAt _) => True
  | CrateAt i, CrateAt j => (i < j)%nat
  | CrateAt _, EndPositionAt _ => True
  | EndPositionAt i, EndPositionAt j => (i < j)%nat
  | _, _ => False
  end.

(** A crate in the corner (3,0) of a field without walls, the bulldozer
    next to it on (2,0). *)
Definition cornerLevel : Level.t :=
  {| Level.number := 3; Level.width := 4; Level.height := 3;
     Level.walls := [];
     Level.crates :=
       [ {| Crate.position := Position.mk 3 0; Crate.color := Some red |} ];
     Level.playerStartPosition := Position.mk 2 0;
     Level.endPositions :=
       [ {| EndPosition.position := Position.mk 1 1;
            EndPosition.color := red |} ] |}.

(** * Properties *)

(** ** Reading the boolean tests *)

Lemma Position_eqb_eq (a b : Position.t) : Position.eqb a b = true <-> a = b.
Proof.
  destruct a as [ax ay], b as [bx by']. unfold Position.eqb. simpl.
  rewrite andb_true_iff, !Z.eqb_eq. split.
  - intros [-> ->]. reflexivity.
  - intros [= -> ->]. split; reflexivity.
Qed.

Lemma Position_eqb_neq (a b : Position.t) : Position.eqb a b = false <-> a <> b.
Proof.
  rewrite <- Position_eqb_eq. destruct (Position.eqb a b); split; congruence.
Qed.

Lemma roundPos_id (p : Position.t) : roundPos p = p.
Proof. destruct p. reflexivity. Qed.

Lemma isAt_true (p : Position.t) (c : CrateSprite.t) :
  CrateSprite.isAt p c = true <-> CrateSprite.cell c = p.
Proof. apply Position_eqb_eq. Qed.

Lemma isAt_false (p : Position.t) (c : CrateSprite.t) :
  CrateSprite.isAt p c = false <-> CrateSprite.cell c <> p.
Proof. apply Position_eqb_neq. Qed.

Lemma outOfBounds_false (lvl : Level.t) (p : Position.t) :
  outOfBounds lvl p = false <-> inBounds lvl p.
Proof.
  unfold outOfBounds, inBounds.
  rewrite !orb_false_iff, !Z.ltb_ge, !Z.geb_leb, !Z.leb_gt. lia.
Qed.

Lemma outOfBounds_true (lvl : Level.t) (p : Position.t) :
  outOfBounds lvl p = true <-> ~ inBounds lvl p.
Proof.
  rewrite <- outOfBounds_false. destruct (outOfBounds lvl p); split; congruence.
Qed.

Lemma isWall_true (lvl : Level.t) (p : Position.t) :
  isWall lvl p = true <-> p ∈ Level.walls lvl.
Proof.
  unfold isWall, some. rewrite existsb_exists. split.
  - intros (w & Hin & Heq). apply Position_eqb_eq in Heq. subst.
    by apply list_elem_of_In.
  - intros Hin. exists p. split; [by apply list_elem_of_In|].
    by apply Position_eqb_eq.
Qed.

Lemma isWall_false (lvl : Level.t) (p : Position.t) :
  isWall lvl p = false <-> p ∉ Level.walls lvl.
Proof.
  rewrite <- isWall_true. destruct (isWall lvl p); split; congruence.
Qed.

Lemma some_false {A} (p : A -> bool) (l : list A) :
  some p l = false <-> forall a, a ∈ l -> p a = false.
Proof.
  unfold some. induction l as [|a l IH]; simpl.
  - split; [intros _ a Ha; inversion Ha | done].
  - rewrite orb_false_iff, IH. split.
    + intros [Ha Hl] b Hb. inversion Hb; subst; auto.
    + intros H. split; [apply H; left | intros b Hb; apply H; by right].
Qed.

(** ** [find] returns the first match *)

Lemma findFrom_Some {A} (p : nat -> A -> bool) (l : list A) (k i : nat) (a : A) :
  findFrom p k l = Some (i, a) <->
  exists n, i = (k + n)%nat /\ l !! n = Some a /\ p i a = true /\
            forall m b, (m < n)%nat -> l !! m = Some b -> p (k + m)%nat b = false.
Proof.
  revert k. induction l as [|h l IH]; intros k; simpl.
  - split; [done | intros (n & _ & Hn & _); done].
  - destruct (p k h) eqn:Hp.
    + split.
      * intros [= <- <-]. exists 0%nat. rewrite Nat.add_0_r.
        repeat split; [done..|]. intros m b Hm. lia.
      * intros (n & -> & Hn & Hpi & Hfirst). destruct n as [|n].
        -- rewrite Nat.add_0_r. simpl in Hn. congruence.
        -- specialize (Hfirst 0%nat h ltac:(lia) eq_refl).
           rewrite Nat.add_0_r in Hfirst. congruence.
    + rewrite IH. split.
      * intros (n & -> & Hn & Hpi & Hfirst). exists (S n).
        replace (k + S n)%nat with (S k + n)%nat by lia.
        repeat split; [done..|]. intros [|m] b Hm Hb.
        -- simpl in Hb. rewrite Nat.add_0_r. congruence.
        -- replace (k + S m)%nat with (S k + m)%nat by lia.
           apply Hfirst; [lia | done].
      * intros (n & -> & Hn & Hpi & Hfirst). destruct n as [|n].
        -- simpl in Hn. rewrite Nat.add_0_r in Hpi. congruence.
        -- exists n. replace (S k + n)%nat with (k + S n)%nat by lia.
           repeat split; [done..|]. intros m b Hm Hb.
           replace (S k + m)%nat with (k + S m)%nat by lia.
           apply Hfirst; [lia | done].
Qed.

Lemma findFrom_None {A} (p : nat -> A -> bool) (l : list A) (k : nat) :
  findFrom p k l = None <->
  forall m b, l !! m = Some b -> p (k + m)%nat b = false.
Proof.
  revert k. induction l as [|h l IH]; intros k; simpl.
  - split; [intros _ m b Hm; done | done].
  - destruct (p k h) eqn:Hp.
    + split; [done|]. intros H. specialize (H 0%nat h eq_refl).
      rewrite Nat.add_0_r in H. congruence.
    + rewrite IH. split.
      * intros H [|m] b Hb.
        -- simpl in Hb. rewrite Nat.add_0_r. congruence.
        -- replace (k + S m)%nat with (S k + m)%nat by lia. by apply H.
      * intros H m b Hb.
        replace (S k + m)%nat with (k + S m)%nat by lia. by apply H.
Qed.

Lemma find_Some {A} (p : nat -> A -> bool) (l : list A) (i : nat) (a : A) :
  find p l = Some (i, a) <->
  l !! i = Some a /\ p i a = true /\
  forall j b, (j < i)%nat -> l !! j = Some b -> p j b = false.
Proof.
  unfold find. rewrite findFrom_Some. split.
  - intros (n & -> & H). exact H.
  - intros H. exists i. split; [done | exact H].
Qed.

Lemma find_None {A} (p : nat -> A -> bool) (l : list A) :
  find p l = None <-> forall j b, l !! j = Some b -> p j b = false.
Proof. unfold find. apply findFrom_None. Qed.

Lemma find_isAt_Some (crates : list CrateSprite.t) (p : Position.t)
    (i : nat) (c : CrateSprite.t) :
  find (fun _ crate => CrateSprite.isAt p crate) crates = Some (i, c) <->
  firstAt crates p i c.
Proof.
  rewrite find_Some. unfold firstAt. rewrite isAt_true.
  split; intros (H1 & H2 & H3); repeat split; try done.
  - intros j c' Hj Hc'. apply isAt_false. eauto.
  - intros j c' Hj Hc'. apply isAt_false. eauto.
Qed.

Lemma find_isAt_None (crates : list CrateSprite.t) (p : Position.t) :
  find (fun _ crate => CrateSprite.isAt p crate) crates = None <->
  forall j c, crates !! j = Some c -> CrateSprite.cell c <> p.
Proof.
  rewrite find_None. split; intros H j c Hc; apply isAt_false; eauto.
Qed.

Lemma find_other_None (crates : list CrateSprite.t) (i : nat) (p : Position.t) :
  find (fun j crate => negb (j =? i)%nat && CrateSprite.isAt p crate) crates
    = None <->
  ~ otherCrateAt crates i p.
Proof.
  rewrite find_None. unfold otherCrateAt. split.
  - intros H (j & c & Hne & Hc & Hp). specialize (H j c Hc).
    apply Nat.eqb_neq in Hne. rewrite Hne in H. simpl in H.
    apply isAt_false in H. done.
  - intros H j c Hc. destruct (Nat.eqb_spec j i) as [->|Hne]; [done|].
    simpl. apply isAt_false. intros Hp. apply H. by exists j, c.
Qed.

Lemma find_other_Some (crates : list CrateSprite.t) (i : nat) (p : Position.t) :
  is_Some (find (fun j crate => negb (j =? i)%nat && CrateSprite.isAt p crate)
             crates) <->
  otherCrateAt crates i p.
Proof.
  split.
  - intros [[j c] H]. apply find_Some in H as (Hc & Hp & _).
    apply andb_true_iff in Hp as [Hne Hp]. apply negb_true_iff in Hne.
    apply Nat.eqb_neq in Hne. apply isAt_true in Hp. by exists j, c.
  - intros H. destruct (find _ crates) as [r|] eqn:E; [by eexists|].
    apply find_other_None in E. done.
Qed.

(** ** Moves *)

Lemma settled_crates (s : LevelComponent) :
  settled s -> some CrateSprite.isAnimating (crateSprites s) = false.
Proof.
  intros [_ H]. apply some_false. intros c Hc.
  rewrite Forall_forall in H. by apply H.
Qed.

Lemma settled_crate (s : LevelComponent) (i : nat) (c : CrateSprite.t) :
  settled s -> crateSprites s !! i = Some c -> CrateSprite.isMoving c = false.
Proof.
  intros [_ H] Hc. rewrite Forall_forall in H. apply H.
  by eapply list_elem_of_lookup_2.
Qed.

Ltac open_gates Hlvl Hb Hdone Hset Hkey :=
  unfold handleMovement;
  rewrite Hb, Hlvl, Hdone;
  let Hm := fresh "Hidle" in
  pose proof Hset as [Hm _]; rewrite Hb in Hm; simpl in Hm;
  unfold BulldozerSprite.isAnimating; rewrite Hm;
  rewrite (settled_crates _ Hset), Hkey;
  cbn [BulldozerSprite.setDirection BulldozerSprite.position
       BulldozerSprite.getDirection BulldozerSprite.direction
       BulldozerSprite.startPushAttempt].

Lemma handleMovement_blocked (key : string) (s : LevelComponent)
    (lvl : Level.t) (b : BulldozerSprite.t) (d : Direction) (dx dy : Z) :
  level s = Some lvl -> bulldozerSprite s = Some b ->
  isLevelComplete s = false -> settled s ->
  keyStep key = Some (d, dx, dy) ->
  moveBlocked lvl (crateSprites s) b dx dy ->
  handleMovement key s = (Blocked, turned d b s).
Proof.
  intros Hlvl Hb Hdone Hset Hkey Hblocked.
  open_gates Hlvl Hb Hdone Hset Hkey.
  fold (targetOf b dx dy). fold (crateTargetOf b dx dy).
  destruct (outOfBounds lvl (targetOf b dx dy)) eqn:Hout; [done|].
  destruct (isWall lvl (targetOf b dx dy)) eqn:Hwall; [done|].
  apply outOfBounds_false in Hout. apply isWall_false in Hwall.
  destruct Hblocked as [H|[H|(i & c & Hfirst & H)]]; [done..|].
  apply find_isAt_Some in Hfirst. rewrite Hfirst.
  destruct (outOfBounds lvl (crateTargetOf b dx dy)) eqn:Hout'; [done|].
  destruct (isWall lvl (crateTargetOf b dx dy)) eqn:Hwall'; [done|].
  apply outOfBounds_false in Hout'. apply isWall_false in Hwall'.
  destruct H as [H|[H|H]]; [done..|].
  apply find_other_Some in H as [r ->]. done.
Qed.

Lemma handleMovement_free (key : string) (s : LevelComponent)
    (lvl : Level.t) (b : BulldozerSprite.t) (d : Direction) (dx dy : Z) :
  level s = Some lvl -> bulldozerSprite s = Some b ->
  isLevelComplete s = false -> settled s ->
  keyStep key = Some (d, dx, dy) ->
  inBounds lvl (targetOf b dx dy) ->
  targetOf b dx dy ∉ Level.walls lvl ->
  (forall j c, crateSprites s !! j = Some c ->
               CrateSprite.cell c <> targetOf b dx dy) ->
  handleMovement key s =
    (Moved, moving d b dx dy (crateSprites s) None None s).
Proof.
  intros Hlvl Hb Hdone Hset Hkey Hin Hwall Hfree.
  open_gates Hlvl Hb Hdone Hset Hkey.
  fold (targetOf b dx dy).
  apply outOfBounds_false in Hin. apply isWall_false in Hwall.
  apply find_isAt_None in Hfree. rewrite Hin, Hwall, Hfree.
  unfold moving. rewrite Hlvl, Hdone. done.
Qed.

Lemma handleMovement_push (key : string) (s : LevelComponent)
    (lvl : Level.t) (b : BulldozerSprite.t) (d : Direction) (dx dy : Z)
    (i : nat) (c : CrateSprite.t) :
  level s = Some lvl -> bulldozerSprite s = Some b ->
  isLevelComplete s = false -> settled s ->
  keyStep key = Some (d, dx, dy) ->
  inBounds lvl (targetOf b dx dy) ->
  targetOf b dx dy ∉ Level.walls lvl ->
  firstAt (crateSprites s) (targetOf b dx dy) i c ->
  inBounds lvl (crateTargetOf b dx dy) ->
  crateTargetOf b dx dy ∉ Level.walls lvl ->
  ~ otherCrateAt (crateSprites s) i (crateTargetOf b dx dy) ->
  handleMovement key s =
    (Moved,
     moving d b dx dy
       (<[i := CrateSprite.startMoveTo (crateTargetOf b dx dy) c]>
          (crateSprites s))
       (Some (CrateSprite.cell c)) (Some i) s).
Proof.
  intros Hlvl Hb Hdone Hset Hkey Hin Hwall Hfirst Hin' Hwall' Hother.
  open_gates Hlvl Hb Hdone Hset Hkey.
  fold (targetOf b dx dy). fold (crateTargetOf b dx dy).
  apply outOfBounds_false in Hin, Hin'. apply isWall_false in Hwall, Hwall'.
  apply find_isAt_Some in Hfirst. apply find_other_None in Hother.
  rewrite Hin, Hwall, Hfirst, Hin', Hwall', Hother.
  unfold moving. rewrite Hlvl, Hdone. done.
Qed.

Lemma handleMovement_resolved (key : string) (s : LevelComponent) :
  Resolved key s (handleMovement key s).1 (handleMovement key s).2.
Proof.
  destruct (bulldozerSprite s) as [b|] eqn:Hb;
    [|unfold handleMovement; rewrite Hb; constructor].
  destruct (level s) as [lvl|] eqn:Hlvl;
    [|unfold handleMovement; rewrite Hb, Hlvl; constructor].
  destruct (isLevelComplete s) eqn:Hdone;
    [unfold handleMovement; rewrite Hb, Hlvl, Hdone; constructor|].
  destruct (BulldozerSprite.isAnimating b) eqn:Hidle;
    [unfold handleMovement; rewrite Hb, Hlvl, Hdone, Hidle; constructor|].
  destruct (some CrateSprite.isAnimating (crateSprites s)) eqn:Hcrates;
    [unfold handleMovement; rewrite Hb, Hlvl, Hdone, Hidle, Hcrates;
     constructor|].
  destruct (keyStep key) as [[[d dx] dy]|] eqn:Hkey;
    [|unfold handleMovement; rewrite Hb, Hlvl, Hdone, Hidle, Hcrates, Hkey;
      constructor].
  assert (Hset : settled s).
  { split; [by rewrite Hb|]. apply Forall_forall. intros c Hc.
    rewrite some_false in Hcrates. by apply Hcrates. }
  assert (Hacc : accepts s lvl b) by done.
  destruct (outOfBounds lvl (targetOf b dx dy)) eqn:Hout.
  { apply outOfBounds_true in Hout.
    rewrite (handleMovement_blocked key s lvl b d dx dy); try done.
    - by eapply ResBlocked; [..|left].
    - by left. }
  destruct (isWall lvl (targetOf b dx dy)) eqn:Hwall.
  { apply isWall_true in Hwall.
    rewrite (handleMovement_blocked key s lvl b d dx dy); try done.
    - by eapply ResBlocked; [..|right; left].
    - by right; left. }
  apply outOfBounds_false in Hout. apply isWall_false in Hwall.
  destruct (find (fun _ crate => CrateSprite.isAt (targetOf b dx dy) crate)
              (crateSprites s)) as [[i c]|] eqn:Hfind.
  2:{ rewrite find_isAt_None in Hfind.
      rewrite (handleMovement_free key s lvl b d dx dy); try done.
      by eapply ResFree. }
  apply find_isAt_Some in Hfind.
  assert (Hpush : forall H : ~ inBounds lvl (crateTargetOf b dx dy) \/
                    crateTargetOf b dx dy ∈ Level.walls lvl \/
                    otherCrateAt (crateSprites s) i (crateTargetOf b dx dy),
             moveBlocked lvl (crateSprites s) b dx dy).
  { intros H. right; right. by exists i, c. }
  destruct (outOfBounds lvl (crateTargetOf b dx dy)) eqn:Hout'.
  { apply outOfBounds_true in Hout'.
    rewrite (handleMovement_blocked key s lvl b d dx dy); try done.
    - eapply ResBlocked; [done..|]. apply Hpush. by left.
    - apply Hpush. by left. }
  destruct (isWall lvl (crateTargetOf b dx dy)) eqn:Hwall'.
  { apply isWall_true in Hwall'.
    rewrite (handleMovement_blocked key s lvl b d dx dy); try done.
    - eapply ResBlocked; [done..|]. apply Hpush. by right; left.
    - apply Hpush. by right; left. }
  apply outOfBounds_false in Hout'. apply isWall_false in Hwall'.
  destruct (find (fun j crate => negb (j =? i)%nat &&
                    CrateSprite.isAt (crateTargetOf b dx dy) crate)
              (crateSprites s)) as [r|] eqn:Hother.
  { assert (Ho : otherCrateAt (crateSprites s) i (crateTargetOf b dx dy)).
    { apply find_other_Some. rewrite Hother. by eexists. }
    rewrite (handleMovement_blocked key s lvl b d dx dy); try done.
    - eapply ResBlocked; [done..|]. apply Hpush. by right; right.
    - apply Hpush. by right; right. }
  apply find_other_None in Hother.
  rewrite (handleMovement_push key s lvl b d dx dy i c); try done.
  by eapply ResPush.
Qed.

Lemma keyStep_unit (key : string) (d : Direction) (dx dy : Z) :
  keyStep key = Some (d, dx, dy) -> Z.abs dx + Z.abs dy = 1.
Proof.
  unfold keyStep. repeat case_match; intros [= <- <- <-]; reflexivity.
Qed.

Lemma update_settled_crate (c : CrateSprite.t) :
  CrateSprite.isMoving c = false -> CrateSprite.update c = c.
Proof. intros H. unfold CrateSprite.update. by rewrite H. Qed.

Lemma update_settled (s : LevelComponent) :
  settled s -> CrateSprite.update <$> crateSprites s = crateSprites s.
Proof.
  intros [_ H]. induction H as [|c l Hc Hl IH]; [done|].
  rewrite fmap_cons, IH. by rewrite update_settled_crate.
Qed.



Lemma accepts_turned (s : LevelComponent) (lvl : Level.t)
    (b : BulldozerSprite.t) (d : Direction) :
  accepts s lvl b ->
  accepts (turned d b s) lvl (BulldozerSprite.setDirection d b).
Proof.
  intros (Hlvl & Hb & Hdone & [Hm Hcs]). repeat split; try done.
  simpl. by rewrite Hb in Hm.
Qed.

Lemma blocked_repeats (key : string) (s s' : LevelComponent) :
  handleMovement key s = (Blocked, s') ->
  handleMovement key s' = (Blocked, s').
Proof.
  intros H. pose proof (handleMovement_resolved key s) as Hres.
  rewrite H in Hres. simpl in Hres.
  inversion Hres as [| lvl b d dx dy Hacc Hkey Hblocked | |]; subst.
  apply (accepts_turned _ _ _ d) in Hacc as (Hlvl & Hb & Hdone & Hset).
  by rewrite (handleMovement_blocked key _ lvl
                (BulldozerSprite.setDirection d b) d dx dy).
Qed.

(** C9: a move attempt that was blocked is blocked again when it is
    repeated in the same direction, however often, and the repeats leave
    the component as the first attempt left it. *)
Theorem blocked_move_idempotent (key : string) (s s' : LevelComponent)
    (n : nat) :
  handleMovement key s = (Blocked, s') ->
  handleMovement key (Nat.iter n (fun st => (handleMovement key st).2) s')
    = (Blocked, s').
Proof.
  intros H. apply blocked_repeats in H.
  induction n as [|n IH]; simpl; [done|]. by rewrite IH.
Qed.

(** ** Undo *)

Lemma undoLastMove_settled (s : LevelComponent) (last : LastMove.t)
    (b : BulldozerSprite.t) :
  lastMove s = Some last -> bulldozerSprite s = Some b -> settled s ->
  undoLastMove s = undone last b s.
Proof.
  intros Hlast Hb Hset. unfold undoLastMove. rewrite Hlast, Hb.
  pose proof Hset as [Hm _]. rewrite Hb in Hm. simpl in Hm.
  unfold BulldozerSprite.isAnimating. rewrite Hm.
  by rewrite (settled_crates _ Hset).
Qed.

Lemma undoLastMove_no_record (s : LevelComponent) :
  lastMove s = None -> undoLastMove s = s.
Proof. intros H. unfold undoLastMove. by rewrite H. Qed.

(** C10: once the completion flag is set, a move attempt with any key
    returns at once and leaves the component as it is; an undo is still
    carried out: with a retained record and no running animation it puts
    the bulldozer and the recorded crate back, lowers the move counter
    (not below zero), clears the record and leaves the flag set. *)
Theorem complete_level_ignores_moves_allows_undo (s : LevelComponent) :
  isLevelComplete s = true ->
  (forall key, handleMovement key s = (Ignored, s)) /\
  (forall last b,
     lastMove s = Some last -> bulldozerSprite s = Some b -> settled s ->
     (exists b', bulldozerSprite (undoLastMove s) = Some b' /\
                 BulldozerSprite.position b' = LastMove.bulldozerPos last) /\
     (forall p i c,
        LastMove.cratePos last = Some p -> LastMove.crateIndex last = Some i ->
        crateSprites s !! i = Some c ->
        (exists c', crateSprites (undoLastMove s) !! i = Some c' /\
                    CrateSprite.position c' = p) /\
        (forall j, j <> i ->
           crateSprites (undoLastMove s) !! j = crateSprites s !! j)) /\
     (0 < moveCount s -> moveCount (undoLastMove s) = moveCount s - 1) /\
     (moveCount s = 0 -> moveCount (undoLastMove s) = 0) /\
     lastMove (undoLastMove s) = None /\
     isLevelComplete (undoLastMove s) = true).
Proof.
  intros Hdone. split.
  - intros key. unfold handleMovement. rewrite Hdone.
    by destruct (bulldozerSprite s), (level s).
  - intros last b Hlast Hb Hset.
    rewrite (undoLastMove_settled s last b) by done.
    cbn [undone bulldozerSprite crateSprites moveCount lastMove
         isLevelComplete].
    split; [by eexists|]. split; [|split; [|split; [|done]]].
    + intros p i c -> -> Hc. rewrite Hc. split.
      * eexists. rewrite list_lookup_insert_eq by by eapply lookup_lt_Some.
        done.
      * intros j Hj. by rewrite list_lookup_insert_ne.
    + intros Hpos. apply Z.gtb_lt in Hpos. by rewrite Hpos.
    + intros ->. done.
Qed.

Lemma settled_update (s : LevelComponent) : settled (update s).
Proof.
  split; simpl.
  - destruct (bulldozerSprite s) as [b|]; [|done]. simpl.
    unfold BulldozerSprite.update. by destruct (BulldozerSprite.isMoving b) eqn:E.
  - apply Forall_fmap, Forall_true. intros c. simpl.
    unfold CrateSprite.update. by destruct (CrateSprite.isMoving c) eqn:E.
Qed.

(** What an undo right after a completed move brings back: the cell of the
    bulldozer, the cell of every crate and the move counter.  The facing it
    sets is the one of the undone move, because [handleMovement] reads
    [getDirection()] for the record after [setDirection(direction)]. *)
Lemma undo_after_move (key : string) (s s1 : LevelComponent) :
  handleMovement key s = (Moved, s1) ->
  exists b b2 d dx dy,
    bulldozerSprite s = Some b /\ keyStep key = Some (d, dx, dy) /\
    bulldozerSprite (undoLastMove (update s1)) = Some b2 /\
    BulldozerSprite.position b2 = BulldozerSprite.position b /\
    BulldozerSprite.direction b2 = d /\
    CrateSprite.cell <$> crateSprites (undoLastMove (update s1))
      = CrateSprite.cell <$> crateSprites s /\
    (0 <= moveCount s -> moveCount (undoLastMove (update s1)) = moveCount s) /\
    lastMove (undoLastMove (update s1)) = None /\
    undoLastMove (undoLastMove (update s1)) = undoLastMove (update s1).
Proof.
  intros H. pose proof (handleMovement_resolved key s) as Hres.
  rewrite H in Hres. simpl in Hres.
  assert (Hcount : forall m, 0 <= m ->
            (if m + 1 >? 0 then m + 1 - 1 else m + 1) = m).
  { intros m Hm. destruct (Z.gtb_spec (m + 1) 0); lia. }
  inversion Hres as [| | lvl b d dx dy Hacc Hkey Hin Hwall Hfree
                       | lvl b d dx dy i c Hacc Hkey Hin Hwall Hfirst
                           Hin' Hwall' Hother]; subst;
    destruct Hacc as (Hlvl & Hb & Hdone & Hset);
    exists b; eexists; exists d, dx, dy;
    (split; [done|]); (split; [done|]).
  - erewrite undoLastMove_settled;
      [|reflexivity|reflexivity|apply settled_update].
    cbn [undone update moving bulldozerSprite crateSprites moveCount lastMove
         LastMove.cratePos LastMove.crateIndex LastMove.bulldozerPos
         LastMove.bulldozerDirection].
    split; [done|]. split; [by rewrite roundPos_id|]. split; [done|].
    split; [by rewrite (update_settled s)|]. split; [apply Hcount|].
    split; [done|]. by apply undoLastMove_no_record.
  - destruct Hfirst as (Hi & Hcell & _).
    assert (Hc : CrateSprite.isMoving c = false) by by eapply settled_crate.
    erewrite undoLastMove_settled;
      [|reflexivity|reflexivity|apply settled_update].
    cbn [undone update moving bulldozerSprite crateSprites moveCount lastMove
         LastMove.cratePos LastMove.crateIndex LastMove.bulldozerPos
         LastMove.bulldozerDirection].
    split; [done|]. split; [by rewrite roundPos_id|]. split; [done|].
    split; [|split; [apply Hcount|split; [done|by apply undoLastMove_no_record]]].
    rewrite list_lookup_fmap, list_lookup_insert_eq
      by by eapply lookup_lt_Some.
    cbn [fmap option_fmap option_map].
    apply list_eq. intros j. rewrite !list_lookup_fmap.
    destruct (decide (j = i)) as [->|Hne].
    + rewrite list_lookup_insert_eq, Hi.
      * simpl. unfold CrateSprite.cell. simpl. by rewrite roundPos_id.
      * rewrite length_fmap, length_insert. by eapply lookup_lt_Some.
    + rewrite list_lookup_insert_ne, list_lookup_fmap,
        list_lookup_insert_ne by done.
      destruct (crateSprites s !! j) as [cj|] eqn:Hcj; [|done]. simpl.
      rewrite update_settled_crate; [done|]. by eapply settled_crate.
Qed.

(** ** The scenario of the specification *)

Ltac cells :=
  unfold inBounds, crateTargetOf, targetOf, roundPos, Math_round,
    Position.shift;
  simpl.

(** C6: on the field of width 4 and height 4 that is all interior, its
    edge being the only border (no wall cell lies on the field), with the
    bulldozer on (1,1) facing Down, a red crate on (2,1) and a red goal on
    (3,1), the key ArrowRight is accepted; once the move has completed the
    crate is on (3,1), the bulldozer on (2,1), and the completion check
    finds every goal filled and sets the flag. *)
Theorem scenario_push_completes (walls : list Position.t) :
  Forall (fun w => ~ (0 <= Position.x w < 4 /\ 0 <= Position.y w < 4)) walls ->
  bulldozerSprite (scenarioStart walls)
    = Some (BulldozerSprite.new (Position.mk 1 1) Down) /\
  (handleMovement "ArrowRight" (scenarioStart walls)).1 = Moved /\
  CrateSprite.position <$>
    crateSprites (update (handleMovement "ArrowRight" (scenarioStart walls)).2)
    = [Position.mk 3 1] /\
  BulldozerSprite.position <$>
    bulldozerSprite (update (handleMovement "ArrowRight" (scenarioStart walls)).2)
    = Some (Position.mk 2 1) /\
  allEndPositionsFilled (scenarioLevel walls)
    (crateSprites (update (handleMovement "ArrowRight" (scenarioStart walls)).2))
    = true /\
  isLevelComplete
    (checkLevelCompletion
       (update (handleMovement "ArrowRight" (scenarioStart walls)).2))
    = true.
Proof.
  intros Hwalls. rewrite Forall_forall in Hwalls.
  assert (Hfree : forall p, 0 <= Position.x p < 4 -> 0 <= Position.y p < 4 ->
                            p ∉ walls).
  { intros p Hx Hy Hp. by apply (Hwalls p Hp). }
  rewrite (handleMovement_push "ArrowRight" (scenarioStart walls)
             (scenarioLevel walls) (BulldozerSprite.new (Position.mk 1 1) Down)
             Right 1 0 0%nat
             (CrateSprite.new (Position.mk 2 1) (Some red))).
  - vm_compute. repeat split.
  - done.
  - done.
  - done.
  - split; [done|]. repeat constructor.
  - done.
  - cells. lia.
  - apply Hfree; cells; lia.
  - repeat split; try done. intros j c' Hj. lia.
  - cells. lia.
  - apply Hfree; cells; lia.
  - intros (j & c' & Hne & Hc' & _). destruct j as [|j]; [done|].
    simpl in Hc'. done.
Qed.

Lemma scenario_push_completes_witness :
  allEndPositionsFilled (scenarioLevel [])
    (crateSprites (update (handleMovement "ArrowRight" (scenarioStart [])).2))
    = true /\
  isLevelComplete
    (checkLevelCompletion
       (update (handleMovement "ArrowRight" (scenarioStart [])).2))
    = true.
Proof.
  pose proof (scenario_push_completes [] (Forall_nil_2 _))
    as (_ & _ & _ & _ & Hfilled & Hdone).
  exact (conj Hfilled Hdone).
Defined.

(** With wall cells on the border of the field itself the goal cell (3,1)
    is a wall, and the same key is blocked. *)
Remark scenario_border_cells_block :
  handleMovement "ArrowRight" (scenarioStart borderCells)
    = (Blocked,
       turned Right (BulldozerSprite.new (Position.mk 1 1) Down)
         (scenarioStart borderCells)).
Proof. reflexivity. Qed.

(** C4, on the scenario without walls: the push to the right, the frame
    that completes it and an undo bring the bulldozer back to (1,1), the
    crate back to (2,1) and the counter back to 0, and clear the record,
    so that a second undo changes nothing; but the bulldozer, which faced
    Down before the move, faces Right after the undo. *)
Theorem undo_keeps_facing_of_undone_move :
  let s0 := scenarioStart [] in
  let s2 := undoLastMove (update (handleMovement "ArrowRight" s0).2) in
  (handleMovement "ArrowRight" s0).1 = Moved /\
  BulldozerSprite.direction <$> bulldozerSprite s0 = Some Down /\
  BulldozerSprite.direction <$> bulldozerSprite s2 = Some Right /\
  BulldozerSprite.position <$> bulldozerSprite s2 = Some (Position.mk 1 1) /\
  CrateSprite.position <$> crateSprites s2 = [Position.mk 2 1] /\
  moveCount s2 = 0 /\
  lastMove s2 = None /\
  undoLastMove s2 = s2.
Proof. vm_compute. repeat split. Qed.

(** ** Completion *)

(** The elements of [l] differ pairwise under [f]. *)
Lemma NoDup_fmap_lookup {A B} (f : A -> B) (l : list A) :
  NoDup (f <$> l) <->
  forall i j a b, l !! i = Some a -> l !! j = Some b -> f a = f b -> i = j.
Proof.
  rewrite NoDup_alt. split.
  - intros H i j a b Ha Hb Hab. apply (H i j (f a)).
    + by rewrite list_lookup_fmap, Ha.
    + by rewrite list_lookup_fmap, Hb, Hab.
  - intros H i j x Hi Hj. rewrite list_lookup_fmap in Hi, Hj.
    destruct (l !! i) as [a|] eqn:Ha; [|done].
    destruct (l !! j) as [b|] eqn:Hb; [|done].
    simpl in Hi, Hj. apply (H i j a b); congruence.
Qed.

Lemma colorMatches_true (c : option string) (goal : string) :
  colorMatches c goal = true <-> c = Some goal.
Proof.
  destruct c as [c|]; simpl; [|done].
  rewrite String.eqb_eq. split; congruence.
Qed.

Lemma every_false {A} (p : A -> bool) (l : list A) (a : A) :
  a ∈ l -> p a = false -> every p l = false.
Proof.
  intros Ha Hp. unfold every. destruct (forallb p l) eqn:E; [|done].
  rewrite forallb_forall in E. rewrite (E a) in Hp; [done|].
  by apply list_elem_of_In.
Qed.

Lemma every_true {A} (p : A -> bool) (l : list A) :
  every p l = true <-> forall a, a ∈ l -> p a = true.
Proof.
  unfold every. rewrite forallb_forall. split; intros H a Ha; apply H.
  - by apply list_elem_of_In.
  - by apply list_elem_of_In.
Qed.

(** A filled goal has a crate that satisfies it: the first one on its
    cell. *)
Lemma endPositionFilled_satisfied (crates : list CrateSprite.t)
    (g : EndPosition.t) :
  endPositionFilled crates g = true ->
  exists i c, firstAt crates (EndPosition.position g) i c /\ satisfies c g.
Proof.
  unfold endPositionFilled.
  destruct (find _ crates) as [[i c]|] eqn:Hfind; [|done].
  intros Hcol. apply find_isAt_Some in Hfind. exists i, c.
  split; [done|]. destruct Hfind as (_ & Hcell & _).
  split; [done|]. by apply colorMatches_true.
Qed.

(** What decides a goal is the first crate on its cell. *)
Lemma endPositionFilled_first (crates : list CrateSprite.t)
    (g : EndPosition.t) (i : nat) (c : CrateSprite.t) :
  firstAt crates (EndPosition.position g) i c ->
  endPositionFilled crates g
    = colorMatches (CrateSprite.color c) (EndPosition.color g).
Proof.
  intros H. apply find_isAt_Some in H. unfold endPositionFilled.
  by rewrite H.
Qed.

Lemma endPositionFilled_empty_cell (crates : list CrateSprite.t)
    (g : EndPosition.t) :
  (forall j c, crates !! j = Some c ->
               CrateSprite.cell c <> EndPosition.position g) ->
  endPositionFilled crates g = false.
Proof.
  intros H. apply find_isAt_None in H. unfold endPositionFilled.
  by rewrite H.
Qed.

(** On distinct cells, a crate on a cell is the first one on it. *)
Lemma distinct_firstAt (crates : list CrateSprite.t) (i : nat)
    (c : CrateSprite.t) :
  NoDup (CrateSprite.cell <$> crates) ->
  crates !! i = Some c -> firstAt crates (CrateSprite.cell c) i c.
Proof.
  rewrite NoDup_fmap_lookup. intros Hdistinct Hi.
  repeat split; try done. intros j c' Hj Hc' Hcell.
  assert (j = i) by by eapply Hdistinct. lia.
Qed.

(** C3 as worded fails where two crates share a cell: with a blue crate
    listed before a red one on the red goal, a crate satisfies the goal and
    the check answers [false]. *)
Lemma completion_reads_first_crate_on_cell :
  let crates := [CrateSprite.new (Position.mk 3 1) (Some "#0000FF");
                 CrateSprite.new (Position.mk 3 1) (Some red)] in
  everyGoalSatisfied (scenarioLevel []) crates /\
  allEndPositionsFilled (scenarioLevel []) crates = false.
Proof.
  split; [|reflexivity].
  intros g Hg. apply list_elem_of_singleton in Hg. subst g.
  exists (CrateSprite.new (Position.mk 3 1) (Some red)).
  split; [|done]. right. left.
Qed.

(** C3, for crates on pairwise distinct cells: the completion check
    answers [true] exactly when every goal has a crate on its cell with
    its color; a neutral crate on a goal cell makes it answer [false]; and
    the answer is [false] once a crate that satisfies a goal is removed or
    given another color. *)
Theorem completion_iff_every_goal_satisfied (lvl : Level.t)
    (crates : list CrateSprite.t) :
  NoDup (CrateSprite.cell <$> crates) ->
  (allEndPositionsFilled lvl crates = true <-> everyGoalSatisfied lvl crates) /\
  (forall c g, c ∈ crates -> g ∈ Level.endPositions lvl ->
     CrateSprite.color c = None ->
     CrateSprite.cell c = EndPosition.position g ->
     allEndPositionsFilled lvl crates = false) /\
  (forall i c g, crates !! i = Some c -> g ∈ Level.endPositions lvl ->
     satisfies c g ->
     allEndPositionsFilled lvl (delete i crates) = false) /\
  (forall i c g col, crates !! i = Some c -> g ∈ Level.endPositions lvl ->
     satisfies c g -> col <> CrateSprite.color c ->
     allEndPositionsFilled lvl (<[i := recolor col c]> crates) = false).
Proof.
  intros Hnodup. pose proof Hnodup as Hdistinct.
  rewrite NoDup_fmap_lookup in Hdistinct.
  split; [|split; [|split]].
  - unfold allEndPositionsFilled. rewrite every_true. split.
    + intros H g Hg. apply H, endPositionFilled_satisfied in Hg
        as (i & c & (Hi & _) & Hsat).
      exists c. split; [by eapply list_elem_of_lookup_2 | done].
    + intros H g Hg. destruct (H g Hg) as (c & Hc & Hcell & Hcol).
      apply list_elem_of_lookup in Hc as [i Hi].
      pose proof (distinct_firstAt crates i c Hnodup Hi) as Hfirst.
      rewrite Hcell in Hfirst.
      rewrite (endPositionFilled_first crates g i c Hfirst).
      by apply colorMatches_true.
  - intros c g Hc Hg Hcol Hcell.
    apply list_elem_of_lookup in Hc as [i Hi].
    pose proof (distinct_firstAt crates i c Hnodup Hi) as Hfirst.
    rewrite Hcell in Hfirst. apply (every_false _ _ g Hg).
    rewrite (endPositionFilled_first crates g i c Hfirst). by rewrite Hcol.
  - intros i c g Hi Hg [Hcell Hcol]. apply (every_false _ _ g Hg).
    apply endPositionFilled_empty_cell. intros j c' Hj Hc'.
    destruct (decide (j < i)%nat) as [Hlt|Hge].
    + rewrite list_lookup_delete_lt in Hj by done.
      assert (j = i) by (eapply Hdistinct; [done..|congruence]). lia.
    + rewrite list_lookup_delete_ge in Hj by lia.
      assert (S j = i) by (eapply Hdistinct; [done..|congruence]). lia.
  - intros i c g col Hi Hg [Hcell Hcol] Hne. apply (every_false _ _ g Hg).
    assert (Hfirst : firstAt (<[i := recolor col c]> crates)
                       (EndPosition.position g) i (recolor col c)).
    { split; [|split; [done|]].
      - apply list_lookup_insert_eq. by eapply lookup_lt_Some.
      - intros j c' Hlt Hj Hc'.
        rewrite list_lookup_insert_ne in Hj by lia.
        assert (j = i) by (eapply Hdistinct; [done..|congruence]). lia. }
    rewrite (endPositionFilled_first _ g i _ Hfirst). simpl.
    destruct (colorMatches col (EndPosition.color g)) eqn:E; [|done].
    apply colorMatches_true in E. congruence.
Qed.

Lemma completion_iff_every_goal_satisfied_witness :
  NoDup (CrateSprite.cell <$> [CrateSprite.new (Position.mk 3 1) (Some red)]) /\
  allEndPositionsFilled (scenarioLevel [])
    (delete 0%nat [CrateSprite.new (Position.mk 3 1) (Some red)]) = false.
Proof.
  assert (H : NoDup (CrateSprite.cell <$>
                       [CrateSprite.new (Position.mk 3 1) (Some red)])).
  { simpl. apply NoDup_cons. split; [|apply NoDup_nil_2].
    intros Hin. inversion Hin. }
  split; [exact H|].
  refine (proj1 (proj2 (proj2
    (completion_iff_every_goal_satisfied (scenarioLevel []) _ H)))
    0%nat (CrateSprite.new (Position.mk 3 1) (Some red))
    {| EndPosition.position := Position.mk 3 1; EndPosition.color := red |}
    eq_refl _ _).
  - left.
  - split; reflexivity.
Defined.

(** ** The validator *)

#[global] Instance strLe_total : Total strLe.
Proof. intros a b. apply String.leb_total. Qed.

#[global] Instance strLe_antisym : AntiSymm (=) strLe.
Proof. intros a b. apply String.leb_antisym. Qed.

#[global] Instance strLe_trans : Transitive strLe.
Proof.
  intros a b c. unfold strLe, String.leb.
  destruct (String.compare a b) eqn:Hab; intros H1; [| |done].
  - apply String_as_OT.cmp_eq in Hab. by subst.
  - destruct (String.compare b c) eqn:Hbc; intros H2; [| |done].
    + apply String_as_OT.cmp_eq in Hbc. subst. by rewrite Hab.
    + apply String_as_OT.cmp_lt in Hab, Hbc.
      pose proof (String_as_OT.lt_trans _ _ _ Hab Hbc) as Hac.
      apply String_as_OT.cmp_lt in Hac. unfold String_as_OT.cmp in Hac.
      by rewrite Hac.
Qed.

(** Two lists sort to the same list exactly when they hold the same
    strings the same number of times. *)
Lemma sort_eq_iff (l1 l2 : list string) : sort l1 = sort l2 <-> l1 ≡ₚ l2.
Proof.
  unfold sort. split.
  - intros H. rewrite <- (merge_sort_Permutation strLe l1), H.
    apply merge_sort_Permutation.
  - intros H. apply (Sorted_unique strLe).
    + apply Sorted_merge_sort, _.
    + apply Sorted_merge_sort, _.
    + by rewrite !merge_sort_Permutation.
Qed.

Lemma omap_filter_isColored (crates : list Crate.t) :
  omap Crate.color (List.filter isColored crates) = omap Crate.color crates.
Proof.
  induction crates as [|c l IH]; [done|]. simpl.
  destruct (isColored c) eqn:Hc; unfold isColored in Hc;
    destruct (Crate.color c) eqn:E; try done; simpl; rewrite ?E;
    first [exact IH | f_equal; exact IH].
Qed.

Lemma length_filter_isColored (crates : list Crate.t) :
  length (List.filter isColored crates) = length (omap Crate.color crates).
Proof.
  induction crates as [|c l IH]; [done|]. simpl.
  destruct (isColored c) eqn:Hc; unfold isColored in Hc;
    destruct (Crate.color c) eqn:E; try done; simpl;
    first [exact IH | f_equal; exact IH].
Qed.

Lemma describes_not_wellFormed (lvl : Level.t) (e : InvalidLevel) :
  describes lvl e -> ~ wellFormed lvl.
Proof.
  intros Hd (Hw & Hh & Hcol & Hstart & Hwalls & Hcrates & Hends).
  destruct e as [w|h|n a b|n cs es|name pos n]; simpl in Hd.
  - destruct Hd as [-> Hd]. done.
  - destruct Hd as [-> Hd]. done.
  - destruct Hd as (_ & -> & -> & Hd). apply Hd.
    apply Permutation_length in Hcol. by rewrite Hcol, length_fmap.
  - destruct Hd as (_ & -> & -> & Hd). apply Hd. by apply sort_eq_iff.
  - destruct Hd as (_ & Hname & Hd). apply Hd. clear Hd.
    destruct name as [|i|i|i]; simpl in Hname.
    + congruence.
    + rewrite Forall_lookup in Hwalls. by eapply Hwalls.
    + destruct (Level.crates lvl !! i) as [c|] eqn:Hc; [|done].
      injection Hname as <-. rewrite Forall_lookup in Hcrates.
      by eapply (Hcrates i c).
    + destruct (Level.endPositions lvl !! i) as [g|] eqn:Hg; [|done].
      injection Hname as <-. rewrite Forall_lookup in Hends.
      by eapply (Hends i g).
Qed.

Lemma validatePosition_ok (lvl : Level.t) (p : Position.t)
    (name : PositionName) :
  inBounds lvl p -> validatePosition lvl p name = Return tt.
Proof.
  intros H. apply outOfBounds_false in H. unfold validatePosition.
  by rewrite H.
Qed.

Lemma validatePosition_throw (lvl : Level.t) (p : Position.t)
    (name : PositionName) :
  ~ inBounds lvl p ->
  validatePosition lvl p name
    = Throw (InvalidPosition name p (Level.number lvl)).
Proof.
  intros H. apply outOfBounds_true in H. unfold validatePosition.
  by rewrite H.
Qed.

(** A [forEach] over positions either finds all of them on the field or
    throws at the first one that is not. *)
Lemma forEachFrom_validatePosition {A} (lvl : Level.t) (pos : A -> Position.t)
    (name : nat -> PositionName) (f : A -> nat -> Result unit)
    (k : nat) (l : list A) :
  (forall a i, f a i = validatePosition lvl (pos a) (name i)) ->
  (Forall (fun a => inBounds lvl (pos a)) l /\ forEachFrom f k l = Return tt) \/
  (exists i a, l !! i = Some a /\ ~ inBounds lvl (pos a) /\
     forEachFrom f k l
       = Throw (InvalidPosition (name (k + i)%nat) (pos a) (Level.number lvl))).
Proof.
  intros Hf. revert k. induction l as [|a l IH]; intros k; simpl.
  - left. by split.
  - rewrite Hf. unfold validatePosition.
    destruct (outOfBounds lvl (pos a)) eqn:Hout; simpl.
    + right. exists 0%nat, a. apply outOfBounds_true in Hout.
      by rewrite Nat.add_0_r.
    + apply outOfBounds_false in Hout.
      destruct (IH (S k)) as [[Hall ->]|(i & a' & Hi & Hbad & ->)].
      * left. split; [by constructor | done].
      * right. exists (S i), a'. repeat split; [done..|].
        by replace (k + S i)%nat with (S k + i)%nat by lia.
Qed.

Lemma forEach_validatePosition {A} (lvl : Level.t) (pos : A -> Position.t)
    (name : nat -> PositionName) (f : A -> nat -> Result unit) (l : list A) :
  (forall a i, f a i = validatePosition lvl (pos a) (name i)) ->
  (Forall (fun a => inBounds lvl (pos a)) l /\ forEach f l = Return tt) \/
  (exists i a, l !! i = Some a /\ ~ inBounds lvl (pos a) /\
     forEach f l
       = Throw (InvalidPosition (name i) (pos a) (Level.number lvl))).
Proof. intros Hf. apply (forEachFrom_validatePosition lvl pos name f 0 l Hf). Qed.

(** [validateLevel] returns [true] on a level that keeps the invariants and
    throws an error that describes a broken one otherwise. *)
Lemma validateLevel_cases (lvl : Level.t) :
  (wellFormed lvl /\ validateLevel lvl = Return true) \/
  (exists e, validateLevel lvl = Throw e /\ describes lvl e).
Proof.
  unfold validateLevel.
  destruct ((Level.width lvl <? 1) || (Level.width lvl >? 32)) eqn:Hw.
  { right. eexists. split; [done|]. split; [done|].
    apply orb_true_iff in Hw as [Hw|Hw];
      [apply Z.ltb_lt in Hw | apply Z.gtb_lt in Hw]; lia. }
  destruct ((Level.height lvl <? 1) || (Level.height lvl >? 32)) eqn:Hh.
  { right. eexists. split; [done|]. split; [done|].
    apply orb_true_iff in Hh as [Hh|Hh];
      [apply Z.ltb_lt in Hh | apply Z.gtb_lt in Hh]; lia. }
  apply orb_false_iff in Hw as [Hw1 Hw2]. apply orb_false_iff in Hh as [Hh1 Hh2].
  apply Z.ltb_ge in Hw1, Hh1.
  rewrite Z.gtb_ltb in Hw2, Hh2. apply Z.ltb_ge in Hw2, Hh2.
  rewrite length_filter_isColored, omap_filter_isColored.
  destruct (Nat.eqb_spec (length (Level.endPositions lvl))
              (length (omap Crate.color (Level.crates lvl)))) as [Hlen|Hlen];
    simpl.
  2:{ right. eexists. split; [done|]. by repeat split. }
  destruct (bool_decide_reflect
              (sort (omap Crate.color (Level.crates lvl))
               = sort (EndPosition.color <$> Level.endPositions lvl)))
    as [Hcol|Hcol].
  2:{ right. eexists. split; [done|]. by repeat split. }
  apply sort_eq_iff in Hcol.
  destruct (outOfBounds lvl (Level.playerStartPosition lvl)) eqn:Hstart.
  { apply outOfBounds_true in Hstart.
    rewrite (validatePosition_throw lvl _ PlayerStart Hstart). simpl.
    right. eexists. split; [done|]. by repeat split. }
  apply outOfBounds_false in Hstart.
  rewrite (validatePosition_ok lvl _ PlayerStart Hstart). simpl.
  destruct (forEach_validatePosition lvl id WallAt
              (fun wall i => validatePosition lvl wall (WallAt i))
              (Level.walls lvl) ltac:(done))
    as [[Hwalls ->]|(i & a & Hi & Hbad & ->)]; simpl.
  2:{ right. eexists. split; [done|]. by repeat split. }
  destruct (forEach_validatePosition lvl Crate.position CrateAt
              (fun crate i =>
                 validatePosition lvl (Crate.position crate) (CrateAt i))
              (Level.crates lvl) ltac:(done))
    as [[Hcrates ->]|(i & a & Hi & Hbad & ->)]; simpl.
  2:{ right. eexists. split; [done|]. repeat split; [|done]. simpl.
      by rewrite Hi. }
  destruct (forEach_validatePosition lvl EndPosition.position EndPositionAt
              (fun e i =>
                 validatePosition lvl (EndPosition.position e)
                   (EndPositionAt i))
              (Level.endPositions lvl) ltac:(done))
    as [[Hends ->]|(i & a & Hi & Hbad & ->)]; simpl.
  2:{ right. eexists. split; [done|]. repeat split; [|done]. simpl.
      by rewrite Hi. }
  left. split; [|done].
  split; [lia|]. split; [lia|]. split; [done|]. split; [done|].
  split; [exact Hwalls|]. by split.
Qed.

(** C7: the validator throws exactly when a size lies outside 1..32, or
    the colors of the goals are not those of the colored crates, each as
    often, or a position of the player start, a wall, a crate or a goal is
    off the field; the error it throws names a broken invariant with the
    values that break it; on every other level it returns [true]. *)
Theorem validateLevel_rejects_exactly_broken_levels (lvl : Level.t) :
  ((exists e, validateLevel lvl = Throw e) <-> ~ wellFormed lvl) /\
  (validateLevel lvl = Return true <-> wellFormed lvl) /\
  (forall e, validateLevel lvl = Throw e -> describes lvl e) /\
  (forall r, validateLevel lvl = Return r -> r = true).
Proof.
  destruct (validateLevel_cases lvl) as [[Hwf Hok]|(e & Hthrow & Hdesc)].
  - rewrite Hok. split; [|split; [|split]].
    + split; [by intros [e He] | done].
    + done.
    + intros e He. done.
    + by intros r [= <-].
  - rewrite Hthrow. pose proof (describes_not_wellFormed lvl e Hdesc) as Hbad.
    split; [|split; [|split]].
    + split; [done | by exists e].
    + split; [done | by intros Hwf].
    + by intros e' [= <-].
    + intros r Hr. done.
Qed.

(** ** Loading *)

(** C5 as worded fails on [oversizedLevel]: the validator throws on it,
    and yet the level is loaded and the first move on it is carried out.
    No load path runs the validator. *)
Lemma invalid_level_is_loaded_and_played :
  validateLevel oversizedLevel = Throw (InvalidWidth 33) /\
  level (loadLevel None oversizedLevel newLevelComponent)
    = Some oversizedLevel /\
  (handleMovement "ArrowRight"
     (loadLevel None oversizedLevel newLevelComponent)).1 = Moved.
Proof. repeat split. Qed.

(** C5, as the loader does it: whatever level the level store answers
    with, valid for the validator or not, [loadLevel] stores it as received
    and sets play up from it, the bulldozer on the start position facing
    Down, one sprite per crate, the counter at zero, the flag cleared, and
    the gates for moves are open. *)
Theorem loadLevel_installs_level_unvalidated (levelNumber : option Z)
    (lvl : Level.t) (s : LevelComponent) :
  level (loadLevel levelNumber lvl s) = Some lvl /\
  crateSprites (loadLevel levelNumber lvl s)
    = (fun crate => CrateSprite.new (Crate.position crate) (Crate.color crate))
        <$> Level.crates lvl /\
  moveCount (loadLevel levelNumber lvl s) = 0 /\
  lastMove (loadLevel levelNumber lvl s) = lastMove s /\
  accepts (loadLevel levelNumber lvl s) lvl
    (BulldozerSprite.new (Level.playerStartPosition lvl) Down).
Proof.
  repeat split; try done. simpl.
  apply Forall_fmap, Forall_true. done.
Qed.

(** ** Crates keep to their own cells *)

Section Exclusive.

Implicit Types (s : LevelComponent) (crates : list CrateSprite.t).

Lemma distinctOn_insert {A B} (f : A -> B) (l : list A) (i : nat) (a : A) :
  (forall j b, j <> i -> l !! j = Some b -> f b <> f a) ->
  distinctOn f l -> distinctOn f (<[i := a]> l).
Proof.
  intros Hfresh Hl i1 i2 a1 a2 H1 H2 Heq.
  apply list_lookup_insert_Some in H1 as [(-> & -> & _)|[Hne1 H1]];
    apply list_lookup_insert_Some in H2 as [(-> & -> & _)|[Hne2 H2]].
  - done.
  - by destruct (Hfresh i2 a2 ltac:(done) H2).
  - by destruct (Hfresh i1 a1 ltac:(done) H1).
  - by eapply Hl.
Qed.

Lemma distinctOn_fmap {A B C} (f : B -> C) (g : A -> B) (l : list A) :
  distinctOn (fun a => f (g a)) l -> distinctOn f (g <$> l).
Proof.
  intros Hl i j b1 b2 H1 H2 Heq.
  apply list_lookup_fmap_Some in H1 as (a1 & -> & H1).
  apply list_lookup_fmap_Some in H2 as (a2 & -> & H2).
  by eapply Hl.
Qed.

Lemma restCell_settled (c : CrateSprite.t) :
  CrateSprite.isMoving c = false -> restCell c = CrateSprite.cell c.
Proof. intros H. unfold restCell. by rewrite update_settled_crate. Qed.

Lemma restCell_update (c : CrateSprite.t) :
  restCell (CrateSprite.update c) = restCell c.
Proof.
  unfold restCell, CrateSprite.update.
  by destruct (CrateSprite.isMoving c) eqn:E; simpl; rewrite ?E.
Qed.

Lemma restCell_startMoveTo (c : CrateSprite.t) (q : Position.t) :
  CrateSprite.isMoving c = false ->
  restCell (CrateSprite.startMoveTo q c) = q.
Proof.
  intros H. unfold restCell, CrateSprite.startMoveTo, CrateSprite.update.
  rewrite H. simpl. unfold CrateSprite.cell. simpl. by rewrite roundPos_id.
Qed.

Lemma exclusive_same s s' :
  crateSprites s' = crateSprites s -> lastMove s' = lastMove s ->
  exclusive s -> exclusive s'.
Proof.
  intros Hc Hl (H1 & H2 & H3). unfold exclusive, undoSafe.
  rewrite Hc, Hl. done.
Qed.

Lemma exclusive_handleMovement (key : string) s :
  exclusive s -> exclusive (handleMovement key s).2.
Proof.
  intros Hs. pose proof (handleMovement_resolved key s) as Hres.
  destruct (handleMovement key s) as [o s']. simpl in *.
  destruct Hs as (Hcell & Hrest & Hundo).
  inversion Hres as [| lvl b d dx dy Hacc Hkey Hblocked
                     | lvl b d dx dy Hacc Hkey Hin Hwall Hfree
                     | lvl b d dx dy i c Hacc Hkey Hin Hwall Hfirst
                         Hin' Hwall' Hother]; subst.
  - done.
  - by apply (exclusive_same s).
  - split; [done|]. split; [done|]. intros last p i [= <-]. done.
  - destruct Hacc as (_ & _ & _ & Hset).
    destruct Hfirst as (Hi & Hc & _).
    assert (Hidle : CrateSprite.isMoving c = false)
      by by eapply settled_crate.
    assert (Hothers : forall j cj, j <> i -> crateSprites s !! j = Some cj ->
              CrateSprite.cell cj <> CrateSprite.cell c /\
              restCell cj <> CrateSprite.cell c /\
              restCell cj <> crateTargetOf b dx dy).
    { intros j cj Hne Hj.
      assert (restCell cj = CrateSprite.cell cj) as ->.
      { apply restCell_settled. by eapply settled_crate. }
      assert (CrateSprite.cell cj <> CrateSprite.cell c).
      { intros Heq. apply Hne. by eapply Hcell. }
      split; [exact H|]. split; [exact H|].
      intros Heq. apply Hother. by exists j, cj. }
    split; [|split].
    + simpl. apply distinctOn_insert; [|done].
      intros j cj Hne Hj. destruct (Hothers j cj Hne Hj) as (H1 & _).
      unfold CrateSprite.startMoveTo. by rewrite Hidle.
    + simpl. apply distinctOn_insert; [|done].
      intros j cj Hne Hj. destruct (Hothers j cj Hne Hj) as (_ & _ & H3).
      by rewrite restCell_startMoveTo.
    + intros last p i' [= <-]. simpl. intros [= <-] [= <-] j cj Hne Hj.
      rewrite list_lookup_insert_ne in Hj by done.
      destruct (Hothers j cj Hne Hj) as (H1 & H2 & _). done.
Qed.

Lemma exclusive_undoLastMove s : exclusive s -> exclusive (undoLastMove s).
Proof.
  intros Hs. unfold undoLastMove.
  destruct (lastMove s) as [last|] eqn:Hlast; [|done].
  destruct (bulldozerSprite s) as [b|] eqn:Hb; [|done].
  destruct (BulldozerSprite.isAnimating b) eqn:Hidle; [done|].
  destruct (some CrateSprite.isAnimating (crateSprites s)) eqn:Hcrates;
    [done|].
  rewrite some_false in Hcrates.
  destruct Hs as (Hcell & Hrest & Hundo).
  assert (Hnone : forall crates,
            undoSafe {| level := level s;
                        currentLevelNumber := currentLevelNumber s;
                        bulldozerSprite :=
                          Some (BulldozerSprite.setDirection
                                  (LastMove.bulldozerDirection last)
                                  (BulldozerSprite.setPosition
                                     (LastMove.bulldozerPos last) b));
                        crateSprites := crates;
                        isLevelComplete := isLevelComplete s;
                        moveCount := if moveCount s >? 0
                                     then moveCount s - 1 else moveCount s;
                        lastMove := None |}).
  { intros crates last' p i Hl. done. }
  destruct (LastMove.cratePos last) as [p|] eqn:Hp;
    [|by split; [|split; [|apply Hnone]]].
  destruct (LastMove.crateIndex last) as [i|] eqn:Hidx;
    [|by split; [|split; [|apply Hnone]]].
  destruct (crateSprites s !! i) as [c|] eqn:Hi;
    [|by split; [|split; [|apply Hnone]]].
  assert (Hc : CrateSprite.isMoving c = false).
  { apply Hcrates. by eapply list_elem_of_lookup_2. }
  split; [|split; [|apply Hnone]]; simpl.
  - apply distinctOn_insert; [|done]. intros j cj Hne Hj.
    destruct (Hundo last p i Hlast Hp Hidx j cj Hne Hj) as [H1 _].
    unfold CrateSprite.cell at 2. simpl. by rewrite roundPos_id.
  - apply distinctOn_insert; [|done]. intros j cj Hne Hj.
    destruct (Hundo last p i Hlast Hp Hidx j cj Hne Hj) as [_ H2].
    rewrite (restCell_settled (CrateSprite.setPosition p c)) by done.
    unfold CrateSprite.cell. simpl. by rewrite roundPos_id.
Qed.

Lemma exclusive_update s : exclusive s -> exclusive (update s).
Proof.
  intros (Hcell & Hrest & Hundo). split; [|split]; simpl.
  - by apply distinctOn_fmap.
  - apply distinctOn_fmap. intros i j a b Ha Hb Heq.
    rewrite !restCell_update in Heq. by eapply Hrest.
  - intros last p i Hlast Hp Hidx j c' Hne Hj. simpl in Hlast, Hj.
    apply list_lookup_fmap_Some in Hj as (c & -> & Hj).
    destruct (Hundo last p i Hlast Hp Hidx j c Hne Hj) as [_ H2].
    by rewrite restCell_update.
Qed.

Lemma exclusive_checkLevelCompletion s :
  exclusive s -> exclusive (checkLevelCompletion s).
Proof.
  intros Hs. unfold checkLevelCompletion.
  destruct (level s) as [lvl|]; [|done].
  destruct (isLevelComplete s); [done|].
  destruct (allEndPositionsFilled lvl (crateSprites s)); [|done].
  by apply (exclusive_same s).
Qed.

Lemma exclusive_run s (events : list Event) :
  exclusive s -> exclusive (run s events).
Proof.
  revert s. induction events as [|e events IH]; intros s Hs; [done|].
  simpl. apply IH. destruct e; simpl.
  - by apply exclusive_handleMovement.
  - by apply exclusive_undoLastMove.
  - by apply exclusive_update.
  - by apply exclusive_checkLevelCompletion.
Qed.

Lemma exclusive_loadLevel (levelNumber : option Z) (lvl : Level.t) s0 :
  NoDup (Crate.position <$> Level.crates lvl) ->
  lastMove s0 = None ->
  exclusive (loadLevel levelNumber lvl s0).
Proof.
  intros Hnodup Hnone. rewrite NoDup_fmap_lookup in Hnodup.
  assert (H : distinctOn CrateSprite.cell
                ((fun crate =>
                    CrateSprite.new (Crate.position crate) (Crate.color crate))
                   <$> Level.crates lvl)).
  { apply distinctOn_fmap. intros i j a b Ha Hb Heq.
    unfold CrateSprite.cell in Heq. simpl in Heq.
    rewrite !roundPos_id in Heq. by eapply Hnodup. }
  split; [done|]. split; [|by intros last p i; simpl; rewrite Hnone]. simpl.
  intros i j a b Ha Hb Heq. pose proof Ha as Ha'. pose proof Hb as Hb'.
  apply list_lookup_fmap_Some in Ha' as (ca & -> & _).
  apply list_lookup_fmap_Some in Hb' as (cb & -> & _).
  rewrite !restCell_settled in Heq by done. by eapply H.
Qed.

End Exclusive.

(** From a load that leaves no undo record behind, the crates stay on
    pairwise distinct cells through any sequence of key presses, undos,
    completed frames and completion checks; and in every such state an
    accepted push whose destination cell holds another crate is blocked as
    a whole: no crate and no position changes, only the bulldozer turns. *)
Lemma crates_stay_on_distinct_cells (levelNumber : option Z) (lvl : Level.t)
    (s0 : LevelComponent) (events : list Event) :
  NoDup (Crate.position <$> Level.crates lvl) ->
  lastMove s0 = None ->
  NoDup (CrateSprite.cell <$>
           crateSprites (run (loadLevel levelNumber lvl s0) events)) /\
  (forall key lvl' b d dx dy i c,
     accepts (run (loadLevel levelNumber lvl s0) events) lvl' b ->
     keyStep key = Some (d, dx, dy) ->
     firstAt (crateSprites (run (loadLevel levelNumber lvl s0) events))
       (targetOf b dx dy) i c ->
     otherCrateAt (crateSprites (run (loadLevel levelNumber lvl s0) events))
       i (crateTargetOf b dx dy) ->
     handleMovement key (run (loadLevel levelNumber lvl s0) events)
       = (Blocked, turned d b (run (loadLevel levelNumber lvl s0) events))).
Proof.
  intros Hnodup Hnone. split.
  - apply NoDup_fmap_lookup.
    by apply (exclusive_run _ events
                (exclusive_loadLevel levelNumber lvl s0 Hnodup Hnone)).
  - intros key lvl' b d dx dy i c (Hlvl & Hb & Hdone & Hset) Hkey Hfirst Hother.
    apply (handleMovement_blocked key _ lvl' b d dx dy); try done.
    right; right. exists i, c. split; [done|]. by right; right.
Qed.

(** C8, on a level loaded after play.  The push of the scenario completes
    the scenario level and [n] loads the next level, whose two crates start
    on the distinct cells (0,3) and (2,1).  [initializeLevel] resets the
    completion flag and the counter but not [lastMove], so the component
    still holds the record of the push; one undo then puts the first crate
    on the recorded cell (2,1), where the second crate stands. *)
Theorem undo_after_load_stacks_crates :
  let played := completedScenario in
  let asked :=
    handleKeyDown {| KeyboardEvent.key := "n"; KeyboardEvent.ctrlKey := false |}
      played in
  let loaded := loadLevelAnswer (Some nextLevel) (component asked) in
  let undone :=
    component
      (handleKeyDown
         {| KeyboardEvent.key := "z"; KeyboardEvent.ctrlKey := true |} loaded) in
  isLevelComplete played = true /\
  requested asked = [2] /\
  loaded = loadLevel (Some 2) nextLevel played /\
  validateLevel nextLevel = Return true /\
  NoDup (Crate.position <$> Level.crates nextLevel) /\
  CrateSprite.cell <$> crateSprites loaded
    = [Position.mk 0 3; Position.mk 2 1] /\
  lastMove loaded = lastMove played /\
  undone = run loaded [UndoKey] /\
  CrateSprite.cell <$> crateSprites undone
    = [Position.mk 2 1; Position.mk 2 1] /\
  ~ NoDup (CrateSprite.cell <$> crateSprites undone).
Proof.
  split; [reflexivity|]. split; [reflexivity|]. split; [reflexivity|].
  split; [reflexivity|]. split.
  { simpl. apply NoDup_cons. split.
    - intros Hin. apply list_elem_of_singleton in Hin. discriminate Hin.
    - apply NoDup_cons. split; [|apply NoDup_nil_2].
      intros Hin. inversion Hin. }
  split; [reflexivity|]. split; [reflexivity|]. split; [reflexivity|].
  split; [reflexivity|].
  intros Hnodup. apply NoDup_cons in Hnodup as [Hnotin _].
  apply Hnotin. left.
Qed.

(** ** The theorems at work on the scenarios of the specification *)

Lemma scenario_accepts (walls : list Position.t) :
  accepts (scenarioStart walls) (scenarioLevel walls)
    (BulldozerSprite.new (Position.mk 1 1) Down).
Proof. repeat split. repeat constructor. Defined.





Lemma blocked_move_idempotent_witness :
  handleMovement "ArrowRight"
    (Nat.iter 3 (fun st => (handleMovement "ArrowRight" st).2)
       (turned Right (BulldozerSprite.new (Position.mk 1 1) Down) walledStart))
  = (Blocked,
     turned Right (BulldozerSprite.new (Position.mk 1 1) Down) walledStart).
Proof.
  exact (blocked_move_idempotent "ArrowRight" walledStart
           (turned Right (BulldozerSprite.new (Position.mk 1 1) Down)
              walledStart)
           3 eq_refl).
Defined.

Lemma complete_level_ignores_moves_allows_undo_witness :
  isLevelComplete completedScenario = true /\
  handleMovement "ArrowLeft" completedScenario = (Ignored, completedScenario).
Proof.
  split; [reflexivity|].
  exact (proj1 (complete_level_ignores_moves_allows_undo completedScenario
                  eq_refl) "ArrowLeft").
Defined.

Lemma crates_stay_on_distinct_cells_line :
  NoDup (CrateSprite.cell <$>
           crateSprites
             (run lineStart
                [KeyDown "ArrowRight"; KeyDown "ArrowDown"; Frame;
                 KeyDown "ArrowRight"; Frame; KeyDown "ArrowUp"; Frame;
                 UndoKey; CompletionCheck; UndoKey])) /\
  handleMovement "ArrowRight" (run lineStart [])
    = (Blocked,
       turned Right (BulldozerSprite.new (Position.mk 1 1) Down) lineStart).
Proof.
  assert (H : NoDup (Crate.position <$> Level.crates lineLevel)).
  { simpl. apply NoDup_cons. split.
    - intros Hin. apply list_elem_of_singleton in Hin. discriminate Hin.
    - apply NoDup_cons. split; [|apply NoDup_nil_2].
      intros Hin. inversion Hin. }
  split.
  - exact (proj1 (crates_stay_on_distinct_cells None lineLevel
                    newLevelComponent _ H eq_refl)).
  - refine (proj2 (crates_stay_on_distinct_cells None lineLevel
                     newLevelComponent [] H eq_refl)
              "ArrowRight" lineLevel
              (BulldozerSprite.new (Position.mk 1 1) Down) Right 1 0 0%nat
              (CrateSprite.new (Position.mk 2 1) (Some red)) _ eq_refl _ _).
    + repeat split. repeat constructor.
    + repeat split. intros j c' Hj. lia.
    + exists 1%nat, (CrateSprite.new (Position.mk 3 1) None).
      repeat split. discriminate.
Defined.

(** * More properties of the component *)

(** ** What a key press does and does not do *)

(** X1: when the gates are open and the target cell is on the field, no
    wall and free of crates, the move is carried out: once it has completed
    the bulldozer stands on the target cell facing the move direction, no
    crate has changed, the counter is one higher and the record holds the
    cell the bulldozer left and no crate. *)
Theorem free_move_moves_only_bulldozer (key : string) (s : LevelComponent)
    (lvl : Level.t) (b : BulldozerSprite.t) (d : Direction) (dx dy : Z) :
  accepts s lvl b ->
  keyStep key = Some (d, dx, dy) ->
  inBounds lvl (targetOf b dx dy) ->
  targetOf b dx dy ∉ Level.walls lvl ->
  (forall j c, crateSprites s !! j = Some c ->
               CrateSprite.cell c <> targetOf b dx dy) ->
  (handleMovement key s).1 = Moved /\
  (exists b', bulldozerSprite (update (handleMovement key s).2) = Some b' /\
              BulldozerSprite.position b' = targetOf b dx dy /\
              BulldozerSprite.direction b' = d /\
              BulldozerSprite.isMoving b' = false) /\
  crateSprites (update (handleMovement key s).2) = crateSprites s /\
  moveCount (update (handleMovement key s).2) = moveCount s + 1 /\
  lastMove (update (handleMovement key s).2)
    = Some {| LastMove.bulldozerPos := bulldozerCell b;
              LastMove.bulldozerDirection := d;
              LastMove.cratePos := None;
              LastMove.crateIndex := None |}.
Proof.
  intros (Hlvl & Hb & Hdone & Hset) Hkey Hin Hwall Hfree.
  rewrite (handleMovement_free key s lvl b d dx dy) by done.
  cbn [fst snd update moving crateSprites bulldozerSprite moveCount lastMove].
  split; [done|]. split; [|split; [|done]].
  - eexists. split; [done|].
    destruct Hset as [Hm _]. rewrite Hb in Hm. simpl in Hm.
    unfold BulldozerSprite.startMoveTo, BulldozerSprite.update. simpl.
    rewrite Hm. simpl. done.
  - by apply update_settled.
Qed.

Lemma free_move_moves_only_bulldozer_witness :
  (handleMovement "ArrowDown" (scenarioStart [])).1 = Moved /\
  crateSprites (update (handleMovement "ArrowDown" (scenarioStart [])).2)
    = crateSprites (scenarioStart []).
Proof.
  assert (Hfree : forall j c, crateSprites (scenarioStart []) !! j = Some c ->
            CrateSprite.cell c
              <> targetOf (BulldozerSprite.new (Position.mk 1 1) Down) 0 1).
  { intros [|[|j]] c Hc; [|done..]. injection Hc as <-. discriminate. }
  pose proof (free_move_moves_only_bulldozer "ArrowDown" (scenarioStart [])
                (scenarioLevel []) (BulldozerSprite.new (Position.mk 1 1) Down)
                Down 0 1 (scenario_accepts []) eq_refl
                ltac:(cells; lia) ltac:(apply not_elem_of_nil) Hfree)
    as (H1 & _ & H2 & _).
  exact (conj H1 H2).
Defined.

(** X2: while the bulldozer or any crate is in the middle of a move, a key
    press and an undo both return at once and leave the component as it
    is. *)
Theorem running_move_drops_input (key : string) (s : LevelComponent)
    (b : BulldozerSprite.t) :
  bulldozerSprite s = Some b ->
  BulldozerSprite.isMoving b = true \/
    (exists c, c ∈ crateSprites s /\ CrateSprite.isMoving c = true) ->
  handleMovement key s = (Ignored, s) /\ undoLastMove s = s.
Proof.
  intros Hb Hmoving.
  assert (H : BulldozerSprite.isAnimating b = true \/
              (BulldozerSprite.isAnimating b = false /\
               some CrateSprite.isAnimating (crateSprites s) = true)).
  { unfold BulldozerSprite.isAnimating.
    destruct (BulldozerSprite.isMoving b) eqn:Hm; [by left|right].
    split; [done|]. destruct Hmoving as [|(c & Hc & Hcm)]; [done|].
    destruct (some CrateSprite.isAnimating (crateSprites s)) eqn:E; [done|].
    rewrite some_false in E. specialize (E c Hc).
    unfold CrateSprite.isAnimating in E. congruence. }
  unfold handleMovement, undoLastMove. rewrite Hb.
  destruct H as [->|[-> ->]].
  - split; by repeat case_match.
  - split; by repeat case_match.
Qed.

Lemma running_move_drops_input_witness :
  undoLastMove (handleMovement "ArrowRight" (scenarioStart [])).2
    = (handleMovement "ArrowRight" (scenarioStart [])).2.
Proof.
  refine (proj2 (running_move_drops_input "ArrowLeft"
                   (handleMovement "ArrowRight" (scenarioStart [])).2
                   _ eq_refl _)).
  left. reflexivity.
Defined.

Lemma accepted_key_not_ignored (key : string) (s : LevelComponent)
    (lvl : Level.t) (b : BulldozerSprite.t) (d : Direction) (dx dy : Z) :
  accepts s lvl b -> keyStep key = Some (d, dx, dy) ->
  (handleMovement key s).1 <> Ignored.
Proof.
  intros (Hlvl & Hb & Hdone & Hset) Hkey.
  open_gates Hlvl Hb Hdone Hset Hkey. by repeat case_match.
Qed.

Lemma settled_dec (s : LevelComponent) : settled s \/ ~ settled s.
Proof.
  unfold settled.
  destruct (decide (Forall (fun c => CrateSprite.isMoving c = false)
                      (crateSprites s))) as [Hc|Hc]; [|right; tauto].
  destruct (bulldozerSprite s) as [b|]; simpl; [|by left].
  destruct (BulldozerSprite.isMoving b); [right|left]; [|done].
  intros [? _]. done.
Qed.

(** X3: [handleMovement] returns without touching anything exactly when
    there is no level or no bulldozer, the level is complete, a sprite is in
    the middle of a move, or the key is none of the four arrow keys; and
    then the component is unchanged. *)
Theorem ignored_exactly_when_gated (key : string) (s : LevelComponent) :
  ((handleMovement key s).1 = Ignored <->
   level s = None \/ bulldozerSprite s = None \/ isLevelComplete s = true \/
   ~ settled s \/ keyStep key = None) /\
  ((handleMovement key s).1 = Ignored -> (handleMovement key s).2 = s) /\
  (keyStep key = None <->
   key <> "ArrowUp" /\ key <> "ArrowDown" /\ key <> "ArrowLeft" /\
   key <> "ArrowRight").
Proof.
  split; [|split].
  - split.
    + intros Hign.
      destruct (level s) as [lvl|] eqn:Hlvl; [|by left].
      destruct (bulldozerSprite s) as [b|] eqn:Hb; [|by right; left].
      destruct (isLevelComplete s) eqn:Hdone; [by right; right; left|].
      destruct (settled_dec s) as [Hset|Hset]; [|by right; right; right; left].
      destruct (keyStep key) as [[[d dx] dy]|] eqn:Hkey;
        [|by right; right; right; right].
      by destruct (accepted_key_not_ignored key s lvl b d dx dy).
    + intros H. pose proof (handleMovement_resolved key s) as Hres.
      inversion Hres as [ Ho Hs
                        | lvl b d dx dy (Hlvl & Hb & Hdone & Hset) Hkey _ Ho Hs
                        | lvl b d dx dy (Hlvl & Hb & Hdone & Hset) Hkey _ _ _ Ho Hs
                        | lvl b d dx dy i c (Hlvl & Hb & Hdone & Hset) Hkey
                            _ _ _ _ _ _ Ho Hs ];
        destruct H as [H|[H|[H|[H|H]]]]; first [congruence | done].
  - intros Hign. pose proof (handleMovement_resolved key s) as Hres.
    inversion Hres as [ Ho Hs | ? ? ? ? ? ? ? ? Ho Hs | ? ? ? ? ? ? ? ? ? ? Ho Hs
                      | ? ? ? ? ? ? ? ? ? ? ? ? ? ? ? Ho Hs ];
      congruence.
  - unfold keyStep.
    destruct (String.eqb_spec key "ArrowUp") as [->|?]; [split; [done|tauto]|].
    destruct (String.eqb_spec key "ArrowDown") as [->|?];
      [split; [done|tauto]|].
    destruct (String.eqb_spec key "ArrowLeft") as [->|?];
      [split; [done|tauto]|].
    destruct (String.eqb_spec key "ArrowRight") as [->|?];
      [split; [done|tauto]|].
    done.
Qed.

(** X4: a key press changes the cell of no crate at once, and once the
    move has completed at most one crate differs from before: there is no
    chain pushing. *)
Theorem at_most_one_crate_moves (key : string) (s : LevelComponent) :
  settled s ->
  CrateSprite.cell <$> crateSprites (handleMovement key s).2
    = CrateSprite.cell <$> crateSprites s /\
  length (crateSprites (update (handleMovement key s).2))
    = length (crateSprites s) /\
  exists i, forall j, j <> i ->
    crateSprites (update (handleMovement key s).2) !! j = crateSprites s !! j.
Proof.
  intros Hset. pose proof (handleMovement_resolved key s) as Hres.
  pose proof (update_settled s Hset) as Hupd.
  destruct (handleMovement key s) as [o s1]. simpl in Hres.
  inversion Hres as [
                    | lvl b d dx dy Hacc Hkey _
                    | lvl b d dx dy Hacc Hkey _ _ _
                    | lvl b d dx dy i c Hacc Hkey _ _ Hfirst _ _ _ ]; subst;
    cbn [fst snd update crateSprites turned set_bulldozerSprite moving].
  - rewrite Hupd. split; [done|]. split; [done|]. by exists 0%nat.
  - rewrite Hupd. split; [done|]. split; [done|]. by exists 0%nat.
  - rewrite Hupd. split; [done|]. split; [done|]. by exists 0%nat.
  - destruct Hfirst as (Hi & _ & _).
    assert (Hc : CrateSprite.isMoving c = false) by by eapply settled_crate.
    split; [|split].
    + apply list_eq. intros j. rewrite !list_lookup_fmap.
      destruct (decide (j = i)) as [->|Hne].
      * rewrite list_lookup_insert_eq by by eapply lookup_lt_Some.
        rewrite Hi. simpl. unfold CrateSprite.startMoveTo. by rewrite Hc.
      * by rewrite list_lookup_insert_ne.
    + by rewrite length_fmap, length_insert.
    + exists i. intros j Hne.
      rewrite list_lookup_fmap, list_lookup_insert_ne by done.
      by rewrite <- list_lookup_fmap, Hupd.
Qed.

Lemma at_most_one_crate_moves_witness :
  exists i, forall j, j <> i ->
    crateSprites (update (handleMovement "ArrowRight" lineStart).2) !! j
      = crateSprites lineStart !! j.
Proof.
  refine (proj2 (proj2 (at_most_one_crate_moves "ArrowRight" lineStart _))).
  split; [reflexivity|]. repeat constructor.
Defined.

Lemma moveCount_handleMovement (key : string) (s : LevelComponent) :
  moveCount s <= moveCount (handleMovement key s).2 <= moveCount s + 1.
Proof.
  pose proof (handleMovement_resolved key s) as Hres.
  destruct (handleMovement key s) as [o s1]. simpl in *.
  inversion Hres; subst; simpl; lia.
Qed.

Lemma moveCount_undoLastMove (s : LevelComponent) :
  0 <= moveCount s ->
  0 <= moveCount (undoLastMove s) <= moveCount s.
Proof.
  intros Hm. unfold undoLastMove. repeat case_match; simpl; try lia.
  all: destruct (Z.gtb_spec (moveCount s) 0); lia.
Qed.

Lemma moveCount_checkLevelCompletion (s : LevelComponent) :
  moveCount (checkLevelCompletion s) = moveCount s.
Proof. unfold checkLevelCompletion. by repeat case_match. Qed.

Lemma moveCount_run (s : LevelComponent) (events : list Event) :
  0 <= moveCount s ->
  0 <= moveCount (run s events) <= moveCount s + keyPresses events.
Proof.
  revert s. induction events as [|e events IH]; intros s Hs.
  - unfold keyPresses. simpl. lia.
  - assert (Hstep : 0 <= moveCount (step s e)
                    <= moveCount s + keyPresses [e]).
    { destruct e; unfold keyPresses; simpl.
      - pose proof (moveCount_handleMovement key s). lia.
      - pose proof (moveCount_undoLastMove s Hs). lia.
      - lia.
      - rewrite moveCount_checkLevelCompletion. lia. }
    specialize (IH (step s e) ltac:(lia)).
    change (run s (e :: events)) with (run (step s e) events).
    assert (keyPresses (e :: events) = keyPresses [e] + keyPresses events).
    { unfold keyPresses. destruct e; simpl; lia. }
    lia.
Qed.

(** X5: from the load of a level on, whatever is pressed, the move counter
    is never negative and never larger than the number of key presses. *)
Theorem moveCount_within_key_presses (lvl : Level.t) (events : list Event) :
  0 <= moveCount (run (loadLevel None lvl newLevelComponent) events)
    <= keyPresses events.
Proof.
  pose proof (moveCount_run (loadLevel None lvl newLevelComponent) events)
    as H.
  simpl in H. specialize (H ltac:(lia)). lia.
Qed.

Lemma step_level (s : LevelComponent) (e : Event) :
  level (step s e) = level s /\
  (isLevelComplete s = true -> isLevelComplete (step s e) = true).
Proof.
  destruct e; simpl.
  - pose proof (handleMovement_resolved key s) as Hres.
    destruct (handleMovement key s) as [o s1]. simpl in *.
    by inversion Hres; subst.
  - unfold undoLastMove. by repeat case_match.
  - done.
  - unfold checkLevelCompletion. by repeat case_match.
Qed.

(** X6: play never changes the level it runs on, and once the completion
    flag is set no key press, undo, frame or completion check clears it. *)
Theorem play_keeps_level_and_completion (s : LevelComponent)
    (events : list Event) :
  level (run s events) = level s /\
  (isLevelComplete s = true -> isLevelComplete (run s events) = true).
Proof.
  revert s. induction events as [|e events IH]; intros s; [done|].
  change (run s (e :: events)) with (run (step s e) events).
  destruct (IH (step s e)) as [H1 H2], (step_level s e) as [H3 H4].
  split; [congruence | auto].
Qed.

(** X7: an undo right after a completed move puts the bulldozer and every
    crate back on the cells they had before the move, brings a counter that
    was not negative back to its value, and clears the record, so that a
    second undo changes nothing; the facing it sets is the direction of the
    undone move. *)
Theorem undo_restores_cells_and_counter (key : string)
    (s s1 : LevelComponent) :
  handleMovement key s = (Moved, s1) ->
  exists b b2 d dx dy,
    bulldozerSprite s = Some b /\ keyStep key = Some (d, dx, dy) /\
    bulldozerSprite (undoLastMove (update s1)) = Some b2 /\
    BulldozerSprite.position b2 = BulldozerSprite.position b /\
    BulldozerSprite.direction b2 = d /\
    CrateSprite.cell <$> crateSprites (undoLastMove (update s1))
      = CrateSprite.cell <$> crateSprites s /\
    (0 <= moveCount s -> moveCount (undoLastMove (update s1)) = moveCount s) /\
    lastMove (undoLastMove (update s1)) = None /\
    undoLastMove (undoLastMove (update s1)) = undoLastMove (update s1).
Proof. apply undo_after_move. Qed.

Lemma undo_restores_cells_and_counter_witness :
  exists b b2 d dx dy,
    bulldozerSprite lineStart = Some b /\
    keyStep "ArrowDown" = Some (d, dx, dy) /\
    bulldozerSprite
      (undoLastMove (update (handleMovement "ArrowDown" lineStart).2))
      = Some b2 /\
    BulldozerSprite.position b2 = BulldozerSprite.position b /\
    BulldozerSprite.direction b2 = d /\
    CrateSprite.cell <$>
      crateSprites
        (undoLastMove (update (handleMovement "ArrowDown" lineStart).2))
      = CrateSprite.cell <$> crateSprites lineStart /\
    (0 <= moveCount lineStart ->
     moveCount (undoLastMove (update (handleMovement "ArrowDown" lineStart).2))
       = moveCount lineStart) /\
    lastMove (undoLastMove (update (handleMovement "ArrowDown" lineStart).2))
      = None /\
    undoLastMove
      (undoLastMove (update (handleMovement "ArrowDown" lineStart).2))
      = undoLastMove (update (handleMovement "ArrowDown" lineStart).2).
Proof.
  exact (undo_restores_cells_and_counter "ArrowDown" lineStart
           (handleMovement "ArrowDown" lineStart).2 eq_refl).
Defined.

(** X8: a blocked attempt does not use up or alter the retained undo
    record: the undo after it gives the component that the undo before it
    would have given. *)
Theorem blocked_attempt_keeps_undo (key : string) (s s' : LevelComponent)
    (last : LastMove.t) :
  lastMove s = Some last ->
  handleMovement key s = (Blocked, s') ->
  undoLastMove s' = undoLastMove s.
Proof.
  intros Hlast H. pose proof (handleMovement_resolved key s) as Hres.
  rewrite H in Hres. simpl in Hres.
  inversion Hres as [| lvl b d dx dy (Hlvl & Hb & Hdone & Hset) Hkey _ | |];
    subst.
  rewrite (undoLastMove_settled s last b) by done.
  rewrite (undoLastMove_settled (turned d b s) last
             (BulldozerSprite.setDirection d b)); [done..|].
  destruct Hset as [Hm Hc]. split; [|done]. simpl. by rewrite Hb in Hm.
Qed.

Lemma blocked_attempt_keeps_undo_witness :
  undoLastMove
    (handleMovement "ArrowRight"
       (update (handleMovement "ArrowRight" (scenarioStart [])).2)).2
  = undoLastMove (update (handleMovement "ArrowRight" (scenarioStart [])).2).
Proof.
  exact (blocked_attempt_keeps_undo "ArrowRight"
           (update (handleMovement "ArrowRight" (scenarioStart [])).2) _ _
           eq_refl eq_refl).
Defined.

(** ** Where play can take the sprites *)

Lemma bulldozerRestCell_settled (b : BulldozerSprite.t) :
  BulldozerSprite.isMoving b = false -> bulldozerRestCell b = bulldozerCell b.
Proof.
  intros H. unfold bulldozerRestCell, BulldozerSprite.update. by rewrite H.
Qed.

Lemma bulldozerRestCell_update (b : BulldozerSprite.t) :
  bulldozerRestCell (BulldozerSprite.update b) = bulldozerRestCell b.
Proof.
  unfold bulldozerRestCell, BulldozerSprite.update.
  by destruct (BulldozerSprite.isMoving b) eqn:E; simpl; rewrite ?E.
Qed.

Lemma bulldozerRestCell_startMoveTo (b : BulldozerSprite.t) (q : Position.t) :
  BulldozerSprite.isMoving b = false ->
  bulldozerRestCell (BulldozerSprite.startMoveTo q b) = q.
Proof.
  intros H.
  unfold bulldozerRestCell, BulldozerSprite.startMoveTo, BulldozerSprite.update.
  rewrite H. simpl. unfold bulldozerCell. simpl. by rewrite roundPos_id.
Qed.

Lemma settled_bulldozer (s : LevelComponent) (b : BulldozerSprite.t) :
  settled s -> bulldozerSprite s = Some b -> BulldozerSprite.isMoving b = false.
Proof. intros [Hm _] Hb. by rewrite Hb in Hm. Qed.

Section SpritesOn.

Variable P : Position.t -> Prop.
Variable lvl : Level.t.
Hypothesis floor_P : forall p, floorCell lvl p -> P p.

Lemma spritesOn_handleMovement (key : string) (s : LevelComponent) :
  level s = Some lvl -> spritesOn P s -> spritesOn P (handleMovement key s).2.
Proof.
  intros Hlevel (Hbull & Hcrates & Hlast).
  pose proof (handleMovement_resolved key s) as Hres.
  destruct (handleMovement key s) as [o s1]. simpl in Hres |- *.
  inversion Hres as [
      | lvl' b d dx dy (Hlvl & Hb & Hdone & Hset) Hkey _
      | lvl' b d dx dy (Hlvl & Hb & Hdone & Hset) Hkey Hin Hwall _
      | lvl' b d dx dy i c (Hlvl & Hb & Hdone & Hset) Hkey Hin Hwall Hfirst
          Hin' Hwall' _ ]; subst.
  - done.
  - split; [|done]. intros b' [= <-].
    pose proof (settled_bulldozer s b Hset Hb) as Hm.
    destruct (Hbull b Hb) as [Hcell _].
    rewrite bulldozerRestCell_settled by done. by split.
  - assert (lvl' = lvl) as -> by congruence.
    pose proof (settled_bulldozer s b Hset Hb) as Hm.
    destruct (Hbull b Hb) as [Hcell _].
    split; [|split; [done|]].
    + intros b' [= <-]. split.
      * unfold BulldozerSprite.startMoveTo. simpl. by rewrite Hm.
      * rewrite bulldozerRestCell_startMoveTo by done. by apply floor_P.
    + intros last [= <-]. simpl. split; [done|]. done.
  - assert (lvl' = lvl) as -> by congruence.
    pose proof (settled_bulldozer s b Hset Hb) as Hm.
    destruct (Hbull b Hb) as [Hcell _].
    destruct Hfirst as (Hi & _ & _).
    assert (Hc : CrateSprite.isMoving c = false) by by eapply settled_crate.
    destruct (Hcrates i c Hi) as [Hccell _].
    split; [|split].
    + intros b' [= <-]. split.
      * unfold BulldozerSprite.startMoveTo. simpl. by rewrite Hm.
      * rewrite bulldozerRestCell_startMoveTo by done. by apply floor_P.
    + intros j c' Hj. simpl in Hj.
      apply list_lookup_insert_Some in Hj as [(-> & <- & _)|[_ Hj]];
        [|by apply (Hcrates j c')].
      split.
      * unfold CrateSprite.startMoveTo. by rewrite Hc.
      * rewrite restCell_startMoveTo by done. by apply floor_P.
    + intros last [= <-]. simpl. split; [done|]. by intros p [= <-].
Qed.

Lemma spritesOn_undoLastMove (s : LevelComponent) :
  spritesOn P s -> spritesOn P (undoLastMove s).
Proof.
  intros Hs. pose proof Hs as (Hbull & Hcrates & Hlast). unfold undoLastMove.
  destruct (lastMove s) as [last|] eqn:Hl; [|done].
  destruct (bulldozerSprite s) as [b|] eqn:Hb; [|done].
  destruct (BulldozerSprite.isAnimating b) eqn:Hidle; [done|].
  destruct (some CrateSprite.isAnimating (crateSprites s)) eqn:Hcs; [done|].
  rewrite some_false in Hcs. destruct (Hlast last eq_refl) as [Hbpos Hcpos].
  split; [|split; [|done]].
  - intros b' [= <-].
    rewrite bulldozerRestCell_settled by done.
    unfold bulldozerCell. simpl. by rewrite roundPos_id.
  - intros j c' Hj. simpl in Hj.
    destruct (LastMove.cratePos last) as [p|]; [|by apply (Hcrates j c')].
    destruct (LastMove.crateIndex last) as [i|]; [|by apply (Hcrates j c')].
    destruct (crateSprites s !! i) as [c|] eqn:Hi; [|by apply (Hcrates j c')].
    apply list_lookup_insert_Some in Hj as [(-> & <- & _)|[_ Hj]];
      [|by apply (Hcrates j c')].
    assert (Hc : CrateSprite.isMoving c = false).
    { apply Hcs. by eapply list_elem_of_lookup_2. }
    rewrite (restCell_settled (CrateSprite.setPosition p c)) by done.
    unfold CrateSprite.cell. simpl. rewrite roundPos_id. by split; apply Hcpos.
Qed.

Lemma spritesOn_update (s : LevelComponent) :
  spritesOn P s -> spritesOn P (update s).
Proof.
  intros (Hbull & Hcrates & Hlast). split; [|split; [|done]]; simpl.
  - intros b' Hb'. destruct (bulldozerSprite s) as [b|]; [|done].
    injection Hb' as <-. rewrite bulldozerRestCell_update.
    destruct (Hbull b eq_refl) as [_ H]. by split.
  - intros j c' Hj. apply list_lookup_fmap_Some in Hj as (c & -> & Hj).
    rewrite restCell_update. destruct (Hcrates j c Hj) as [_ H]. by split.
Qed.

Lemma spritesOn_checkLevelCompletion (s : LevelComponent) :
  spritesOn P s -> spritesOn P (checkLevelCompletion s).
Proof. intros H. unfold checkLevelCompletion. by repeat case_match. Qed.

Lemma spritesOn_run (s : LevelComponent) (events : list Event) :
  level s = Some lvl -> spritesOn P s -> spritesOn P (run s events).
Proof.
  revert s. induction events as [|e events IH]; intros s Hlevel Hs; [done|].
  change (run s (e :: events)) with (run (step s e) events).
  apply IH.
  - by rewrite (proj1 (step_level s e)).
  - destruct e; simpl.
    + by apply spritesOn_handleMovement.
    + by apply spritesOn_undoLastMove.
    + by apply spritesOn_update.
    + by apply spritesOn_checkLevelCompletion.
Qed.

Lemma spritesOn_loadLevel (levelNumber : option Z) (s0 : LevelComponent) :
  P (Level.playerStartPosition lvl) ->
  Forall (fun c => P (Crate.position c)) (Level.crates lvl) ->
  recordOn P s0 ->
  spritesOn P (loadLevel levelNumber lvl s0).
Proof.
  intros Hstart Hcrates Hrecord. split; [|split; [|exact Hrecord]]; simpl.
  - intros b [= <-]. unfold bulldozerRestCell, bulldozerCell. simpl.
    by rewrite roundPos_id.
  - intros i c Hc. apply list_lookup_fmap_Some in Hc as (crate & -> & Hc).
    rewrite Forall_lookup in Hcrates. specialize (Hcrates i crate Hc).
    unfold restCell, CrateSprite.cell. simpl. by rewrite roundPos_id.
Qed.

End SpritesOn.

(** X9: a level that the validator accepts may be loaded into any
    component whose undo record, if it holds one, names only cells on the
    field of the level (so into every component without a record, as at the
    first load); then, whatever is pressed after the load, the bulldozer
    and every crate stay on the field. *)
Theorem validated_level_keeps_sprites_on_field (levelNumber : option Z)
    (lvl : Level.t) (s0 : LevelComponent) (events : list Event) :
  validateLevel lvl = Return true ->
  recordOn (inBounds lvl) s0 ->
  (forall b,
     bulldozerSprite (run (loadLevel levelNumber lvl s0) events) = Some b ->
     inBounds lvl (BulldozerSprite.position b)) /\
  (forall c,
     c ∈ crateSprites (run (loadLevel levelNumber lvl s0) events) ->
     inBounds lvl (CrateSprite.position c)).
Proof.
  intros Hvalid Hrecord.
  destruct (validateLevel_cases lvl) as [[Hwf _]|(e & He & _)]; [|congruence].
  destruct Hwf as (_ & _ & _ & Hstart & _ & Hcrates & _).
  pose proof (spritesOn_run (inBounds lvl) lvl ltac:(by intros p [? _])
                (loadLevel levelNumber lvl s0) events eq_refl
                (spritesOn_loadLevel (inBounds lvl) lvl levelNumber s0
                   Hstart Hcrates Hrecord))
    as (Hb & Hc & _).
  split.
  - intros b Hb'. destruct (Hb b Hb') as [H _].
    unfold bulldozerCell in H. by rewrite roundPos_id in H.
  - intros c Hin. apply list_elem_of_lookup in Hin as [i Hi].
    destruct (Hc i c Hi) as [H _].
    unfold CrateSprite.cell in H. by rewrite roundPos_id in H.
Qed.

Lemma validated_level_keeps_sprites_on_field_witness :
  validateLevel lineLevel = Return true /\
  lastMove (update (handleMovement "ArrowRight" (scenarioStart [])).2)
    <> None /\
  ((forall b,
      bulldozerSprite
        (run (loadLevel (Some 2) lineLevel
                (update (handleMovement "ArrowRight" (scenarioStart [])).2))
           [UndoKey; KeyDown "ArrowDown"; Frame; KeyDown "ArrowRight"; Frame;
            UndoKey]) = Some b ->
      inBounds lineLevel (BulldozerSprite.position b)) /\
   (forall c,
      c ∈ crateSprites
            (run (loadLevel (Some 2) lineLevel
                    (update (handleMovement "ArrowRight" (scenarioStart [])).2))
               [UndoKey; KeyDown "ArrowDown"; Frame; KeyDown "ArrowRight";
                Frame; UndoKey]) ->
      inBounds lineLevel (CrateSprite.position c))).
Proof.
  split; [reflexivity|]. split; [discriminate|].
  refine (validated_level_keeps_sprites_on_field (Some 2) lineLevel
            (update (handleMovement "ArrowRight" (scenarioStart [])).2) _
            eq_refl _).
  intros last Hlast. vm_compute in Hlast. injection Hlast as <-. simpl.
  split; [cells; lia|]. intros p Hp. injection Hp as <-. cells. lia.
Defined.

(** X10: when the player start and every crate of a level are on cells of
    the field that are no walls, and the level is loaded into a component
    whose undo record, if it holds one, names only such cells (so into
    every component without a record, as at the first load), then,
    whatever is pressed after the load, the bulldozer and every crate stand
    on such cells. *)
Theorem sprites_stay_off_walls (levelNumber : option Z) (lvl : Level.t)
    (s0 : LevelComponent) (events : list Event) :
  floorCell lvl (Level.playerStartPosition lvl) ->
  Forall (fun c => floorCell lvl (Crate.position c)) (Level.crates lvl) ->
  recordOn (floorCell lvl) s0 ->
  (forall b,
     bulldozerSprite (run (loadLevel levelNumber lvl s0) events) = Some b ->
     floorCell lvl (BulldozerSprite.position b)) /\
  (forall c,
     c ∈ crateSprites (run (loadLevel levelNumber lvl s0) events) ->
     floorCell lvl (CrateSprite.position c)).
Proof.
  intros Hstart Hcrates Hrecord.
  pose proof (spritesOn_run (floorCell lvl) lvl ltac:(done)
                (loadLevel levelNumber lvl s0) events eq_refl
                (spritesOn_loadLevel (floorCell lvl) lvl levelNumber s0
                   Hstart Hcrates Hrecord))
    as (Hb & Hc & _).
  split.
  - intros b Hb'. destruct (Hb b Hb') as [H _].
    unfold bulldozerCell in H. by rewrite roundPos_id in H.
  - intros c Hin. apply list_elem_of_lookup in Hin as [i Hi].
    destruct (Hc i c Hi) as [H _].
    unfold CrateSprite.cell in H. by rewrite roundPos_id in H.
Qed.

Lemma sprites_stay_off_walls_witness :
  lastMove (update (handleMovement "ArrowRight" (scenarioStart [])).2)
    <> None /\
  ((forall b,
      bulldozerSprite
        (run (loadLevel None (scenarioLevel [Position.mk 3 1])
                (update (handleMovement "ArrowRight" (scenarioStart [])).2))
           [UndoKey; KeyDown "ArrowRight"; KeyDown "ArrowDown"; Frame;
            KeyDown "ArrowUp"; Frame; UndoKey]) = Some b ->
      floorCell (scenarioLevel [Position.mk 3 1])
        (BulldozerSprite.position b)) /\
   (forall c,
      c ∈ crateSprites
            (run (loadLevel None (scenarioLevel [Position.mk 3 1])
                    (update (handleMovement "ArrowRight" (scenarioStart [])).2))
               [UndoKey; KeyDown "ArrowRight"; KeyDown "ArrowDown"; Frame;
                KeyDown "ArrowUp"; Frame; UndoKey]) ->
      floorCell (scenarioLevel [Position.mk 3 1]) (CrateSprite.position c))).
Proof.
  assert (Hfloor : forall x y, 0 <= x < 3 -> 0 <= y < 4 ->
            floorCell (scenarioLevel [Position.mk 3 1]) (Position.mk x y)).
  { intros x y Hx Hy. split; [cells; lia|]. intros Hin.
    apply list_elem_of_singleton in Hin. injection Hin as Hx' _. lia. }
  split; [discriminate|].
  refine (sprites_stay_off_walls None (scenarioLevel [Position.mk 3 1])
            (update (handleMovement "ArrowRight" (scenarioStart [])).2) _
            _ _ _).
  - apply Hfloor; lia.
  - apply Forall_cons. split; [|apply Forall_nil_2]. apply Hfloor; lia.
  - intros last Hlast. vm_compute in Hlast. injection Hlast as <-. simpl.
    split; [apply Hfloor; lia|]. intros p Hp. injection Hp as <-.
    apply Hfloor; lia.
Defined.

Lemma shift_unit_neq (p : Position.t) (dx dy : Z) :
  Z.abs dx + Z.abs dy = 1 -> Position.shift p dx dy <> p.
Proof.
  intros H Heq. destruct p as [px py]. unfold Position.shift in Heq.
  simpl in Heq. injection Heq as Hx Hy. lia.
Qed.

Lemma apart_handleMovement (key : string) (s : LevelComponent) :
  exclusive s -> apart s -> apart (handleMovement key s).2.
Proof.
  intros (Hdistinct & _ & _) Hs. pose proof Hs as [Hnow Hundo].
  pose proof (handleMovement_resolved key s) as Hres.
  destruct (handleMovement key s) as [o s1]. simpl in Hres |- *.
  inversion Hres as [
      | lvl b d dx dy (Hlvl & Hb & Hdone & Hset) Hkey _
      | lvl b d dx dy (Hlvl & Hb & Hdone & Hset) Hkey _ _ Hfree
      | lvl b d dx dy i c (Hlvl & Hb & Hdone & Hset) Hkey _ _ Hfirst
          _ _ _ ]; subst.
  - done.
  - pose proof (settled_bulldozer s b Hset Hb) as Hm.
    split; [|done]. intros b' j c [= <-] Hj. simpl in Hj.
    rewrite bulldozerRestCell_settled by done.
    destruct (Hnow b j c Hb Hj) as [H1 _]. split; [done|].
    rewrite restCell_settled by by eapply settled_crate. done.
  - pose proof (settled_bulldozer s b Hset Hb) as Hm.
    assert (Hrest : forall j c, crateSprites s !! j = Some c ->
              CrateSprite.cell c <> bulldozerCell b /\
              restCell c = CrateSprite.cell c).
    { intros j c Hj. destruct (Hnow b j c Hb Hj) as [H1 _].
      split; [done|]. apply restCell_settled. by eapply settled_crate. }
    split.
    + intros b' j c [= <-] Hj. simpl in Hj.
      destruct (Hrest j c Hj) as [H1 H2]. split.
      * unfold BulldozerSprite.startMoveTo. simpl. by rewrite Hm.
      * rewrite bulldozerRestCell_startMoveTo, H2 by done. by eapply Hfree.
    + intros last [= <-]. simpl. split; [done|]. intros j c Hj. right.
      destruct (Hrest j c Hj) as [H1 H2]. rewrite H2.
      unfold bulldozerCell in H1. done.
  - pose proof (settled_bulldozer s b Hset Hb) as Hm.
    pose proof (keyStep_unit key d dx dy Hkey) as Hunit.
    destruct Hfirst as (Hi & Hcell & _).
    assert (Hc : CrateSprite.isMoving c = false) by by eapply settled_crate.
    assert (Hrest : forall j cj, crateSprites s !! j = Some cj ->
              CrateSprite.cell cj <> bulldozerCell b /\
              restCell cj = CrateSprite.cell cj /\
              (j <> i -> CrateSprite.cell cj <> targetOf b dx dy)).
    { intros j cj Hj. destruct (Hnow b j cj Hb Hj) as [H1 _].
      split; [done|]. split.
      - apply restCell_settled. by eapply settled_crate.
      - intros Hne Heq. apply Hne. eapply Hdistinct; [done..|congruence]. }
    split.
    + intros b' j c' [= <-] Hj. simpl in Hj.
      rewrite bulldozerRestCell_startMoveTo by done.
      assert (bulldozerCell
                (BulldozerSprite.startMoveTo (targetOf b dx dy)
                   (BulldozerSprite.setDirection d b)) = bulldozerCell b)
        as ->.
      { unfold BulldozerSprite.startMoveTo. simpl. by rewrite Hm. }
      apply list_lookup_insert_Some in Hj as [(-> & <- & _)|[Hne Hj]].
      * rewrite restCell_startMoveTo by done. split.
        -- unfold CrateSprite.startMoveTo. rewrite Hc.
           by destruct (Hrest j c Hi).
        -- by apply shift_unit_neq.
      * destruct (Hrest j c' Hj) as (H1 & H2 & H3). split; [done|].
        rewrite H2. by apply H3.
    + intros last [= <-]. simpl. split.
      * intros p [= <-]. rewrite Hcell. by apply shift_unit_neq.
      * intros j c' Hj.
        apply list_lookup_insert_Some in Hj as [(-> & <- & _)|[Hne Hj]].
        -- left. by split.
        -- right. destruct (Hrest j c' Hj) as (H1 & H2 & _). by rewrite H2.
Qed.

Lemma apart_undoLastMove (s : LevelComponent) :
  apart s -> apart (undoLastMove s).
Proof.
  intros Hs. pose proof Hs as [Hnow Hundo]. unfold undoLastMove.
  destruct (lastMove s) as [last|] eqn:Hl; [|done].
  destruct (bulldozerSprite s) as [b|] eqn:Hb; [|done].
  destruct (BulldozerSprite.isAnimating b) eqn:Hidle; [done|].
  destruct (some CrateSprite.isAnimating (crateSprites s)) eqn:Hcs; [done|].
  rewrite some_false in Hcs.
  destruct (Hundo last eq_refl) as [Hp Hothers].
  split; [|done]. intros b' j c' [= <-] Hj. simpl in Hj.
  rewrite bulldozerRestCell_settled by done.
  assert (bulldozerCell
            (BulldozerSprite.setDirection (LastMove.bulldozerDirection last)
               (BulldozerSprite.setPosition (LastMove.bulldozerPos last) b))
          = LastMove.bulldozerPos last) as ->.
  { unfold bulldozerCell. simpl. apply roundPos_id. }
  assert (Hsame : crateSprites s !! j = Some c' ->
            ~ (LastMove.crateIndex last = Some j /\
               is_Some (LastMove.cratePos last)) ->
            CrateSprite.cell c' <> LastMove.bulldozerPos last /\
            restCell c' <> LastMove.bulldozerPos last).
  { intros Hj' Hnot. by destruct (Hothers j c' Hj') as [?|?]. }
  destruct (LastMove.cratePos last) as [p|] eqn:Hcp;
    [|apply Hsame; [done|]; by intros [_ [? ?]]].
  destruct (LastMove.crateIndex last) as [i|] eqn:Hci;
    [|apply Hsame; [done|]; by intros [? _]].
  destruct (crateSprites s !! i) as [c|] eqn:Hi;
    [|apply Hsame; [done|]; intros [[= ->] _]; congruence].
  apply list_lookup_insert_Some in Hj as [(-> & <- & _)|[Hne Hj]].
  - assert (Hc : CrateSprite.isMoving c = false).
    { apply Hcs. by eapply list_elem_of_lookup_2. }
    rewrite (restCell_settled (CrateSprite.setPosition p c)) by done.
    unfold CrateSprite.cell. simpl. rewrite roundPos_id.
    split; by apply Hp.
  - apply Hsame; [done|]. intros [[= ->] _]. done.
Qed.

Lemma apart_update (s : LevelComponent) : apart s -> apart (update s).
Proof.
  intros [Hnow Hundo]. split; simpl.
  - intros b' j c' Hb' Hj.
    destruct (bulldozerSprite s) as [b|] eqn:Hb; [|done].
    injection Hb' as <-.
    apply list_lookup_fmap_Some in Hj as (c & -> & Hj).
    rewrite bulldozerRestCell_update, restCell_update.
    destruct (Hnow b j c eq_refl Hj) as [_ H]. by split.
  - intros last Hl. destruct (Hundo last Hl) as [Hp Hothers].
    split; [done|]. intros j c' Hj.
    apply list_lookup_fmap_Some in Hj as (c & -> & Hj).
    destruct (Hothers j c Hj) as [?|[_ H]]; [by left|right].
    rewrite restCell_update. by split.
Qed.

Lemma apart_checkLevelCompletion (s : LevelComponent) :
  apart s -> apart (checkLevelCompletion s).
Proof. intros H. unfold checkLevelCompletion. by repeat case_match. Qed.

Lemma apart_run (s : LevelComponent) (events : list Event) :
  exclusive s -> apart s -> apart (run s events).
Proof.
  revert s. induction events as [|e events IH]; intros s Hex Hs; [done|].
  change (run s (e :: events)) with (run (step s e) events).
  apply IH.
  - apply (exclusive_run s [e] Hex).
  - destruct e; simpl.
    + by apply apart_handleMovement.
    + by apply apart_undoLastMove.
    + by apply apart_update.
    + by apply apart_checkLevelCompletion.
Qed.

(** X11: in a level whose crates start on pairwise distinct cells, none of
    them on the player start, loaded into a component that holds no undo
    record (as at the first load, or when the last move before the load
    was undone), whatever is pressed after the load, no crate is ever on
    the cell of the bulldozer. *)
Theorem bulldozer_never_on_a_crate (levelNumber : option Z) (lvl : Level.t)
    (s0 : LevelComponent) (events : list Event) :
  NoDup (Crate.position <$> Level.crates lvl) ->
  Level.playerStartPosition lvl ∉ (Crate.position <$> Level.crates lvl) ->
  lastMove s0 = None ->
  forall b c,
    bulldozerSprite (run (loadLevel levelNumber lvl s0) events) = Some b ->
    c ∈ crateSprites (run (loadLevel levelNumber lvl s0) events) ->
    CrateSprite.position c <> BulldozerSprite.position b.
Proof.
  intros Hnodup Hstart Hnone b c Hb Hc.
  assert (Hinit : apart (loadLevel levelNumber lvl s0)).
  { split; [|by intros last; simpl; rewrite Hnone].
    simpl. intros b0 i c0 [= <-] Hi.
    apply list_lookup_fmap_Some in Hi as (crate & -> & Hi).
    unfold bulldozerRestCell, bulldozerCell, restCell, CrateSprite.cell.
    simpl. rewrite !roundPos_id.
    assert (Crate.position crate <> Level.playerStartPosition lvl).
    { intros Heq. apply Hstart. rewrite <- Heq.
      apply list_elem_of_fmap_2. by eapply list_elem_of_lookup_2. }
    done. }
  pose proof (apart_run _ events
                (exclusive_loadLevel levelNumber lvl s0 Hnodup Hnone) Hinit)
    as [Hnow _].
  apply list_elem_of_lookup in Hc as [i Hi].
  destruct (Hnow b i c Hb Hi) as [H _].
  unfold CrateSprite.cell, bulldozerCell in H. by rewrite !roundPos_id in H.
Qed.

Lemma bulldozer_never_on_a_crate_witness :
  (Level.playerStartPosition lineLevel
     ∉ (Crate.position <$> Level.crates lineLevel)) /\
  (forall b c,
     bulldozerSprite
       (run (loadLevel (Some 2) lineLevel
               (undoLastMove
                  (update (handleMovement "ArrowRight" (scenarioStart [])).2)))
          [UndoKey; KeyDown "ArrowDown"; Frame; KeyDown "ArrowRight"; Frame;
           KeyDown "ArrowUp"; Frame; UndoKey; KeyDown "ArrowRight"])
       = Some b ->
     c ∈ crateSprites
           (run (loadLevel (Some 2) lineLevel
                   (undoLastMove
                      (update
                         (handleMovement "ArrowRight" (scenarioStart [])).2)))
              [UndoKey; KeyDown "ArrowDown"; Frame; KeyDown "ArrowRight";
               Frame; KeyDown "ArrowUp"; Frame; UndoKey;
               KeyDown "ArrowRight"]) ->
     CrateSprite.position c <> BulldozerSprite.position b).
Proof.
  assert (Hstart : Level.playerStartPosition lineLevel
                     ∉ (Crate.position <$> Level.crates lineLevel)).
  { simpl. intros Hin. apply elem_of_cons in Hin as [Hin|Hin];
      [discriminate Hin|].
    apply list_elem_of_singleton in Hin. discriminate Hin. }
  split; [exact Hstart|].
  refine (bulldozer_never_on_a_crate (Some 2) lineLevel
            (undoLastMove
               (update (handleMovement "ArrowRight" (scenarioStart [])).2))
            _ _ Hstart eq_refl).
  simpl. apply NoDup_cons. split.
  - intros Hin. apply list_elem_of_singleton in Hin. discriminate Hin.
  - apply NoDup_cons. split; [|apply NoDup_nil_2].
    intros Hin. inversion Hin.
Defined.

(** ** Stuck crates *)

Lemma FixLevels_isWall_true (x y : Z) (walls : list Position.t) :
  FixLevels.isWall x y walls = true <-> Position.mk x y ∈ walls.
Proof.
  unfold FixLevels.isWall, some. rewrite existsb_exists. split.
  - intros ([wx wy] & Hin & Heq). simpl in Heq.
    apply andb_true_iff in Heq as [Hx Hy].
    apply Z.eqb_eq in Hx, Hy. subst. by apply list_elem_of_In.
  - intros Hin. exists (Position.mk x y). split; [by apply list_elem_of_In|].
    simpl. by rewrite !Z.eqb_refl.
Qed.

(** A cell that is floor passes neither test of [isCrateStuck] for a
    neighbour: it is no wall and on neither side off the field. *)
Lemma floorCell_tests (lvl : Level.t) (x y : Z) :
  floorCell lvl (Position.mk x y) ->
  FixLevels.isWall x y (Level.walls lvl) = false /\
  0 <= x < Level.width lvl /\ 0 <= y < Level.height lvl.
Proof.
  intros [[Hx Hy] Hwall]. simpl in Hx, Hy. split; [|done].
  destruct (FixLevels.isWall x y (Level.walls lvl)) eqn:E; [|done].
  by apply FixLevels_isWall_true in E.
Qed.

(** A crate is stuck only if a horizontal neighbour and a vertical
    neighbour are each blocked. *)
Lemma isCrateStuck_sides (p : Position.t) (walls : list Position.t)
    (width height : Z) :
  FixLevels.isCrateStuck p walls width height = true ->
  ((Position.x p =? 0)
     || FixLevels.isWall (Position.x p - 1) (Position.y p) walls
     || ((Position.x p =? width - 1)
           || FixLevels.isWall (Position.x p + 1) (Position.y p) walls))
    = true /\
  ((Position.y p =? 0)
     || FixLevels.isWall (Position.x p) (Position.y p - 1) walls
     || ((Position.y p =? height - 1)
           || FixLevels.isWall (Position.x p) (Position.y p + 1) walls))
    = true.
Proof.
  unfold FixLevels.isCrateStuck. intros H.
  destruct (_ && _) eqn:E in H; [|done].
  by apply andb_true_iff in E.
Qed.

(** X12: a crate that the repair script calls stuck cannot be pushed: as
    long as the bulldozer stands on a floor cell, no key press starts a move
    of that crate. *)
Theorem stuck_crate_is_never_pushed (key : string) (s : LevelComponent)
    (lvl : Level.t) (b : BulldozerSprite.t) (i : nat) (c : CrateSprite.t) :
  level s = Some lvl ->
  bulldozerSprite s = Some b ->
  floorCell lvl (BulldozerSprite.position b) ->
  crateSprites s !! i = Some c ->
  FixLevels.isCrateStuck (CrateSprite.position c) (Level.walls lvl)
    (Level.width lvl) (Level.height lvl) = true ->
  crateSprites (handleMovement key s).2 !! i = Some c.
Proof.
  intros Hlevel Hbull Hfloor Hi Hstuck.
  pose proof (handleMovement_resolved key s) as Hres.
  destruct (handleMovement key s) as [o s1]. simpl in Hres |- *.
  inversion Hres as [
      | lvl' b' d dx dy _ _ _
      | lvl' b' d dx dy _ _ _ _ _
      | lvl' b' d dx dy i' c' (Hlvl & Hb & _ & _) Hkey _ _ Hfirst
          Hin' Hwall' _ ]; subst; try done.
  simpl. destruct (decide (i' = i)) as [->|Hne];
    [|by rewrite list_lookup_insert_ne].
  exfalso.
  assert (lvl' = lvl) as -> by congruence.
  assert (b' = b) as -> by congruence.
  destruct Hfirst as (Hi' & Hcell & _).
  assert (c' = c) as -> by congruence.
  assert (Hnext : floorCell lvl (crateTargetOf b dx dy)) by done.
  apply isCrateStuck_sides in Hstuck as [Hh Hv].
  unfold crateTargetOf, targetOf in Hnext.
  unfold targetOf, CrateSprite.cell in Hcell.
  rewrite !roundPos_id in *.
  destruct (BulldozerSprite.position b) as [bx by'] eqn:Hbpos.
  destruct (CrateSprite.position c) as [cx cy] eqn:Hcpos.
  unfold Position.shift in Hcell, Hnext. simpl in *.
  injection Hcell as Hcx Hcy. subst cx cy.
  apply floorCell_tests in Hfloor as (Hw1 & Hx1 & Hy1).
  apply floorCell_tests in Hnext as (Hw2 & Hx2 & Hy2).
  unfold keyStep in Hkey.
  repeat case_match; try discriminate Hkey; injection Hkey as <- <- <-.
  - replace (bx + 0 + 0) with bx in * by lia.
    replace (bx + 0) with bx in * by lia.
    replace (by' + -1 - 1) with (by' + -1 + -1) in Hv by lia.
    replace (by' + -1 + 1) with by' in Hv by lia.
    rewrite Hw1, Hw2 in Hv.
    destruct (Z.eqb_spec (by' + -1) 0), (Z.eqb_spec (by' + -1)
      (Level.height lvl - 1)); simpl in Hv; first [done | lia].
  - replace (bx + 0 + 0) with bx in * by lia.
    replace (bx + 0) with bx in * by lia.
    replace (by' + 1 - 1) with by' in Hv by lia.
    rewrite Hw1, Hw2 in Hv.
    destruct (Z.eqb_spec (by' + 1) 0), (Z.eqb_spec (by' + 1)
      (Level.height lvl - 1)); simpl in Hv; first [done | lia].
  - replace (by' + 0 + 0) with by' in * by lia.
    replace (by' + 0) with by' in * by lia.
    replace (bx + -1 - 1) with (bx + -1 + -1) in Hh by lia.
    replace (bx + -1 + 1) with bx in Hh by lia.
    rewrite Hw1, Hw2 in Hh.
    destruct (Z.eqb_spec (bx + -1) 0), (Z.eqb_spec (bx + -1)
      (Level.width lvl - 1)); simpl in Hh; first [done | lia].
  - replace (by' + 0 + 0) with by' in * by lia.
    replace (by' + 0) with by' in * by lia.
    replace (bx + 1 - 1) with bx in Hh by lia.
    rewrite Hw1, Hw2 in Hh.
    destruct (Z.eqb_spec (bx + 1) 0), (Z.eqb_spec (bx + 1)
      (Level.width lvl - 1)); simpl in Hh; first [done | lia].
Qed.

Lemma stuck_crate_is_never_pushed_witness :
  FixLevels.isCrateStuck (Position.mk 3 0) (Level.walls cornerLevel)
    (Level.width cornerLevel) (Level.height cornerLevel) = true /\
  crateSprites
    (handleMovement "ArrowRight"
       (loadLevel None cornerLevel newLevelComponent)).2 !! 0%nat
  = Some (CrateSprite.new (Position.mk 3 0) (Some red)).
Proof.
  split; [reflexivity|].
  refine (stuck_crate_is_never_pushed "ArrowRight"
            (loadLevel None cornerLevel newLevelComponent) cornerLevel
            (BulldozerSprite.new (Position.mk 2 0) Down) 0%nat
            (CrateSprite.new (Position.mk 3 0) (Some red))
            eq_refl eq_refl _ eq_refl eq_refl).
  split; [cells; lia | apply not_elem_of_nil].
Defined.

(** ** Perimeter walls *)

Lemma elem_of_flat_map {A B} (f : A -> list B) (l : list A) (y : B) :
  y ∈ flat_map f l <-> exists x, x ∈ l /\ y ∈ f x.
Proof.
  rewrite list_elem_of_In, in_flat_map. split.
  - intros (x & Hx & Hy). exists x. by rewrite !list_elem_of_In.
  - intros (x & Hx & Hy). exists x. by rewrite <- !list_elem_of_In.
Qed.

Lemma createPerimeterWalls_elem (width height : Z) (p : Position.t) :
  1 <= width -> 1 <= height ->
  p ∈ GenerateLevels.createPerimeterWalls width height <->
  (0 <= Position.x p < width /\ 0 <= Position.y p < height) /\
  (Position.x p = 0 \/ Position.x p = width - 1 \/
   Position.y p = 0 \/ Position.y p = height - 1).
Proof.
  intros Hw Hh. destruct p as [x y]. simpl.
  unfold GenerateLevels.createPerimeterWalls.
  rewrite elem_of_app, !elem_of_flat_map. split.
  - intros [(a & Ha & Hp)|(a & Ha & Hp)]; apply elem_of_seqZ in Ha;
      apply elem_of_cons in Hp as [Hp|Hp%list_elem_of_singleton];
      injection Hp as -> ->; lia.
  - intros [[Hx Hy] Hborder].
    destruct (decide (y = 0)) as [->|Hy0].
    { left. exists x. split; [apply elem_of_seqZ; lia | left]. }
    destruct (decide (y = height - 1)) as [->|Hy1].
    { left. exists x. split; [apply elem_of_seqZ; lia | right; left]. }
    right. exists y. split; [apply elem_of_seqZ; lia|].
    destruct Hborder as [->|[->|[?|?]]]; [left | right; left | lia | lia].
Qed.

(** X13: for a field of at least one cell each way, the walls that
    [createPerimeterWalls] lays are exactly the cells of the field that lie
    on its border. *)
Theorem perimeter_walls_are_the_border (width height : Z) (p : Position.t) :
  1 <= width -> 1 <= height ->
  p ∈ GenerateLevels.createPerimeterWalls width height <->
  (0 <= Position.x p < width /\ 0 <= Position.y p < height) /\
  (Position.x p = 0 \/ Position.x p = width - 1 \/
   Position.y p = 0 \/ Position.y p = height - 1).
Proof. apply createPerimeterWalls_elem. Qed.

Lemma perimeter_walls_are_the_border_witness :
  Position.mk 3 1 ∈ GenerateLevels.createPerimeterWalls 4 4.
Proof.
  apply (perimeter_walls_are_the_border 4 4 (Position.mk 3 1)); simpl; lia.
Defined.

(** X14: in a level whose walls include the perimeter walls, the four
    neighbours of a floor cell are on the field: from a floor cell the
    bulldozer never runs into the edge of the field, only into walls. *)
Theorem perimeter_walls_fence_the_field (lvl : Level.t) (p : Position.t)
    (dx dy : Z) :
  (forall q, q ∈ GenerateLevels.createPerimeterWalls
                   (Level.width lvl) (Level.height lvl) ->
             q ∈ Level.walls lvl) ->
  floorCell lvl p ->
  Z.abs dx + Z.abs dy = 1 ->
  inBounds lvl (Position.shift p dx dy).
Proof.
  intros Hwalls [[Hx Hy] Hfloor] Hunit.
  assert (Hinner : ~ (Position.x p = 0 \/ Position.x p = Level.width lvl - 1 \/
                      Position.y p = 0 \/ Position.y p = Level.height lvl - 1)).
  { intros Hborder. apply Hfloor, Hwalls.
    apply createPerimeterWalls_elem; [lia..|]. done. }
  unfold inBounds, Position.shift. simpl. lia.
Qed.

Lemma perimeter_walls_fence_the_field_witness :
  inBounds (scenarioLevel borderCells)
    (Position.shift (Position.mk 1 1) 1 0).
Proof.
  apply (perimeter_walls_fence_the_field (scenarioLevel borderCells)
           (Position.mk 1 1) 1 0).
  - intros q Hq. apply list_elem_of_In. apply list_elem_of_In in Hq.
    simpl in Hq |- *. intuition.
  - split; [cells; lia|]. intros Hin. apply list_elem_of_In in Hin.
    simpl in Hin. intuition discriminate.
  - reflexivity.
Defined.

(** ** The canvas *)

(** X15: for a level of 1 to 32 cells each way, the cell size chosen is 30,
    60 or 120 pixels and the canvas is at least 30 and at most 960 pixels
    wide and high. *)
Theorem canvas_size_bounded (lvl : Level.t) :
  1 <= Level.width lvl <= 32 -> 1 <= Level.height lvl <= 32 ->
  (cellSizeFor lvl = 30 \/ cellSizeFor lvl = 60 \/ cellSizeFor lvl = 120) /\
  30 <= canvasWidthFor lvl <= 960 /\
  30 <= canvasHeightFor lvl <= 960.
Proof.
  intros Hw Hh. unfold canvasWidthFor, canvasHeightFor, cellSizeFor.
  destruct (Z.leb_spec (Z.max (Level.width lvl) (Level.height lvl)) 8);
    [lia|].
  rewrite Z.geb_leb.
  destruct (Z.leb_spec 17 (Z.max (Level.width lvl) (Level.height lvl))); lia.
Qed.

Lemma canvas_size_bounded_witness :
  30 <= canvasWidthFor lineLevel <= 960.
Proof.
  apply (canvas_size_bounded lineLevel); simpl; lia.
Defined.

(** ** Which defect the validator reports *)

Lemma forEachFrom_validatePosition_first {A} (lvl : Level.t)
    (pos : A -> Position.t) (name : nat -> PositionName)
    (f : A -> nat -> Result unit) (k : nat) (l : list A) :
  (forall a i, f a i = validatePosition lvl (pos a) (name i)) ->
  (Forall (fun a => inBounds lvl (pos a)) l /\ forEachFrom f k l = Return tt) \/
  (exists i a, l !! i = Some a /\ ~ inBounds lvl (pos a) /\
     (forall j a', (j < i)%nat -> l !! j = Some a' -> inBounds lvl (pos a')) /\
     forEachFrom f k l
       = Throw (InvalidPosition (name (k + i)%nat) (pos a) (Level.number lvl))).
Proof.
  intros Hf. revert k. induction l as [|a l IH]; intros k; simpl.
  - left. by split.
  - rewrite Hf. unfold validatePosition.
    destruct (outOfBounds lvl (pos a)) eqn:Hout; simpl.
    + right. exists 0%nat, a. apply outOfBounds_true in Hout.
      rewrite Nat.add_0_r. split; [done|]. split; [done|].
      split; [|done]. intros j a' Hj. lia.
    + apply outOfBounds_false in Hout.
      destruct (IH (S k)) as [[Hall ->]|(i & a' & Hi & Hbad & Hfirst & ->)].
      * left. split; [by constructor | done].
      * right. exists (S i), a'. split; [done|]. split; [done|]. split.
        -- intros [|j] a'' Hj Ha''; [by injection Ha'' as <-|].
           simpl in Ha''. apply (Hfirst j); [lia | done].
        -- by replace (k + S i)%nat with (S k + i)%nat by lia.
Qed.

(** X16: the validator reports the first defect in the order of its
    checks: a bad width before anything else, then a bad height, then a
    count of end positions that differs from the count of colored crates;
    and when it reports a position, every position it visits earlier
    (player start, walls, crates, end positions, each list by index) is on
    the field. *)
Theorem validateLevel_reports_first_defect (lvl : Level.t) :
  (~ 1 <= Level.width lvl <= 32 ->
   validateLevel lvl = Throw (InvalidWidth (Level.width lvl))) /\
  (1 <= Level.width lvl <= 32 -> ~ 1 <= Level.height lvl <= 32 ->
   validateLevel lvl = Throw (InvalidHeight (Level.height lvl))) /\
  (1 <= Level.width lvl <= 32 -> 1 <= Level.height lvl <= 32 ->
   length (Level.endPositions lvl)
     <> length (omap Crate.color (Level.crates lvl)) ->
   validateLevel lvl
     = Throw (EndPositionCount (Level.number lvl)
                (length (Level.endPositions lvl))
                (length (omap Crate.color (Level.crates lvl))))) /\
  (forall name pos n,
     validateLevel lvl = Throw (InvalidPosition name pos n) ->
     named lvl name = Some pos /\ ~ inBounds lvl pos /\
     forall name' pos',
       visitedBefore name' name -> named lvl name' = Some pos' ->
       inBounds lvl pos').
Proof.
  unfold validateLevel.
  destruct (Z.ltb_spec (Level.width lvl) 1) as [Hw1|Hw1]; simpl;
    [repeat split; try done; lia|].
  rewrite Z.gtb_ltb.
  destruct (Z.ltb_spec 32 (Level.width lvl)) as [Hw2|Hw2]; simpl;
    [repeat split; try done; lia|].
  destruct (Z.ltb_spec (Level.height lvl) 1) as [Hh1|Hh1]; simpl;
    [repeat split; try done; lia|].
  rewrite Z.gtb_ltb.
  destruct (Z.ltb_spec 32 (Level.height lvl)) as [Hh2|Hh2]; simpl;
    [repeat split; try done; lia|].
  rewrite length_filter_isColored, omap_filter_isColored.
  split; [lia|]. split; [lia|].
  destruct (Nat.eqb_spec (length (Level.endPositions lvl))
              (length (omap Crate.color (Level.crates lvl)))) as [Hlen|Hlen];
    simpl; [|by split].
  split; [done|]. intros name pos n.
  case_bool_decide; [|done].
  destruct (outOfBounds lvl (Level.playerStartPosition lvl)) eqn:Hstart.
  { apply outOfBounds_true in Hstart.
    rewrite (validatePosition_throw lvl _ PlayerStart Hstart). simpl.
    intros [= <- <- <-]. split; [done|]. split; [done|].
    intros [| j | j | j] pos' Hbefore; by simpl in Hbefore. }
  apply outOfBounds_false in Hstart.
  rewrite (validatePosition_ok lvl _ PlayerStart Hstart). simpl.
  destruct (forEachFrom_validatePosition_first lvl id WallAt
              (fun wall i => validatePosition lvl wall (WallAt i)) 0
              (Level.walls lvl) ltac:(done))
    as [[Hwalls Hok]|(i & a & Hi & Hbad & Hfirst & Hthrow)];
    unfold forEach at 1; [rewrite Hok|rewrite Hthrow]; simpl.
  2:{ intros [= <- <- <-]. split; [done|]. split; [done|].
      intros [| j | j | j] pos' Hbefore Hname; simpl in *; try done.
      - by injection Hname as <-.
      - by apply (Hfirst j). }
  rewrite Forall_lookup in Hwalls.
  destruct (forEachFrom_validatePosition_first lvl Crate.position CrateAt
              (fun crate i =>
                 validatePosition lvl (Crate.position crate) (CrateAt i)) 0
              (Level.crates lvl) ltac:(done))
    as [[Hcrates Hok2]|(i & a & Hi & Hbad & Hfirst & Hthrow)];
    unfold forEach at 1; [rewrite Hok2|rewrite Hthrow]; simpl.
  2:{ intros [= <- <- <-]. simpl. rewrite Hi. split; [done|]. split; [done|].
      intros [| j | j | j] pos' Hbefore Hname; simpl in *; try done.
      - by injection Hname as <-.
      - by apply (Hwalls j).
      - destruct (Level.crates lvl !! j) as [c|] eqn:Hc; [|done].
        injection Hname as <-. by apply (Hfirst j c). }
  rewrite Forall_lookup in Hcrates.
  destruct (forEachFrom_validatePosition_first lvl EndPosition.position
              EndPositionAt
              (fun e i =>
                 validatePosition lvl (EndPosition.position e)
                   (EndPositionAt i)) 0
              (Level.endPositions lvl) ltac:(done))
    as [[Hends Hok3]|(i & a & Hi & Hbad & Hfirst & Hthrow)];
    unfold forEach; [rewrite Hok3|rewrite Hthrow]; simpl; [done|].
  intros [= <- <- <-]. simpl. rewrite Hi. split; [done|]. split; [done|].
  intros [| j | j | j] pos' Hbefore Hname; simpl in *; try done.
  - by injection Hname as <-.
  - by apply (Hwalls j).
  - destruct (Level.crates lvl !! j) as [c|] eqn:Hc; [|done].
    injection Hname as <-. by apply (Hcrates j c).
  - destruct (Level.endPositions lvl !! j) as [g|] eqn:Hg; [|done].
    injection Hname as <-. by apply (Hfirst j g).
Qed.

Lemma wellFormed_reordered (lvl lvl' : Level.t) :
  Level.width lvl' = Level.width lvl ->
  Level.height lvl' = Level.height lvl ->
  Level.playerStartPosition lvl' = Level.playerStartPosition lvl ->
  Level.walls lvl' ≡ₚ Level.walls lvl ->
  Level.crates lvl' ≡ₚ Level.crates lvl ->
  Level.endPositions lvl' ≡ₚ Level.endPositions lvl ->
  wellFormed lvl -> wellFormed lvl'.
Proof.
  intros Hw Hh Hstart Hwalls Hcrates Hends.
  assert (Hin : forall p, inBounds lvl' p <-> inBounds lvl p).
  { intros p. unfold inBounds. by rewrite Hw, Hh. }
  intros (H1 & H2 & H3 & H4 & H5 & H6 & H7).
  unfold wellFormed. rewrite Hw, Hh, Hstart, Hwalls, Hcrates, Hends.
  split; [done|]. split; [done|]. split; [done|].
  split; [by apply Hin|]. split; [|split].
  - eapply Forall_impl; [exact H5|]. intros p. apply Hin.
  - eapply Forall_impl; [exact H6|]. intros c. apply Hin.
  - eapply Forall_impl; [exact H7|]. intros g. apply Hin.
Qed.

(** X17: whether the validator accepts a level does not depend on the
    order in which the level lists its walls, its crates and its end
    positions. *)
Theorem validateLevel_ignores_order (lvl lvl' : Level.t) :
  Level.width lvl' = Level.width lvl ->
  Level.height lvl' = Level.height lvl ->
  Level.playerStartPosition lvl' = Level.playerStartPosition lvl ->
  Level.walls lvl' ≡ₚ Level.walls lvl ->
  Level.crates lvl' ≡ₚ Level.crates lvl ->
  Level.endPositions lvl' ≡ₚ Level.endPositions lvl ->
  (validateLevel lvl' = Return true <-> validateLevel lvl = Return true).
Proof.
  intros Hw Hh Hstart Hwalls Hcrates Hends.
  assert (Hiff : forall l, validateLevel l = Return true <-> wellFormed l).
  { intros l. destruct (validateLevel_cases l) as [[Hwf ->]|(e & -> & Hd)].
    - done.
    - split; [done|]. intros Hwf. by destruct (describes_not_wellFormed l e). }
  rewrite !Hiff. split.
  - by apply wellFormed_reordered.
  - by apply wellFormed_reordered.
Qed.

Lemma validateLevel_ignores_order_witness :
  validateLevel
    {| Level.number := 2; Level.width := 6; Level.height := 4;
       Level.walls := [];
       Level.crates := reverse (Level.crates lineLevel);
       Level.playerStartPosition := Position.mk 1 1;
       Level.endPositions := Level.endPositions lineLevel |} = Return true.
Proof.
  apply (validateLevel_ignores_order lineLevel); try reflexivity.
  simpl. apply Permutation_swap.
Defined.

(** ** Loading and keys *)

Lemma loadLevel_request_answer (levelNumber : option Z) (received : Level.t)
    (s : LevelComponent) :
  loadLevel levelNumber received s
    = loadLevelAnswer (Some received) (loadLevelRequest levelNumber s).1.
Proof. reflexivity. Qed.

(** X18: when the request for the next level fails, the component keeps
    the level it has, with its sprites, its set completion flag, its counter
    and its undo record, but the level number it holds, has stored and asks
    for on a reload is already the one of the missing level. *)
Theorem failed_load_keeps_level_but_not_number (s : LevelComponent) :
  (loadNextLevel s).2 = currentLevelNumber s + 1 /\
  level (loadLevelAnswer None (loadNextLevel s).1) = level s /\
  bulldozerSprite (loadLevelAnswer None (loadNextLevel s).1)
    = bulldozerSprite s /\
  crateSprites (loadLevelAnswer None (loadNextLevel s).1) = crateSprites s /\
  isLevelComplete (loadLevelAnswer None (loadNextLevel s).1)
    = isLevelComplete s /\
  moveCount (loadLevelAnswer None (loadNextLevel s).1) = moveCount s /\
  lastMove (loadLevelAnswer None (loadNextLevel s).1) = lastMove s /\
  currentLevelNumber (loadLevelAnswer None (loadNextLevel s).1)
    = currentLevelNumber s + 1 /\
  (reloadLevel (loadLevelAnswer None (loadNextLevel s).1)).2
    = currentLevelNumber s + 1.
Proof. repeat split. Qed.

(** X19: a load does not clear the undo record.  With a record retained
    from the play before, an undo right after the load takes the bulldozer
    off the start position to the recorded cell, puts the crate with the
    recorded index, if the new level has one, on the recorded cell, and
    clears the record; the counter stays at zero. *)
Theorem load_keeps_undo_record (levelNumber : option Z) (lvl : Level.t)
    (s : LevelComponent) (last : LastMove.t) :
  lastMove s = Some last ->
  lastMove (loadLevel levelNumber lvl s) = Some last /\
  (exists b, bulldozerSprite (undoLastMove (loadLevel levelNumber lvl s))
               = Some b /\
             BulldozerSprite.position b = LastMove.bulldozerPos last /\
             BulldozerSprite.direction b = LastMove.bulldozerDirection last) /\
  (forall p i crate,
     LastMove.cratePos last = Some p -> LastMove.crateIndex last = Some i ->
     Level.crates lvl !! i = Some crate ->
     exists c, crateSprites (undoLastMove (loadLevel levelNumber lvl s)) !! i
                 = Some c /\
               CrateSprite.position c = p /\
               CrateSprite.color c = Crate.color crate) /\
  moveCount (undoLastMove (loadLevel levelNumber lvl s)) = 0 /\
  lastMove (undoLastMove (loadLevel levelNumber lvl s)) = None.
Proof.
  intros Hlast.
  assert (Hl : lastMove (loadLevel levelNumber lvl s) = Some last) by done.
  split; [done|].
  rewrite (undoLastMove_settled (loadLevel levelNumber lvl s) last
             (BulldozerSprite.new (Level.playerStartPosition lvl) Down) Hl
             eq_refl).
  2:{ split; [done|]. simpl. apply Forall_fmap, Forall_true. done. }
  cbn [undone bulldozerSprite crateSprites moveCount lastMove].
  split; [by eexists|]. split; [|done].
  intros p i crate -> -> Hcrate.
  assert (Hi : crateSprites (loadLevel levelNumber lvl s) !! i
               = Some (CrateSprite.new (Crate.position crate)
                         (Crate.color crate))).
  { simpl. by rewrite list_lookup_fmap, Hcrate. }
  rewrite Hi. eexists.
  rewrite list_lookup_insert_eq by by eapply lookup_lt_Some. done.
Qed.

Lemma load_keeps_undo_record_witness :
  lastMove
    (loadLevel None lineLevel
       (update (handleMovement "ArrowRight" (scenarioStart [])).2))
  = lastMove (update (handleMovement "ArrowRight" (scenarioStart [])).2).
Proof.
  exact (proj1 (load_keeps_undo_record None lineLevel
                  (update (handleMovement "ArrowRight" (scenarioStart [])).2)
                  _ eq_refl)).
Defined.

Lemma loadLevelRequest_same (s : LevelComponent) :
  (loadLevelRequest None s).1 = s.
Proof. by destruct s. Qed.

(** X20: [handleKeyDown] does one thing per key.  An arrow key is handed to
    [handleMovement]; [r] or [R] asks for the current level again and leaves
    the component as it is until the answer arrives; [n] or [N] on a
    completed level advances the level number and asks for that level;
    [z] with Ctrl undoes.  Each of these prevents the default action of the
    key, and only the two load keys ask for a level. *)
Theorem handleKeyDown_dispatch (event : KeyboardEvent.t) (s : LevelComponent) :
  let key := KeyboardEvent.key event in
  (isArrowKey key = true ->
   handleKeyDown event s
     = {| component := (handleMovement key s).2;
          defaultPrevented := true; requested := [] |}) /\
  (key = "r" \/ key = "R" ->
   handleKeyDown event s
     = {| component := s; defaultPrevented := true;
          requested := [currentLevelNumber s] |}) /\
  (key = "n" \/ key = "N" -> isLevelComplete s = true ->
   handleKeyDown event s
     = {| component := (loadNextLevel s).1; defaultPrevented := true;
          requested := [currentLevelNumber s + 1] |}) /\
  (key = "z" -> KeyboardEvent.ctrlKey event = true ->
   handleKeyDown event s
     = {| component := undoLastMove s; defaultPrevented := true;
          requested := [] |}).
Proof.
  destruct event as [key ctrl]. simpl. unfold handleKeyDown. simpl.
  split; [|split; [|split]].
  - intros Harrow. rewrite Harrow.
    assert (key <> "r" /\ key <> "R" /\ key <> "n" /\ key <> "N" /\ key <> "z")
      as (H1 & H2 & H3 & H4 & H5).
    { repeat split; intros ->; discriminate Harrow. }
    apply String.eqb_neq in H1, H2, H3, H4, H5.
    rewrite H1, H2, H3, H4, H5. simpl. by rewrite andb_false_r.
  - intros [-> | ->]; simpl; rewrite andb_false_r; by destruct s.
  - intros [-> | ->] Hdone; destruct s; simpl in *; subst; simpl;
      by rewrite andb_false_r.
  - intros -> ->. simpl. done.
Qed.

(** X21: the keys that do nothing.  [n] or [N] on a level that is not
    complete, [z] without Ctrl, and every key that is no arrow key and none
    of [r], [R], [n], [N], [z] (so also [Z], with or without Ctrl) leave the
    component as it is, ask for no level and do not prevent the default
    action. *)
Theorem handleKeyDown_dead_keys (event : KeyboardEvent.t) (s : LevelComponent) :
  let key := KeyboardEvent.key event in
  (key = "n" \/ key = "N") /\ isLevelComplete s = false \/
  key = "z" /\ KeyboardEvent.ctrlKey event = false \/
  (isArrowKey key = false /\ key <> "r" /\ key <> "R" /\ key <> "n" /\
   key <> "N" /\ key <> "z") ->
  handleKeyDown event s
    = {| component := s; defaultPrevented := false; requested := [] |}.
Proof.
  destruct event as [key ctrl]. simpl. unfold handleKeyDown. simpl.
  intros [[[-> | ->] Hdone]|[[-> ->]|(Harrow & H1 & H2 & H3 & H4 & H5)]];
    simpl; rewrite ?Hdone, ?andb_false_r; try done.
  apply String.eqb_neq in H1, H2, H3, H4, H5.
  rewrite Harrow, H1, H2, H3, H4, H5. simpl. by rewrite andb_false_r.
Qed.

Lemma handleKeyDown_dead_keys_witness :
  handleKeyDown {| KeyboardEvent.key := "n"; KeyboardEvent.ctrlKey := false |}
    lineStart
  = {| component := lineStart; defaultPrevented := false; requested := [] |}.
Proof.
  apply (handleKeyDown_dead_keys
           {| KeyboardEvent.key := "n"; KeyboardEvent.ctrlKey := false |}
           lineStart).
  left. split; [by left | reflexivity].
Defined.

(** ** The first version *)

(** X22: the first version of [handleMovement] is the current one without
    the completion gate, the counter, the undo record and the push attempt:
    on every component and key it takes the way the current version takes
    once the completion flag is cleared, leaves the same level and the same
    crates, and leaves the bulldozer that the current version hands to
    [startPushAttempt] on a blocked move and leaves as well otherwise; the
    flag, the counter and the record it does not touch. *)
Theorem first_version_is_current_without_gate (key : string)
    (s : LevelComponent) :
  (FirstVersion.handleMovement key s).1
    = (handleMovement key (set_isLevelComplete false s)).1 /\
  level (FirstVersion.handleMovement key s).2
    = level (handleMovement key (set_isLevelComplete false s)).2 /\
  crateSprites (FirstVersion.handleMovement key s).2
    = crateSprites (handleMovement key (set_isLevelComplete false s)).2 /\
  bulldozerSprite (handleMovement key (set_isLevelComplete false s)).2
    = match keyStep key, (FirstVersion.handleMovement key s).1 with
      | Some (_, dx, dy), Blocked =>
          BulldozerSprite.startPushAttempt dx dy
            <$> bulldozerSprite (FirstVersion.handleMovement key s).2
      | _, _ => bulldozerSprite (FirstVersion.handleMovement key s).2
      end /\
  isLevelComplete (FirstVersion.handleMovement key s).2 = isLevelComplete s /\
  moveCount (FirstVersion.handleMovement key s).2 = moveCount s /\
  lastMove (FirstVersion.handleMovement key s).2 = lastMove s.
Proof.
  unfold FirstVersion.handleMovement, handleMovement. simpl.
  destruct (bulldozerSprite s) as [b|] eqn:Hb; simpl;
    [|by rewrite Hb; destruct (keyStep key) as [[[? ?] ?]|]].
  destruct (level s) as [lvl|] eqn:Hlvl; simpl;
    [|by rewrite Hb; destruct (keyStep key) as [[[? ?] ?]|]].
  destruct (BulldozerSprite.isAnimating b); simpl;
    [by rewrite Hb; destruct (keyStep key) as [[[? ?] ?]|]|].
  destruct (some CrateSprite.isAnimating (crateSprites s)); simpl;
    [by rewrite Hb; destruct (keyStep key) as [[[? ?] ?]|]|].
  destruct (keyStep key) as [[[d dx] dy]|]; simpl; [|by rewrite Hb].
  destruct (outOfBounds lvl _); simpl; [done|].
  destruct (isWall lvl _); simpl; [done|].
  destruct (find _ (crateSprites s)) as [[i c]|]; simpl; [|done].
  destruct (outOfBounds lvl _); simpl; [done|].
  destruct (isWall lvl _); simpl; [done|].
  destruct (find _ (crateSprites s)) as [r|]; simpl; done.
Qed.

(** ** More on completion *)

(** X23: a level without end positions is complete at the first
    completion check, wherever its crates are. *)
Theorem level_without_goals_completes (s : LevelComponent) (lvl : Level.t) :
  level s = Some lvl -> Level.endPositions lvl = [] ->
  isLevelComplete (checkLevelCompletion s) = true.
Proof.
  intros Hlvl Hends. unfold checkLevelCompletion, allEndPositionsFilled.
  rewrite Hlvl, Hends. simpl. by destruct (isLevelComplete s) eqn:E.
Qed.

Lemma level_without_goals_completes_witness :
  isLevelComplete
    (checkLevelCompletion (loadLevel None oversizedLevel newLevelComponent))
  = true.
Proof.
  exact (level_without_goals_completes
           (loadLevel None oversizedLevel newLevelComponent) oversizedLevel
           eq_refl eq_refl).
Defined.

Lemma endPositionFilled_distinct (crates : list CrateSprite.t)
    (g : EndPosition.t) :
  NoDup (CrateSprite.cell <$> crates) ->
  endPositionFilled crates g = true <-> exists c, c ∈ crates /\ satisfies c g.
Proof.
  intros Hnodup. split.
  - intros H. apply endPositionFilled_satisfied in H
      as (i & c & (Hi & _) & Hsat).
    exists c. split; [by eapply list_elem_of_lookup_2 | done].
  - intros (c & Hc & Hcell & Hcol).
    apply list_elem_of_lookup in Hc as [i Hi].
    pose proof (distinct_firstAt crates i c Hnodup Hi) as Hfirst.
    rewrite Hcell in Hfirst.
    rewrite (endPositionFilled_first crates g i c Hfirst).
    by apply colorMatches_true.
Qed.

(** X24: for crates on pairwise distinct cells, the completion check does
    not depend on the order of the crates in the list. *)
Theorem completion_ignores_crate_order (lvl : Level.t)
    (crates crates' : list CrateSprite.t) :
  NoDup (CrateSprite.cell <$> crates) ->
  crates ≡ₚ crates' ->
  allEndPositionsFilled lvl crates' = allEndPositionsFilled lvl crates.
Proof.
  intros Hnodup Hperm.
  assert (Hnodup' : NoDup (CrateSprite.cell <$> crates')) by by rewrite <- Hperm.
  assert (Hgoal : forall g, endPositionFilled crates' g
                            = endPositionFilled crates g).
  { intros g.
    pose proof (endPositionFilled_distinct crates g Hnodup) as H.
    pose proof (endPositionFilled_distinct crates' g Hnodup') as H'.
    assert (Hsame : (exists c, c ∈ crates' /\ satisfies c g) <->
                    (exists c, c ∈ crates /\ satisfies c g)).
    { split; intros (c & Hc & Hsat); exists c; split; try done.
      - by rewrite Hperm.
      - by rewrite <- Hperm. }
    destruct (endPositionFilled crates' g), (endPositionFilled crates g);
      try done.
    - symmetry. apply H, Hsame, H'. done.
    - apply H', Hsame, H. done. }
  unfold allEndPositionsFilled, every.
  induction (Level.endPositions lvl) as [|g gs IH]; [done|].
  simpl. by rewrite Hgoal, IH.
Qed.

Lemma completion_ignores_crate_order_witness :
  allEndPositionsFilled lineLevel (reverse (crateSprites lineStart))
  = allEndPositionsFilled lineLevel (crateSprites lineStart).
Proof.
  apply (completion_ignores_crate_order lineLevel (crateSprites lineStart)).
  - simpl. apply NoDup_cons. split.
    + intros Hin. apply list_elem_of_singleton in Hin. discriminate Hin.
    + apply NoDup_cons. split; [|apply NoDup_nil_2].
      intros Hin. inversion Hin.
  - simpl. apply Permutation_swap.
Defined.

(** ** What the repair script means by stuck *)

Lemma side_test (lvl : Level.t) (x y : Z) (edge : bool) :
  (edge = true -> ~ inBounds lvl (Position.mk x y)) ->
  (edge = false -> inBounds lvl (Position.mk x y)) ->
  edge || FixLevels.isWall x y (Level.walls lvl) = true <->
  ~ floorCell lvl (Position.mk x y).
Proof.
  intros Hedge Hinner. unfold floorCell. rewrite <- FixLevels_isWall_true.
  destruct edge; simpl.
  - split; [|done]. intros _ [Hin _]. by apply Hedge.
  - specialize (Hinner eq_refl).
    destruct (FixLevels.isWall x y (Level.walls lvl)); split; try done.
    + by intros _ [_ H].
    + intros H. exfalso. apply H. by split.
Qed.

(** X25: for a crate on the field, [isCrateStuck] answers [true] exactly
    when the crate can be pushed along neither axis: of its left and right
    neighbours one is no floor, and of its upper and lower neighbours one is
    no floor. *)
Theorem stuck_iff_no_axis_free (lvl : Level.t) (p : Position.t) :
  inBounds lvl p ->
  FixLevels.isCrateStuck p (Level.walls lvl) (Level.width lvl)
    (Level.height lvl) = true <->
  (~ floorCell lvl (Position.shift p (-1) 0) \/
   ~ floorCell lvl (Position.shift p 1 0)) /\
  (~ floorCell lvl (Position.shift p 0 (-1)) \/
   ~ floorCell lvl (Position.shift p 0 1)).
Proof.
  intros [Hx Hy]. destruct p as [x y]. simpl in Hx, Hy.
  unfold Position.shift. simpl.
  replace (x + -1) with (x - 1) by lia. replace (y + -1) with (y - 1) by lia.
  replace (x + 0) with x by lia. replace (y + 0) with y by lia.
  rewrite <- (side_test lvl (x - 1) y (x =? 0)),
          <- (side_test lvl (x + 1) y (x =? Level.width lvl - 1)),
          <- (side_test lvl x (y - 1) (y =? 0)),
          <- (side_test lvl x (y + 1) (y =? Level.height lvl - 1)).
  - unfold FixLevels.isCrateStuck. simpl.
    destruct ((x =? 0) || FixLevels.isWall (x - 1) y (Level.walls lvl)),
      ((x =? Level.width lvl - 1)
         || FixLevels.isWall (x + 1) y (Level.walls lvl)),
      ((y =? 0) || FixLevels.isWall x (y - 1) (Level.walls lvl)),
      ((y =? Level.height lvl - 1)
         || FixLevels.isWall x (y + 1) (Level.walls lvl));
      simpl; intuition discriminate.
  - intros H%Z.eqb_eq. unfold inBounds. simpl. lia.
  - intros H%Z.eqb_neq. unfold inBounds. simpl. lia.
  - intros H%Z.eqb_eq. unfold inBounds. simpl. lia.
  - intros H%Z.eqb_neq. unfold inBounds. simpl. lia.
  - intros H%Z.eqb_eq. unfold inBounds. simpl. lia.
  - intros H%Z.eqb_neq. unfold inBounds. simpl. lia.
  - intros H%Z.eqb_eq. unfold inBounds. simpl. lia.
  - intros H%Z.eqb_neq. unfold inBounds. simpl. lia.
Qed.

Lemma stuck_iff_no_axis_free_witness :
  (~ floorCell cornerLevel (Position.shift (Position.mk 3 0) (-1) 0) \/
   ~ floorCell cornerLevel (Position.shift (Position.mk 3 0) 1 0)) /\
  (~ floorCell cornerLevel (Position.shift (Position.mk 3 0) 0 (-1)) \/
   ~ floorCell cornerLevel (Position.shift (Position.mk 3 0) 0 1)).
Proof.
  apply (stuck_iff_no_axis_free cornerLevel (Position.mk 3 0)).
  - cells. lia.
  - reflexivity.
Defined.

(** ** The crates of a level *)

Lemma colors_insert (crates : list CrateSprite.t) (i : nat)
    (c c' : CrateSprite.t) :
  crates !! i = Some c -> CrateSprite.color c' = CrateSprite.color c ->
  CrateSprite.color <$> <[i := c']> crates = CrateSprite.color <$> crates.
Proof.
  intros Hi Hcol. rewrite list_fmap_insert, Hcol.
  apply list_insert_id. by rewrite list_lookup_fmap, Hi.
Qed.

Lemma colors_step (s : LevelComponent) (e : Event) :
  CrateSprite.color <$> crateSprites (step s e)
    = CrateSprite.color <$> crateSprites s.
Proof.
  destruct e; simpl.
  - pose proof (handleMovement_resolved key s) as Hres.
    destruct (handleMovement key s) as [o s1]. simpl in *.
    inversion Hres as [ | | | lvl b d dx dy i c Hacc Hkey Hin Hwall Hfirst ];
      subst; try done.
    destruct Hfirst as [Hi _].
    simpl. apply (colors_insert _ i c); [done|].
    unfold CrateSprite.startMoveTo. by destruct (CrateSprite.isMoving c).
  - unfold undoLastMove. repeat case_match; try done;
      simpl; by eapply colors_insert.
  - rewrite <- list_fmap_compose. apply list_fmap_ext. intros i c _.
    simpl. unfold CrateSprite.update. by destruct (CrateSprite.isMoving c).
  - unfold checkLevelCompletion. by repeat case_match.
Qed.

(** X26: play neither adds nor removes a crate nor changes a color: after
    any key presses, undos, frames and completion checks the crates have, in
    the same order, the colors they had. *)
Theorem play_keeps_crates_and_colors (s : LevelComponent)
    (events : list Event) :
  CrateSprite.color <$> crateSprites (run s events)
    = CrateSprite.color <$> crateSprites s.
Proof.
  revert s. induction events as [|e events IH]; intros s; [done|].
  change (run s (e :: events)) with (run (step s e) events).
  by rewrite IH, colors_step.
Qed.

(** ** A safe position *)

Lemma firstOf_Some {A B} (f : A -> option B) (l : list A) (b : B) :
  firstOf f l = Some b -> exists a, a ∈ l /\ f a = Some b.
Proof.
  induction l as [|a l IH]; simpl; [done|].
  destruct (f a) as [b'|] eqn:E.
  - intros [= ->]. exists a. split; [left | done].
  - intros H. destruct (IH H) as (a' & Hin & Ha'). exists a'.
    split; [by right | done].
Qed.

Lemma firstOf_None {A B} (f : A -> option B) (l : list A) :
  firstOf f l = None -> forall a, a ∈ l -> f a = None.
Proof.
  induction l as [|a l IH]; simpl; intros H a' Hin; [by inversion Hin|].
  destruct (f a) as [b'|] eqn:E; [done|].
  apply elem_of_cons in Hin as [->|Hin]; [done | by apply IH].
Qed.

Lemma occupied_test (x y : Z) (l : list Position.t) :
  some (fun p => (Position.x p =? x) && (Position.y p =? y)) l = true <->
  Position.mk x y ∈ l.
Proof. apply FixLevels_isWall_true. Qed.

Lemma findSafePosition_attempts_safe (rnd : Random) (k remaining attempt : nat)
    (width height : Z) (walls occupied : list Position.t) (minDist : Z)
    (p : Position.t) :
  FixLevels.findSafePosition_attempts rnd k remaining attempt width height
    walls occupied minDist = Some p ->
  safeCell width height walls occupied p.
Proof.
  revert attempt. induction remaining as [|remaining IH]; intros attempt;
    simpl; [done|].
  destruct (FixLevels.isWall _ _ walls) eqn:Hwall; [apply IH|].
  destruct (some _ occupied) eqn:Hocc; [apply IH|].
  destruct (FixLevels.isCrateStuck _ walls width height) eqn:Hstuck;
    [apply IH|].
  intros [= <-]. split; [|split; [|done]].
  - intros Hin. apply FixLevels_isWall_true in Hin. congruence.
  - intros Hin. apply occupied_test in Hin. congruence.
Qed.

(** X27: a position that [findSafePosition] returns is no wall, is none of
    the occupied positions and is not stuck, whatever the random numbers
    are; and it returns [null] only when no cell at distance 2 or more from
    the edges of the field is such a position. *)
Theorem findSafePosition_safe_or_none_left (rnd : Random) (k : nat)
    (width height : Z) (walls occupied : list Position.t) (minDist : Z) :
  match FixLevels.findSafePosition rnd k width height walls occupied
          minDist with
  | Some p => safeCell width height walls occupied p
  | None =>
      forall x y, 2 <= x < width - 2 -> 2 <= y < height - 2 ->
        ~ safeCell width height walls occupied (Position.mk x y)
  end.
Proof.
  unfold FixLevels.findSafePosition.
  destruct (FixLevels.findSafePosition_attempts _ _ _ _ _ _ _ _ _)
    as [p|] eqn:Hattempts.
  { by eapply findSafePosition_attempts_safe. }
  unfold FixLevels.findSafePosition_fallback.
  destruct (firstOf _ (seqZ 2 (height - 4))) as [p|] eqn:Hrows.
  - apply firstOf_Some in Hrows as (y & _ & Hrow).
    apply firstOf_Some in Hrow as (x & _ & Hcell).
    destruct (FixLevels.isWall x y walls) eqn:Hwall; [done|].
    destruct (some _ occupied) eqn:Hocc; [done|].
    destruct (FixLevels.isCrateStuck _ walls width height) eqn:Hstuck;
      [done|].
    simpl in Hcell. injection Hcell as <-. split; [|split; [|done]].
    + intros Hin. apply FixLevels_isWall_true in Hin. congruence.
    + intros Hin. apply occupied_test in Hin. congruence.
  - intros x y Hx Hy (Hwall & Hocc & Hstuck).
    pose proof (firstOf_None _ _ Hrows y) as Hrow. simpl in Hrow.
    assert (Hyin : y ∈ seqZ 2 (height - 4)) by (apply elem_of_seqZ; lia).
    pose proof (firstOf_None _ _ (Hrow Hyin) x) as Hcell. simpl in Hcell.
    assert (Hxin : x ∈ seqZ 2 (width - 4)) by (apply elem_of_seqZ; lia).
    specialize (Hcell Hxin).
    destruct (FixLevels.isWall x y walls) eqn:Ew.
    { apply Hwall. by apply FixLevels_isWall_true. }
    destruct (some _ occupied) eqn:Eo.
    { apply Hocc. by apply occupied_test. }
    rewrite Hstuck in Hcell. done.
Qed.

(** ** The level generator *)

Lemma bind_Some {A B} (m : Gen.t A) (f : A -> Gen.t B) (k k2 : nat) (b : B) :
  Gen.bind m f k = Some (b, k2) ->
  exists a k1, m k = Some (a, k1) /\ f a k1 = Some (b, k2).
Proof.
  unfold Gen.bind. destruct (m k) as [[a k1]|]; [|done].
  intros H. by exists a, k1.
Qed.

Lemma lcg_fair : fair lcg.
Proof. intros k n Hn. unfold lcg. by apply Z.mod_pos_bound. Qed.

Lemma playable_area (w h c col : Z) :
  1 <= c -> 1 <= col ->
  let width := Z.max 6 (Z.min w 24) in
  let height := Z.max 6 (Z.min h 24) in
  let numCrates := Z.min c ((width - 2) * (height - 2) / 8) in
  let numColors := Z.min (Z.min col numCrates) 8 in
  6 <= width <= 24 /\ 6 <= height <= 24 /\
  1 <= numColors <= numCrates /\ numColors <= 8 /\
  8 * numCrates <= (width - 2) * (height - 2).
Proof.
  intros Hc Hcol width height numCrates numColors.
  assert (Hw : 6 <= width <= 24) by (unfold width; lia).
  assert (Hh : 6 <= height <= 24) by (unfold height; lia).
  assert (Harea : 16 <= (width - 2) * (height - 2)) by nia.
  pose proof (Z.mul_div_le ((width - 2) * (height - 2)) 8 ltac:(lia)) as Hq.
  assert (Hq2 : 2 <= (width - 2) * (height - 2) / 8).
  { apply Z.div_le_lower_bound; lia. }
  unfold numColors, numCrates. lia.
Qed.

Lemma parameters_in_range (rnd : Random) (levelNum : Z)
    (k : nat) :
  fair rnd -> 2 <= levelNum <= 99 ->
  exists p k',
    GenerateLevels.parameters rnd levelNum k = Some (p, k') /\
    6 <= GenerateLevels.width p <= 24 /\
    6 <= GenerateLevels.height p <= 24 /\
    1 <= GenerateLevels.numColors p <= GenerateLevels.numCrates p /\
    GenerateLevels.numColors p <= 8 /\
    8 * GenerateLevels.numCrates p
      <= (GenerateLevels.width p - 2) * (GenerateLevels.height p - 2).
Proof.
  intros Hfair Hlevel. unfold GenerateLevels.parameters.
  pose proof (Hfair k 3 ltac:(lia)) as H3.
  pose proof (Hfair (S (S k)) 3 ltac:(lia)) as H3'.
  pose proof (Hfair k 4 ltac:(lia)) as H4.
  pose proof (Hfair (S (S k)) 4 ltac:(lia)) as H4'.
  assert (Hdiv : forall a b, 0 <= a -> 0 < b -> 0 <= a / b).
  { intros a b Ha Hb. by apply Z.div_pos. }
  repeat case_match;
    (eexists _, _; split; [reflexivity|]; apply playable_area);
    repeat match goal with
      | |- context [?a / ?b] =>
          lazymatch goal with
          | _ : 0 <= a / b |- _ => fail
          | _ => pose proof (Hdiv a b ltac:(lia) ltac:(lia))
          end
      end; simpl; try lia.
Qed.

(** X28: for the level numbers 2 to 99 the generator chooses a field of 6
    to 24 cells each way, at least one crate and at most one crate for
    every 8 inner cells, and at least one color, at most 8 and no more
    colors than crates, whatever the random numbers are. *)
Theorem generator_parameters_in_range (rnd : Random) (levelNum : Z)
    (k : nat) :
  fair rnd -> 2 <= levelNum <= 99 ->
  exists p k',
    GenerateLevels.parameters rnd levelNum k = Some (p, k') /\
    6 <= GenerateLevels.width p <= 24 /\
    6 <= GenerateLevels.height p <= 24 /\
    1 <= GenerateLevels.numColors p <= GenerateLevels.numCrates p /\
    GenerateLevels.numColors p <= 8 /\
    8 * GenerateLevels.numCrates p
      <= (GenerateLevels.width p - 2) * (GenerateLevels.height p - 2).
Proof. apply parameters_in_range. Qed.

Lemma generator_parameters_in_range_witness :
  exists p k',
    GenerateLevels.parameters lcg 66 0%nat = Some (p, k') /\
    6 <= GenerateLevels.width p <= 24 /\
    6 <= GenerateLevels.height p <= 24 /\
    1 <= GenerateLevels.numColors p <= GenerateLevels.numCrates p /\
    GenerateLevels.numColors p <= 8 /\
    8 * GenerateLevels.numCrates p
      <= (GenerateLevels.width p - 2) * (GenerateLevels.height p - 2).
Proof.
  apply (generator_parameters_in_range lcg 66 0%nat lcg_fair). lia.
Defined.


Lemma segment_adds (rnd : Random) (fuel : nat) (test : Z -> bool)
    (cell : Z -> Position.t) (d : Z) (walls walls' : list Position.t)
    (k k' : nat) :
  GenerateLevels.segment rnd fuel test cell d walls k = Some (walls', k') ->
  exists extra,
    walls' = (walls ++ extra)%list /\
    Forall (fun q => exists d', d <= d' /\ test d' = true /\ q = cell d')
           extra.
Proof.
  revert d walls k. induction fuel as [|fuel IH]; intros d walls k; simpl;
    [done|].
  unfold Gen.bind, Gen.random.
  destruct (d <? 2 + rnd k 3).
  - intros H. apply IH in H as (extra & -> & Hextra).
    assert (Hextra' : Forall (fun q => exists d', d <= d' /\ test d' = true /\
                                       q = cell d') extra).
    { eapply Forall_impl; [exact Hextra|]. intros q (d' & Hd' & Ht & ->).
      exists d'. split; [lia | done]. }
    destruct (test d) eqn:Ht.
    + exists (cell d :: extra). split; [by rewrite <- app_assoc|].
      apply Forall_cons. split; [|done]. exists d. split; [lia | done].
    + by exists extra.
  - intros [= <- <-]. exists []. split; [by rewrite app_nil_r | done].
Qed.

Lemma obstacle_adds (rnd : Random) (fuel : nat) (width height : Z)
    (walls walls' : list Position.t) (k k' : nat) :
  fair rnd -> 4 < width -> 4 < height ->
  GenerateLevels.obstacle rnd fuel width height walls k = Some (walls', k') ->
  exists extra,
    walls' = (walls ++ extra)%list /\ Forall (innerCell width height) extra.
Proof.
  intros Hfair Hw Hh. unfold GenerateLevels.obstacle, Gen.bind, Gen.random.
  pose proof (Hfair (S k) (width - 4) ltac:(lia)) as Hx.
  pose proof (Hfair (S (S k)) (height - 4) ltac:(lia)) as Hy.
  destruct (rnd k 3 =? 0); [|destruct (rnd k 3 =? 1)].
  - intros H. apply segment_adds in H as (extra & -> & Hextra).
    exists extra. split; [done|]. eapply Forall_impl; [exact Hextra|].
    intros q (d & Hd & Ht & ->). apply Z.ltb_lt in Ht.
    unfold innerCell. simpl. lia.
  - intros H. apply segment_adds in H as (extra & -> & Hextra).
    exists extra. split; [done|]. eapply Forall_impl; [exact Hextra|].
    intros q (d & Hd & Ht & ->). apply Z.ltb_lt in Ht.
    unfold innerCell. simpl. lia.
  - intros [= <- <-]. eexists. split; [done|].
    apply Forall_singleton. unfold innerCell. simpl. lia.
Qed.

Lemma obstacles_add (rnd : Random) (fuel : nat) (width height : Z)
    (remaining : nat) (walls walls' : list Position.t) (k k' : nat) :
  fair rnd -> 4 < width -> 4 < height ->
  GenerateLevels.obstacles rnd fuel width height remaining walls k
    = Some (walls', k') ->
  exists extra,
    walls' = (walls ++ extra)%list /\ Forall (innerCell width height) extra.
Proof.
  intros Hfair Hw Hh. revert walls k.
  induction remaining as [|remaining IH]; intros walls k; simpl.
  - intros [= <- <-]. exists []. split; [by rewrite app_nil_r | done].
  - intros H. apply bind_Some in H as (walls1 & k1 & H1 & H2).
    apply obstacle_adds in H1 as (extra1 & -> & Hextra1); [|done..].
    apply IH in H2 as (extra2 & -> & Hextra2).
    exists (extra1 ++ extra2)%list. split; [by rewrite app_assoc|].
    by apply Forall_app.
Qed.

Lemma place_free (rnd : Random) (fuel : nat) (width height : Z)
    (occupied : Z -> Z -> bool) (k k' : nat) (p : Position.t) :
  fair rnd -> 2 < width -> 2 < height ->
  GenerateLevels.place rnd fuel width height occupied k = Some (p, k') ->
  occupied (Position.x p) (Position.y p) = false /\ innerCell width height p.
Proof.
  intros Hfair Hw Hh. revert k.
  induction fuel as [|fuel IH]; intros k; simpl; [done|].
  unfold Gen.bind, Gen.random.
  pose proof (Hfair k (width - 2) ltac:(lia)) as Hx.
  pose proof (Hfair (S k) (height - 2) ltac:(lia)) as Hy.
  destruct (occupied (1 + rnd k (width - 2)) (1 + rnd (S k) (height - 2)))
    eqn:Hocc; [apply IH|].
  intros [= <- <-]. split; [done|]. unfold innerCell. simpl. lia.
Qed.

Lemma some_position {A} (pos : A -> Position.t) (x y : Z) (l : list A) :
  some (fun a => (Position.x (pos a) =? x) && (Position.y (pos a) =? y)) l
    = true <->
  Position.mk x y ∈ (pos <$> l).
Proof.
  rewrite <- occupied_test. unfold some.
  induction l as [|a l IH]; simpl; [done|].
  rewrite !orb_true_iff, IH. done.
Qed.

Lemma isOccupied_false (x y : Z) (walls : list Position.t)
    (crates : list Crate.t) (player : Position.t)
    (endPos : list EndPosition.t) :
  GenerateLevels.isOccupied x y walls crates player endPos = false <->
  (Position.mk x y ∉ walls) /\
  (Position.mk x y ∉ (Crate.position <$> crates)) /\
  Position.mk x y <> player /\
  (Position.mk x y ∉ (EndPosition.position <$> endPos)).
Proof.
  unfold GenerateLevels.isOccupied.
  rewrite <- (occupied_test x y walls),
          <- (some_position Crate.position x y crates),
          <- (some_position EndPosition.position x y endPos).
  assert (Hplayer : (Position.x player =? x) && (Position.y player =? y) = true
                    <-> Position.mk x y = player).
  { destruct player as [px py]. simpl. rewrite andb_true_iff, !Z.eqb_eq.
    split; [by intros [-> ->] | by intros [= -> ->]]. }
  destruct (some _ walls); [intuition discriminate|].
  destruct (some _ crates); [intuition discriminate|].
  destruct ((Position.x player =? x) && (Position.y player =? y)).
  { split; [done|]. intros (_ & _ & H & _). exfalso. by apply H, Hplayer. }
  destruct (some _ endPos); [intuition discriminate|].
  split; [|done]. intros _. split; [done|]. split; [done|].
  split; [|done]. intros H. apply Hplayer in H. done.
Qed.

Lemma placeCrates_spec (rnd : Random) (fuel : nat) (width height : Z)
    (walls : list Position.t) (player : Position.t)
    (colors : list (option string)) (crates0 crates : list Crate.t)
    (k k' : nat) :
  fair rnd -> 2 < width -> 2 < height ->
  GenerateLevels.placeCrates rnd fuel width height walls player colors
    crates0 k = Some (crates, k') ->
  Crate.color <$> crates = ((Crate.color <$> crates0) ++ colors)%list /\
  (NoDup (Crate.position <$> crates0) ->
   NoDup (Crate.position <$> crates)) /\
  (Forall (fun q => (q ∉ walls) /\ q <> player /\ innerCell width height q)
          (Crate.position <$> crates0) ->
   Forall (fun q => (q ∉ walls) /\ q <> player /\ innerCell width height q)
          (Crate.position <$> crates)).
Proof.
  intros Hfair Hw Hh. revert crates0 k.
  induction colors as [|color colors IH]; intros crates0 k; simpl.
  - intros [= <- <-]. by rewrite app_nil_r.
  - intros H. apply bind_Some in H as (p & k1 & Hp & H).
    apply place_free in Hp as [Hfree Hinner]; [|done..].
    destruct p as [x y]. simpl in Hfree.
    apply isOccupied_false in Hfree as (Hwall & Hcrates & Hplayer & _).
    apply IH in H as (Hcolors & Hnodup & Hall).
    rewrite fmap_app in Hcolors. rewrite fmap_app in Hnodup.
    rewrite fmap_app in Hall. simpl in *.
    split; [by rewrite Hcolors, <- app_assoc|]. split.
    + intros H0. apply Hnodup. apply NoDup_app. split; [done|].
      split; [|apply NoDup_singleton].
      intros q Hq Hq'. apply list_elem_of_singleton in Hq'. by subst.
    + intros H0. apply Hall. apply Forall_app. split; [done|].
      by apply Forall_singleton.
Qed.

Lemma placeEndPositions_spec (rnd : Random) (fuel : nat) (width height : Z)
    (walls : list Position.t) (crates : list Crate.t) (player : Position.t)
    (colors : list string) (ends0 ends : list EndPosition.t) (k k' : nat) :
  fair rnd -> 2 < width -> 2 < height ->
  GenerateLevels.placeEndPositions rnd fuel width height walls crates player
    colors ends0 k = Some (ends, k') ->
  EndPosition.color <$> ends
    = ((EndPosition.color <$> ends0) ++ colors)%list /\
  (NoDup (EndPosition.position <$> ends0) ->
   NoDup (EndPosition.position <$> ends)) /\
  (Forall (fun q => (q ∉ walls) /\ (q ∉ (Crate.position <$> crates)) /\
                    q <> player /\ innerCell width height q)
          (EndPosition.position <$> ends0) ->
   Forall (fun q => (q ∉ walls) /\ (q ∉ (Crate.position <$> crates)) /\
                    q <> player /\ innerCell width height q)
          (EndPosition.position <$> ends)).
Proof.
  intros Hfair Hw Hh. revert ends0 k.
  induction colors as [|color colors IH]; intros ends0 k; simpl.
  - intros [= <- <-]. by rewrite app_nil_r.
  - intros H. apply bind_Some in H as (p & k1 & Hp & H).
    apply place_free in Hp as [Hfree Hinner]; [|done..].
    destruct p as [x y]. simpl in Hfree.
    apply isOccupied_false in Hfree as (Hwall & Hcrates & Hplayer & Hends).
    apply IH in H as (Hcolors & Hnodup & Hall).
    rewrite fmap_app in Hcolors. rewrite fmap_app in Hnodup.
    rewrite fmap_app in Hall. simpl in *.
    split; [by rewrite Hcolors, <- app_assoc|]. split.
    + intros H0. apply Hnodup. apply NoDup_app. split; [done|].
      split; [|apply NoDup_singleton].
      intros q Hq Hq'. apply list_elem_of_singleton in Hq'. by subst.
    + intros H0. apply Hall. apply Forall_app. split; [done|].
      by apply Forall_singleton.
Qed.

(** *** Sets and shuffles *)

Lemma setOf_from (seen l : list string) :
  NoDup seen ->
  let s := foldl (fun seen c =>
                    if bool_decide (c ∈ seen) then seen
                    else (seen ++ [c])%list) seen l in
  NoDup s /\ (forall c, c ∈ s <-> c ∈ seen \/ c ∈ l) /\
  (NoDup l -> (forall c, c ∈ l -> c ∉ seen) -> s = (seen ++ l)%list).
Proof.
  revert seen. induction l as [|a l IH]; intros seen Hseen; simpl.
  - split; [done|]. split.
    + intros c. split; [by left|]. intros [H|H]; [done | inversion H].
    + intros _ _. by rewrite app_nil_r.
  - case_bool_decide as Ha.
    + destruct (IH seen Hseen) as (Hnodup & Hin & Hid).
      split; [done|]. split.
      * intros c. rewrite Hin, elem_of_cons. split; [tauto|].
        intros [H|[->|H]]; tauto.
      * intros _ Hfresh. exfalso. apply (Hfresh a); [left | done].
    + assert (Hseen' : NoDup (seen ++ [a])).
      { apply NoDup_app. split; [done|]. split; [|apply NoDup_singleton].
        intros c Hc Hc'. apply list_elem_of_singleton in Hc'. by subst. }
      destruct (IH _ Hseen') as (Hnodup & Hin & Hid).
      split; [done|]. split.
      * intros c. rewrite Hin, elem_of_app, list_elem_of_singleton,
          elem_of_cons. tauto.
      * intros Hl Hfresh. apply NoDup_cons in Hl as [Hal Hl].
        rewrite Hid, <- app_assoc; [done | done |].
        intros c Hc Hc'. apply elem_of_app in Hc' as [Hc'|Hc'].
        -- apply (Hfresh c); [by right | done].
        -- apply list_elem_of_singleton in Hc'. by subst.
Qed.

Lemma setOf_NoDup (l : list string) : NoDup (setOf l).
Proof. apply (setOf_from [] l), NoDup_nil_2. Qed.

Lemma elem_of_setOf (l : list string) (c : string) : c ∈ setOf l <-> c ∈ l.
Proof.
  destruct (setOf_from [] l (NoDup_nil_2)) as (_ & Hin & _).
  unfold setOf. rewrite Hin. split; [|by right].
  intros [H|H]; [inversion H | done].
Qed.

Lemma setOf_id (l : list string) : NoDup l -> setOf l = l.
Proof.
  intros Hl. destruct (setOf_from [] l (NoDup_nil_2)) as (_ & _ & Hid).
  apply Hid; [done|]. intros c _ H. inversion H.
Qed.

Lemma setOf_Permutation (l : list string) : l ≡ₚ setOf l <-> NoDup l.
Proof.
  split.
  - intros H. rewrite H. apply setOf_NoDup.
  - intros H. by rewrite setOf_id.
Qed.

Lemma setOf_length (l : list string) :
  length (setOf l) = length l <-> NoDup l.
Proof.
  split; [|by intros H; rewrite setOf_id].
  intros Hlen. apply setOf_Permutation. symmetry.
  apply submseteq_length_Permutation; [|lia].
  apply NoDup_submseteq; [apply setOf_NoDup|].
  intros c. by rewrite elem_of_setOf.
Qed.

Lemma move_to_front {A} (l : list A) (j : nat) (a x : A) :
  l !! j = Some a -> a :: <[j := x]> l ≡ₚ x :: l.
Proof.
  revert j. induction l as [|y l IH]; intros [|j]; simpl; try done.
  - intros [= ->]. apply Permutation_swap.
  - intros Hj. rewrite Permutation_swap, (IH j Hj). apply Permutation_swap.
Qed.

Lemma swap_Permutation {A} (i j : nat) (a : list A) : swap i j a ≡ₚ a.
Proof.
  unfold swap. destruct (a !! i) as [ai|] eqn:Hi; [|done].
  destruct (a !! j) as [aj|] eqn:Hj; [|done].
  revert i j Hi Hj. induction a as [|x a IH]; intros [|i] [|j]; simpl;
    try done.
  - by intros [= ->] [= ->].
  - intros [= ->] Hj. by apply move_to_front.
  - intros Hi [= ->]. by apply move_to_front.
  - intros Hi Hj. by rewrite (IH i j).
Qed.

Lemma shuffleFrom_Permutation {A} (rnd : Random) (i : nat) (a a' : list A)
    (k k' : nat) :
  GenerateLevels.shuffleFrom rnd i a k = Some (a', k') -> a' ≡ₚ a.
Proof.
  revert a k. induction i as [|i IH]; intros a k; simpl.
  - by intros [= <- <-].
  - unfold Gen.bind, Gen.random. intros H. apply IH in H.
    by rewrite H, swap_Permutation.
Qed.

(** *** The colors of the crates *)

Lemma omap_id_replicate_Some {A} (n : nat) (a : A) :
  omap id (replicate n (Some a)) = replicate n a.
Proof. induction n as [|n IH]; simpl; [done | f_equal; exact IH]. Qed.

Lemma omap_id_replicate_None {A} (n : nat) :
  omap id (replicate n (@None A)) = [].
Proof. induction n as [|n IH]; simpl; [done | exact IH]. Qed.

Lemma omap_id_fmap_Some {A B} (f : A -> B) (l : list A) :
  omap id ((fun a => Some (f a)) <$> l) = f <$> l.
Proof. induction l as [|a l IH]; simpl; [done | f_equal; exact IH]. Qed.

Lemma chooseColors_chosen (rnd : Random) (levelNum numCrates numColors : Z)
    (k k' : nat) (cc : list (option string)) :
  GenerateLevels.chooseColors rnd levelNum numCrates numColors k
    = Some (cc, k') ->
  omap id cc = chosenColors rnd levelNum numCrates numColors k /\
  Z.of_nat (length cc) = Z.max 0 numCrates.
Proof.
  unfold GenerateLevels.chooseColors, chosenColors.
  destruct (GenerateLevels.sameColor levelNum numCrates).
  - unfold Gen.bind, Gen.random, Gen.ret. intros [= <- <-].
    rewrite omap_id_replicate_Some, length_replicate. split; [done | lia].
  - unfold Gen.ret. intros [= <- <-].
    rewrite omap_app, omap_id_replicate_None, app_nil_r, omap_id_fmap_Some.
    split; [done|].
    rewrite length_app, length_fmap, length_seqZ, length_replicate.
    pose proof (Z.div_mod numCrates 5 ltac:(lia)).
    pose proof (Z.mod_pos_bound numCrates 5 ltac:(lia)). lia.
Qed.

Lemma colorAt_inj (i j : Z) :
  0 <= i < 8 -> 0 <= j < 8 ->
  GenerateLevels.colorAt i = GenerateLevels.colorAt j -> i = j.
Proof.
  intros Hi Hj.
  assert (Hcases : forall i, 0 <= i < 8 ->
            i = 0 \/ i = 1 \/ i = 2 \/ i = 3 \/ i = 4 \/ i = 5 \/ i = 6 \/
            i = 7) by (intros; lia).
  destruct (Hcases i Hi) as [->|[->|[->|[->|[->|[->|[->| ->]]]]]]];
    destruct (Hcases j Hj) as [->|[->|[->|[->|[->|[->|[->| ->]]]]]]];
    done.
Qed.

Lemma chosenColors_NoDup (rnd : Random) (levelNum numCrates numColors : Z)
    (k : nat) :
  1 <= numColors <= 8 -> 1 <= numCrates ->
  NoDup (chosenColors rnd levelNum numCrates numColors k) <->
  GenerateLevels.sameColor levelNum numCrates = false /\
  numCrates - numCrates / 5 <= numColors.
Proof.
  intros Hcolors Hcrates. unfold chosenColors.
  destruct (GenerateLevels.sameColor levelNum numCrates) eqn:Hsame.
  - split; [|by intros [? _]]. intros Hnodup. exfalso.
    unfold GenerateLevels.sameColor in Hsame.
    apply andb_true_iff in Hsame as [_ Hmany]. apply Z.geb_le in Hmany.
    assert (Hneq : 0%nat = 1%nat); [|done].
    eapply (NoDup_lookup _ _ _ _ Hnodup); apply lookup_replicate_2; lia.
  - set (m := numCrates - numCrates / 5). split.
    + intros Hnodup. split; [done|].
      destruct (decide (m <= numColors)) as [|Hmore]; [done|]. exfalso.
      assert (Hneq : 0%nat = Z.to_nat numColors); [|lia].
      eapply (NoDup_lookup _ _ _ _ Hnodup).
      * rewrite list_lookup_fmap, lookup_seqZ_lt; [|lia]. simpl.
        by rewrite Z.rem_0_l by lia.
      * rewrite list_lookup_fmap, lookup_seqZ_lt; [|lia]. simpl.
        rewrite Z2Nat.id, Z.add_0_l, Z.rem_same by lia. done.
    + intros [_ Hfew]. apply NoDup_fmap_2_strong; [|apply NoDup_seqZ].
      intros i j Hi%elem_of_seqZ Hj%elem_of_seqZ.
      rewrite !Z.rem_small by lia. apply colorAt_inj; lia.
Qed.

(** *** A generated level *)

Lemma generateLevel_inv (rnd : Random) (fuel : nat) (levelNum : Z)
    (k k' : nat) (lvl : Level.t) :
  fair rnd -> 2 <= levelNum <= 99 ->
  GenerateLevels.generateLevel rnd fuel levelNum k = Some (lvl, k') ->
  exists p k1 kc extra,
    GenerateLevels.parameters rnd levelNum k = Some (p, k1) /\
    Level.number lvl = levelNum /\
    Level.width lvl = GenerateLevels.width p /\
    Level.height lvl = GenerateLevels.height p /\
    Level.walls lvl
      = (GenerateLevels.createPerimeterWalls (GenerateLevels.width p)
           (GenerateLevels.height p) ++ extra)%list /\
    Forall (innerCell (Level.width lvl) (Level.height lvl)) extra /\
    (Level.playerStartPosition lvl ∉ Level.walls lvl) /\
    innerCell (Level.width lvl) (Level.height lvl)
      (Level.playerStartPosition lvl) /\
    omap Crate.color (Level.crates lvl)
      ≡ₚ chosenColors rnd levelNum (GenerateLevels.numCrates p)
           (GenerateLevels.numColors p) kc /\
    Z.of_nat (length (Level.crates lvl)) = GenerateLevels.numCrates p /\
    NoDup (Crate.position <$> Level.crates lvl) /\
    Forall (fun q => (q ∉ Level.walls lvl) /\
                     q <> Level.playerStartPosition lvl /\
                     innerCell (Level.width lvl) (Level.height lvl) q)
           (Crate.position <$> Level.crates lvl) /\
    EndPosition.color <$> Level.endPositions lvl
      = setOf (omap Crate.color (Level.crates lvl)) /\
    NoDup (EndPosition.position <$> Level.endPositions lvl) /\
    Forall (fun q => (q ∉ Level.walls lvl) /\
                     (q ∉ (Crate.position <$> Level.crates lvl)) /\
                     q <> Level.playerStartPosition lvl /\
                     innerCell (Level.width lvl) (Level.height lvl) q)
           (EndPosition.position <$> Level.endPositions lvl).
Proof.
  intros Hfair Hlevel Hgen. unfold GenerateLevels.generateLevel in Hgen.
  apply bind_Some in Hgen as (p & k1 & Hp & Hgen).
  destruct (parameters_in_range rnd levelNum k Hfair Hlevel)
    as (p' & k1' & Hp' & Hw & Hh & Hcolors & Hcolors8 & Harea).
  rewrite Hp in Hp'. injection Hp' as <- <-.
  apply bind_Some in Hgen as (walls & k2 & Hwalls & Hgen).
  apply bind_Some in Hgen as (player & k3 & Hplayer & Hgen).
  apply bind_Some in Hgen as (cc0 & k4 & Hcc0 & Hgen).
  apply bind_Some in Hgen as (cc & k5 & Hcc & Hgen).
  apply bind_Some in Hgen as (crates & k6 & Hcrates & Hgen).
  apply bind_Some in Hgen as (ends & k7 & Hends & Hgen).
  injection Hgen as <- <-. simpl.
  assert (Hextra : exists extra,
            walls = (GenerateLevels.createPerimeterWalls
                       (GenerateLevels.width p) (GenerateLevels.height p)
                     ++ extra)%list /\
            Forall (innerCell (GenerateLevels.width p)
                      (GenerateLevels.height p)) extra).
  { destruct (GenerateLevels.hasObstacles p).
    - apply bind_Some in Hwalls as (r & kr & _ & Hwalls).
      apply obstacles_add in Hwalls; [done | done | lia | lia].
    - injection Hwalls as <- <-. exists [].
      split; [by rewrite app_nil_r | done]. }
  destruct Hextra as (extra & Hwalls' & Hextra).
  apply place_free in Hplayer as [Hfree Hinner]; [|done | lia | lia].
  destruct player as [px py]. simpl in Hfree.
  apply isOccupied_false in Hfree as (Hstart & _).
  apply chooseColors_chosen in Hcc0 as [Hchosen Hlen].
  apply shuffleFrom_Permutation in Hcc.
  apply placeCrates_spec in Hcrates as (Hcol & Hnodup & Hall);
    [|done | lia | lia].
  apply placeEndPositions_spec in Hends as (Hecol & Henodup & Heall);
    [|done | lia | lia].
  simpl in Hcol, Hecol.
  assert (Hcrate_colors : omap Crate.color crates = omap id cc).
  { rewrite <- Hcol. clear. induction crates as [|c l IH]; [done|].
    simpl. destruct (Crate.color c); simpl; [f_equal|]; exact IH. }
  exists p, k1, k3, extra.
  split; [done|]. split; [done|]. split; [done|]. split; [done|].
  split; [done|]. split; [done|]. split; [done|]. split; [done|].
  split; [by rewrite Hcrate_colors, Hcc, Hchosen|].
  split.
  { rewrite <- (length_fmap Crate.color), Hcol, Hcc. lia. }
  split; [apply Hnodup, NoDup_nil_2|].
  split; [by apply Hall|].
  split; [by rewrite Hecol, Hcrate_colors|].
  split; [apply Henodup, NoDup_nil_2|].
  by apply Heall.
Qed.

Lemma innerCell_inBounds (lvl : Level.t) (q : Position.t) :
  innerCell (Level.width lvl) (Level.height lvl) q -> inBounds lvl q.
Proof. unfold innerCell, inBounds. lia. Qed.

Lemma validateLevel_wellFormed (lvl : Level.t) :
  validateLevel lvl = Return true <-> wellFormed lvl.
Proof.
  destruct (validateLevel_cases lvl) as [[Hwf Hv]|(e & Hv & He)].
  - done.
  - rewrite Hv. split; [done|]. intros Hwf.
    by apply describes_not_wellFormed in He.
Qed.

(** X29: [validateLevel] accepts a level that the generator has written
    exactly when no two of its colored crates have the same color, and
    otherwise rejects it for the number of its end positions: the generator
    places one end position for each color, not for each colored crate.  In
    terms of the parameters of the level: it is accepted exactly when the
    crates do not all get one color and there are at least as many colors
    as colored crates. *)
Theorem generated_level_valid_iff_colors_differ (rnd : Random) (fuel : nat)
    (levelNum : Z) (k k' : nat) (lvl : Level.t) :
  fair rnd -> 2 <= levelNum <= 99 ->
  GenerateLevels.generateLevel rnd fuel levelNum k = Some (lvl, k') ->
  (validateLevel lvl = Return true <->
   NoDup (omap Crate.color (Level.crates lvl))) /\
  (validateLevel lvl <> Return true ->
   validateLevel lvl
     = Throw (EndPositionCount levelNum (length (Level.endPositions lvl))
                (length (omap Crate.color (Level.crates lvl))))) /\
  (exists p k1,
     GenerateLevels.parameters rnd levelNum k = Some (p, k1) /\
     (validateLevel lvl = Return true <->
      GenerateLevels.sameColor levelNum (GenerateLevels.numCrates p) = false /\
      GenerateLevels.numCrates p - GenerateLevels.numCrates p / 5
        <= GenerateLevels.numColors p)).
Proof.
  intros Hfair Hlevel Hgen.
  destruct (generateLevel_inv rnd fuel levelNum k k' lvl Hfair Hlevel Hgen)
    as (p & k1 & kc & extra & Hp & Hnum & Hw & Hh & Hwalls & Hextra & _ &
        Hstart & Hchosen & Hcount & _ & Hcrates & Hends & _ & Hendpos).
  destruct (parameters_in_range rnd levelNum k Hfair Hlevel)
    as (p' & k1' & Hp' & Hwr & Hhr & Hcolors & Hcolors8 & Harea).
  rewrite Hp in Hp'. injection Hp' as <- <-.
  assert (Hiff : validateLevel lvl = Return true <->
                 NoDup (omap Crate.color (Level.crates lvl))).
  { rewrite validateLevel_wellFormed. split.
    - intros (_ & _ & Hperm & _). apply setOf_Permutation.
      by rewrite <- Hends.
    - intros Hnodup. split; [lia|]. split; [lia|].
      split; [rewrite Hends; by apply setOf_Permutation|].
      split; [by apply innerCell_inBounds|]. split; [|split].
      + rewrite Hwalls. apply Forall_app. split.
        * apply Forall_forall. intros q Hq.
          apply createPerimeterWalls_elem in Hq as [Hq _]; [|lia..].
          unfold inBounds. by rewrite Hw, Hh.
        * eapply Forall_impl; [exact Hextra|].
          intros q. apply innerCell_inBounds.
      + rewrite Forall_fmap in Hcrates.
        eapply Forall_impl; [exact Hcrates|].
        intros c (_ & _ & Hc). by apply innerCell_inBounds.
      + rewrite Forall_fmap in Hendpos.
        eapply Forall_impl; [exact Hendpos|].
        intros e (_ & _ & _ & He). by apply innerCell_inBounds. }
  split; [exact Hiff|]. split.
  - intros Hnot. rewrite Hiff in Hnot.
    assert (Hlen : length (Level.endPositions lvl)
                   <> length (omap Crate.color (Level.crates lvl))).
    { intros Hlen. apply Hnot, setOf_length.
      by rewrite <- Hends, length_fmap. }
    unfold validateLevel.
    replace ((Level.width lvl <? 1) || (Level.width lvl >? 32)) with false
      by (symmetry; apply orb_false_iff; lia).
    replace ((Level.height lvl <? 1) || (Level.height lvl >? 32)) with false
      by (symmetry; apply orb_false_iff; lia).
    rewrite length_filter_isColored, Hnum.
    apply Nat.eqb_neq in Hlen. by rewrite Hlen.
  - exists p, k1. split; [done|].
    rewrite Hiff, Hchosen. apply chosenColors_NoDup; lia.
Qed.

Lemma generated_level_valid_iff_colors_differ_witness :
  exists lvl k',
    GenerateLevels.generateLevel lcg 50 15 0%nat = Some (lvl, k') /\
    validateLevel lvl
      = Throw (EndPositionCount 15 (length (Level.endPositions lvl))
                 (length (omap Crate.color (Level.crates lvl)))).
Proof.
  eexists _, _. split; [vm_compute; reflexivity|].
  refine (proj1 (proj2 (generated_level_valid_iff_colors_differ lcg 50 15
                          0%nat _ _ lcg_fair ltac:(lia) _)) _).
  - vm_compute. reflexivity.
  - vm_compute. discriminate.
Defined.


(** X30: in a level that the generator has written, the perimeter walls
    are among the walls; the player start, the crates and the end positions
    are on floor cells; the crates are on pairwise distinct cells, none on
    the player start; the end positions are on pairwise distinct cells,
    none under a crate or the bulldozer; there is an end position, and the
    level is not complete when play starts. *)
Theorem generated_level_start (rnd : Random) (fuel : nat) (levelNum : Z)
    (k k' : nat) (lvl : Level.t) :
  fair rnd -> 2 <= levelNum <= 99 ->
  GenerateLevels.generateLevel rnd fuel levelNum k = Some (lvl, k') ->
  (forall q, q ∈ GenerateLevels.createPerimeterWalls (Level.width lvl)
                   (Level.height lvl) ->
             q ∈ Level.walls lvl) /\
  floorCell lvl (Level.playerStartPosition lvl) /\
  Forall (fun c => floorCell lvl (Crate.position c)) (Level.crates lvl) /\
  NoDup (Crate.position <$> Level.crates lvl) /\
  (Level.playerStartPosition lvl ∉ (Crate.position <$> Level.crates lvl)) /\
  Forall (fun e => floorCell lvl (EndPosition.position e) /\
                   (EndPosition.position e
                      ∉ (Crate.position <$> Level.crates lvl)) /\
                   EndPosition.position e <> Level.playerStartPosition lvl)
         (Level.endPositions lvl) /\
  NoDup (EndPosition.position <$> Level.endPositions lvl) /\
  Level.endPositions lvl <> [] /\
  isLevelComplete
    (checkLevelCompletion (loadLevel None lvl newLevelComponent)) = false.
Proof.
  intros Hfair Hlevel Hgen.
  destruct (generateLevel_inv rnd fuel levelNum k k' lvl Hfair Hlevel Hgen)
    as (p & k1 & kc & extra & Hp & Hnum & Hw & Hh & Hwalls & Hextra &
        Hstartwall & Hstart & Hchosen & Hcount & Hnodup & Hcrates & Hends &
        Hendnodup & Hendpos).
  destruct (parameters_in_range rnd levelNum k Hfair Hlevel)
    as (p' & k1' & Hp' & Hwr & Hhr & Hcolors & Hcolors8 & Harea).
  rewrite Hp in Hp'. injection Hp' as <- <-.
  assert (Hsome : Level.endPositions lvl <> []).
  { intros Hnil. 
    assert (Hcol : omap Crate.color (Level.crates lvl) = []).
    { destruct (omap Crate.color (Level.crates lvl)) as [|c l] eqn:E;
        [done|]. exfalso.
      assert (Hc : c ∈ setOf (c :: l)) by (apply elem_of_setOf; left).
      rewrite <- Hends, Hnil in Hc. inversion Hc. }
    rewrite Hcol in Hchosen. apply Permutation_nil_l in Hchosen.
    apply (f_equal length) in Hchosen. unfold chosenColors in Hchosen.
    destruct (GenerateLevels.sameColor _ _).
    - rewrite length_replicate in Hchosen. simpl in Hchosen. lia.
    - rewrite length_fmap, length_seqZ in Hchosen. simpl in Hchosen.
      pose proof (Z.div_mod (GenerateLevels.numCrates p) 5 ltac:(lia)).
      pose proof (Z.mod_pos_bound (GenerateLevels.numCrates p) 5
                    ltac:(lia)). lia. }
  split.
  { intros q Hq. rewrite Hw, Hh in Hq. rewrite Hwalls.
    apply elem_of_app. by left. }
  split; [split; [by apply innerCell_inBounds | done]|].
  split.
  { rewrite Forall_fmap in Hcrates. eapply Forall_impl; [exact Hcrates|].
    intros c (Hwall & _ & Hin). split; [by apply innerCell_inBounds | done]. }
  split; [done|]. split.
  { intros Hin. rewrite Forall_forall in Hcrates.
    by destruct (Hcrates _ Hin) as (_ & Hneq & _). }
  split.
  { rewrite Forall_fmap in Hendpos. eapply Forall_impl; [exact Hendpos|].
    intros e (Hwall & Hcrate & Hneq & Hin).
    split; [split; [by apply innerCell_inBounds | done] | done]. }
  split; [done|]. split; [done|].
  destruct (Level.endPositions lvl) as [|g ends] eqn:Hg; [done|].
  assert (Hfilled : allEndPositionsFilled lvl
                      (crateSprites (loadLevel None lvl newLevelComponent))
                    = false).
  { unfold allEndPositionsFilled. rewrite Hg.
    apply (every_false _ _ g); [left|].
    apply endPositionFilled_empty_cell. simpl. intros j c Hc.
    apply list_lookup_fmap_Some in Hc as (crate & -> & Hc).
    unfold CrateSprite.cell. simpl. rewrite roundPos_id.
    apply Forall_cons in Hendpos as [(_ & Hfree & _) _].
    intros Heq. apply Hfree. rewrite <- Heq.
    apply list_elem_of_fmap_2. by eapply list_elem_of_lookup_2. }
  unfold checkLevelCompletion. simpl in *. by rewrite Hfilled.
Qed.

Lemma generated_level_start_witness :
  exists lvl k',
    GenerateLevels.generateLevel lcg 50 11 0%nat = Some (lvl, k') /\
    Level.endPositions lvl <> [] /\
    isLevelComplete
      (checkLevelCompletion (loadLevel None lvl newLevelComponent)) = false.
Proof.
  eexists _, _. split; [vm_compute; reflexivity|].
  refine (proj2 (proj2 (proj2 (proj2 (proj2 (proj2 (proj2
            (generated_level_start lcg 50 11 0%nat _ _ lcg_fair ltac:(lia)
               _)))))))).
  vm_compute. reflexivity.
Defined.

